(** * Team balancer: a shallow embedding of [team_balancer.py] and [api.py]

    The development follows the two source files.

    - Ratings are Python floats in the source.  In the model of the
      program they are rationals ([Q]) with exact arithmetic: numbers
      without rounding, without NaN and without infinities (a row whose
      rating is [nan] or [inf] is outside this model); [float('inf')] is
      the extra constructor [Infinity] of [Diff]; Python's [==] and [<]
      on ratings are [Qeq_bool] and [Qlt].  Where the value a float
      takes matters (the difference of teams with identical ratings),
      the arithmetic of the source is modelled again on IEEE 754
      binary64 values, in the module [Binary64].
    - Python integers are [Z]; [%] and [//] are [Z.modulo] and [Z.div]
      (both floor-based, as in Python) guarded by a zero test that raises
      [ZeroDivisionError].
    - A Python string is a [string] whose characters are code points
      below 256.
    - A Python [dict] is an association list in insertion order.  Objects
      are values, except in the module [Objects], where the statistics of
      the API run on a heap of mutable objects reached by reference.
    - [random], the CBC solver behind PuLP and pandas are external: they
      are the fields of the class [Externals] ([random_shuffle],
      [random_uniform], [cbc_solve], [read_csv], ...); the first three act
      on an abstract [World].  What is assumed of them is stated as
      [ShuffleContract] and [SolverContract] (or [AdapterContract], the
      same with the accepted statuses spelled out) and appears as a
      hypothesis wherever it is used.  Nothing in the source makes the
      solver keep its contract: [Relaxed] is a world in which it does
      not.
    - Console output ([print]) is not modelled, except for [print_teams],
      whose value is what it prints; [solver_calls] is a ghost counter of
      the calls of [prob.solve]. *)

From Stdlib Require Import ZArith QArith List String Bool Lia Permutation Arith.
From Stdlib Require Import Sorted.
From Stdlib Require Import Lqa.
From Stdlib Require SpecFloat.
Import ListNotations.

Local Open Scope nat_scope.

(** ** Players *)

Record Player := mkPlayer {
  name : string;
  overall : Q;
  position : string
}.

(** ** Exceptions and results *)

Inductive exn :=
| ZeroDivisionError
| KeyError (key : string)
| ValueError
| PulpSolverError
| ExternalError (what : string)
| HTTPException (status_code : Z) (why : http_detail)
with http_detail :=
| Text (s : string)
| StrOf (e : exn).

Inductive result (A : Type) :=
| Ok (a : A)
| Raise (e : exn).
Arguments Ok {A} a.
Arguments Raise {A} e.

(** ** Python arithmetic *)

Definition py_mod (a b : Z) : option Z :=
  if (b =? 0)%Z then None else Some (a mod b)%Z.

Definition py_floordiv (a b : Z) : option Z :=
  if (b =? 0)%Z then None else Some (a / b)%Z.

Definition py_truediv (a : Q) (b : Z) : option Q :=
  if (b =? 0)%Z then None else Some (a / inject_Z b)%Q.

Definition len {A} (l : list A) : Z := Z.of_nat (List.length l).

(** [sum(p.overall for p in players)] *)
Definition sum_overall (ps : list Player) : Q :=
  fold_left (fun acc p => (acc + overall p)%Q) ps 0%Q.

(** [enumerate]: the loops [for i in range(len(self.players))] read
    [self.players[i]], that is, they visit the pairs [(i, players[i])]. *)
Definition enumerate_from {A} (start : nat) (l : list A) : list (nat * A) :=
  combine (seq start (List.length l)) l.
Definition enumerate {A} (l : list A) : list (nat * A) := enumerate_from 0 l.

(** [range(n)] for a Python integer [n] (empty when [n <= 0]). *)
Definition range (n : Z) : list nat := seq 0 (Z.to_nat n).

(** Python's [max] and [min] on a non-empty list: the first extremal
    element is kept. *)
Definition py_max (x : Q) (xs : list Q) : Q :=
  fold_left (fun m y => if Qlt_le_dec m y then y else m) xs x.
Definition py_min (x : Q) (xs : list Q) : Q :=
  fold_left (fun m y => if Qlt_le_dec y m then y else m) xs x.

(** ** The float with [inf] used for the best difference *)

Inductive Diff :=
| Finite (q : Q)
| Infinity.

(** [a < b] *)
Definition Dltb (a b : Diff) : bool :=
  match a, b with
  | Finite x, Finite y => if Qlt_le_dec x y then true else false
  | Finite _, Infinity => true
  | Infinity, _ => false
  end.

Definition Dlt (a b : Diff) : Prop :=
  match a, b with
  | Finite x, Finite y => (x < y)%Q
  | Finite _, Infinity => True
  | Infinity, _ => False
  end.

Definition Dle (a b : Diff) : Prop :=
  match a, b with
  | Finite x, Finite y => (x <= y)%Q
  | _, Infinity => True
  | Infinity, Finite _ => False
  end.

Definition Deq (a b : Diff) : Prop :=
  match a, b with
  | Finite x, Finite y => (x == y)%Q
  | Infinity, Infinity => True
  | _, _ => False
  end.

(** ** Dictionaries from team index to player list *)

Definition Teams := list (nat * list Player).

Fixpoint dict_get (d : Teams) (k : nat) : option (list Player) :=
  match d with
  | [] => None
  | (k', v) :: d' => if Nat.eqb k' k then Some v else dict_get d' k
  end.

(** [teams[j].append(p)] on a [defaultdict(list)]: an absent key is
    created at the end of the dictionary. *)
Fixpoint dict_append (d : Teams) (k : nat) (p : Player) : Teams :=
  match d with
  | [] => [(k, [p])]
  | (k', v) :: d' =>
      if Nat.eqb k' k then (k', v ++ [p]) :: d'
      else (k', v) :: dict_append d' k p
  end.

Definition keys (d : Teams) : list nat := map fst d.
Definition values (d : Teams) : list (list Player) := map snd d.

(** Truth value of a dict: [if teams:] *)
Definition truthy (d : Teams) : bool :=
  match d with [] => false | _ => true end.

(** ** The PuLP model *)

Inductive LpVar :=
| player_var (i j : nat)
| max_diff_var.

Inductive LpCategory := LpContinuous | LpBinary.

Record LpVariable := mkVar {
  var_name : LpVar;
  lowBound : option Q;
  cat : LpCategory
}.

Record LpAffineExpression := mkExpr {
  terms : list (Q * LpVar);
  constant : Q
}.

Inductive LpSense := LpConstraintEQ | LpConstraintGE.

Record LpConstraint := mkConstraint {
  lhs : LpAffineExpression;
  sense : LpSense;
  rhs : LpAffineExpression
}.

Record LpProblem := mkProblem {
  variables : list LpVariable;
  objective : LpAffineExpression;
  constraints : list LpConstraint
}.

(** [LpStatus]: 0 'Not Solved', 1 'Optimal', -1 'Infeasible',
    -2 'Unbounded', -3 'Undefined'. *)
Inductive LpStatusCode :=
| LpStatusNotSolved
| LpStatusOptimal
| LpStatusInfeasible
| LpStatusUnbounded
| LpStatusUndefined.

Record LpSolution := mkSolution {
  status : LpStatusCode;
  value : LpVar -> option Q
}.

Definition lpSum (vs : list LpVar) : LpAffineExpression :=
  mkExpr (map (fun v => (1%Q, v)) vs) 0%Q.

Definition lpVar (v : LpVar) : LpAffineExpression := lpSum [v].
Definition lpConst (q : Q) : LpAffineExpression := mkExpr [] q.

(** [lpSum(self.players[i].overall * player_vars[i,j] for i in ...)] *)
Definition team_rating_expr (ps : list Player) (j : nat) : list (Q * LpVar) :=
  map (fun ip => (overall (snd ip), player_var (fst ip) j)) (enumerate ps).

Definition neg_terms (ts : list (Q * LpVar)) : list (Q * LpVar) :=
  map (fun t => ((- fst t)%Q, snd t)) ts.

(** Minimum requirements (at least 2 of each position); set once in
    [__init__] and never reassigned. *)
Definition position_requirements : list (string * Z) :=
  [("DEF"%string, 2%Z); ("MID"%string, 2%Z); ("ATT"%string, 2%Z)].

(** Each player must be assigned to exactly one team. *)
Definition one_team_constraints (n : nat) (num_teams : Z) : list LpConstraint :=
  map (fun i =>
         mkConstraint (lpSum (map (player_var i) (range num_teams)))
                      LpConstraintEQ (lpConst 1%Q))
      (seq 0 n).

(** The two deviation constraints of team [j], with their jitter draws. *)
Definition rating_constraints (ps : list Player) (target : Q) (j : nat)
           (u_pos u_neg : Q) : list LpConstraint :=
  [ mkConstraint (lpVar max_diff_var) LpConstraintGE
      (mkExpr (team_rating_expr ps j) (- target - u_pos)%Q);
    mkConstraint (lpVar max_diff_var) LpConstraintGE
      (mkExpr (neg_terms (team_rating_expr ps j)) (target - u_neg)%Q) ].

(** Position requirements of team [j]. *)
Definition quota_constraint (ps : list Player) (j : nat)
           (req : string * Z) : LpConstraint :=
  mkConstraint
    (lpSum (map (fun ip => player_var (fst ip) j)
                (filter (fun ip => String.eqb (position (snd ip)) (fst req))
                        (enumerate ps))))
    LpConstraintGE (lpConst (inject_Z (snd req))).

(** Each team should have the same total number of players. *)
Definition size_constraint (ps : list Player) (num_teams : Z) (j : nat)
  : LpConstraint :=
  mkConstraint
    (lpSum (map (fun ip => player_var (fst ip) j) (enumerate ps)))
    LpConstraintEQ (lpConst (inject_Z (len ps / num_teams)%Z)).

Definition team_constraints (ps : list Player) (num_teams : Z) (j : nat)
  : list LpConstraint :=
  map (quota_constraint ps j) position_requirements
      ++ [size_constraint ps num_teams j].

(** [LpVariable.dicts("player", ..., cat='Binary')] and
    [LpVariable("max_diff", 0)]. *)
Definition player_vars (n : nat) (num_teams : Z) : list LpVariable :=
  flat_map (fun i => map (fun j => mkVar (player_var i j) None LpBinary)
                         (range num_teams))
           (seq 0 n).
Definition max_diff : LpVariable := mkVar max_diff_var (Some 0%Q) LpContinuous.

(** ** Extraction of the teams from the solver's values *)

(** [value(player_vars[i,j]) == 1] *)
Definition is_one (sol : LpVar -> option Q) (i j : nat) : bool :=
  match sol (player_var i j) with
  | Some q => Qeq_bool q 1%Q
  | None => false
  end.

(** The double loop of lines 109-112. *)
Definition extract_row (sol : LpVar -> option Q) (num_teams : Z)
           (teams : Teams) (ip : nat * Player) : Teams :=
  fold_left (fun t j => if is_one sol (fst ip) j
                        then dict_append t j (snd ip) else t)
            (range num_teams) teams.

Definition extract_teams (sol : LpVar -> option Q) (num_teams : Z)
           (ps : list Player) : Teams :=
  fold_left (extract_row sol num_teams) (enumerate ps) [].

(** [sum(p.overall for p in players) / len(players)] *)
Definition team_average (players : list Player) : option Q :=
  py_truediv (sum_overall players) (len players).

Fixpoint team_averages (vs : list (list Player)) : option (list Q) :=
  match vs with
  | [] => Some []
  | v :: vs' =>
      match team_average v with
      | None => None
      | Some a =>
          match team_averages vs' with
          | None => None
          | Some l => Some (a :: l)
          end
      end
  end.

(** [max(team_ratings) - min(team_ratings)]; both raise [ValueError] on
    an empty list. *)
Definition spread (ratings : list Q) : result Q :=
  match ratings with
  | [] => Raise ValueError
  | x :: xs => Ok (py_max x xs - py_min x xs)%Q
  end.

(** Lines 114-118: the actual maximum rating difference of the teams. *)
Definition max_rating_diff_of (teams : Teams) : result Diff :=
  if truthy teams then
    match team_averages (values teams) with
    | None => Raise ZeroDivisionError
    | Some team_ratings =>
        match spread team_ratings with
        | Ok d => Ok (Finite d)
        | Raise e => Raise e
        end
    end
  else Ok Infinity.

(** [LpStatus[prob.status] == 'Optimal' or ... == 'Not Solved'] *)
Definition usable (s : LpStatusCode) : bool :=
  match s with
  | LpStatusOptimal | LpStatusNotSolved => true
  | _ => false
  end.

(** Lines 156-159: keep the best result. *)
Definition replaces (best attempt : Teams * Diff) : bool :=
  truthy (fst attempt) && Dltb (snd attempt) (snd best).

Definition keep_best (best attempt : Teams * Diff) : Teams * Diff :=
  if replaces best attempt then attempt else best.

(** ** Feasibility of a variable assignment for a problem *)

Fixpoint eval_terms (sol : LpVar -> option Q) (ts : list (Q * LpVar))
  : option Q :=
  match ts with
  | [] => Some 0%Q
  | (c, v) :: ts' =>
      match sol v, eval_terms sol ts' with
      | Some x, Some r => Some (c * x + r)%Q
      | _, _ => None
      end
  end.

Definition eval_expr (sol : LpVar -> option Q) (e : LpAffineExpression)
  : option Q :=
  match eval_terms sol (terms e) with
  | Some r => Some (r + constant e)%Q
  | None => None
  end.

Definition holdsb (sol : LpVar -> option Q) (c : LpConstraint) : bool :=
  match eval_expr sol (lhs c), eval_expr sol (rhs c) with
  | Some a, Some b =>
      match sense c with
      | LpConstraintEQ => Qeq_bool a b
      | LpConstraintGE => Qle_bool b a
      end
  | _, _ => false
  end.

Definition var_okb (sol : LpVar -> option Q) (v : LpVariable) : bool :=
  match sol (var_name v) with
  | None => false
  | Some q =>
      match lowBound v with Some lo => Qle_bool lo q | None => true end
      && match cat v with
         | LpBinary => Qeq_bool q 0%Q || Qeq_bool q 1%Q
         | LpContinuous => true
         end
  end.

(** Every variable has a value of its category within its bounds, and
    every constraint holds. *)
Definition feasibleb (prob : LpProblem) (sol : LpVar -> option Q) : bool :=
  forallb (var_okb sol) (variables prob)
  && forallb (holdsb sol) (constraints prob).

(** ** The balancer: state, external calls and the two methods *)

(** The request and response records of [api.py]. *)
Record PlayerInput := mkPlayerInput {
  in_name : string;
  in_overall : Q;
  in_position : string
}.

Record PlayerOutput := mkPlayerOutput {
  out_name : string;
  out_overall : Q;
  out_position : string
}.

Record TeamOutput := mkTeamOutput {
  team_number : Z;
  team_players : list PlayerOutput;
  average_rating : Q;
  position_distribution : list (string * Z);
  total_rating : Q
}.

Record BalanceResponse := mkBalanceResponse {
  teams_out : list TeamOutput;
  overall_mean : Q;
  max_rating_difference : Q
}.

(** ** Strings: [str.strip()]

    A character of a model string is a code point below 256 (its number
    is [Ascii.nat_of_ascii]); strings with other code points are outside
    the model.  [str.strip()] without argument removes the characters
    for which [str.isspace()] holds: below 256 these are tab, line feed,
    vertical tab, form feed, carriage return (9-13), the four
    separators 28-31, the blank (32), NEL (133) and the no-break space
    (160). *)

Definition is_space (c : Ascii.ascii) : bool :=
  match Ascii.nat_of_ascii c with
  | 9 | 10 | 11 | 12 | 13 | 28 | 29 | 30 | 31 | 32 | 133 | 160 => true
  | _ => false
  end.

Fixpoint lstrip (s : string) : string :=
  match s with
  | EmptyString => EmptyString
  | String c s' => if is_space c then lstrip s' else s
  end.

Fixpoint rstrip (s : string) : string :=
  match s with
  | EmptyString => EmptyString
  | String c s' =>
      match rstrip s' with
      | EmptyString => if is_space c then EmptyString else String c EmptyString
      | r => String c r
      end
  end.

Definition strip (s : string) : string := rstrip (lstrip s).

(** ** The statistics computed from a team assignment *)

(** [sorted(teams.items())]: by team number, stable. *)
Fixpoint insert_item (x : nat * list Player) (l : Teams) : Teams :=
  match l with
  | [] => [x]
  | y :: l' => if Nat.leb (fst x) (fst y) then x :: l
               else y :: insert_item x l'
  end.

Definition sorted_items (teams : Teams) : Teams :=
  fold_right insert_item [] teams.

(** [pos_dist[k] += 1] on a plain dict: [KeyError] on an absent key. *)
Fixpoint dict_incr (d : list (string * Z)) (k : string)
  : result (list (string * Z)) :=
  match d with
  | [] => Raise (KeyError k)
  | (k', n) :: d' =>
      if String.eqb k' k then Ok ((k', (n + 1)%Z) :: d')
      else match dict_incr d' k with
           | Ok r => Ok ((k', n) :: r)
           | Raise e => Raise e
           end
  end.

Definition pos_dist_init : list (string * Z) :=
  [("DEF"%string, 0%Z); ("MID"%string, 0%Z); ("ATT"%string, 0%Z)].

(** [for p in players: pos_dist[p.position] += 1] *)
Fixpoint count_positions (d : list (string * Z)) (players : list Player)
  : result (list (string * Z)) :=
  match players with
  | [] => Ok d
  | p :: players' =>
      match dict_incr d (position p) with
      | Ok d' => count_positions d' players'
      | Raise e => Raise e
      end
  end.

Definition player_output (p : Player) : PlayerOutput :=
  mkPlayerOutput (name p) (overall p) (position p).

(** The body of the loop over the sorted teams. *)
Definition team_output (item : nat * list Player) : result TeamOutput :=
  let team_rating := sum_overall (snd item) in
  match py_truediv team_rating (len (snd item)) with
  | None => Raise ZeroDivisionError
  | Some avg_rating =>
      match count_positions pos_dist_init (snd item) with
      | Raise e => Raise e
      | Ok pos_dist =>
          Ok (mkTeamOutput (Z.of_nat (fst item) + 1)
                (map player_output (snd item))
                avg_rating pos_dist team_rating)
      end
  end.

Fixpoint team_outputs (items : Teams) : result (list TeamOutput) :=
  match items with
  | [] => Ok []
  | item :: items' =>
      match team_output item with
      | Raise e => Raise e
      | Ok t =>
          match team_outputs items' with
          | Raise e => Raise e
          | Ok ts => Ok (t :: ts)
          end
      end
  end.

(** Lines 88-119 of [api.py]. *)
Definition statistics (teams : Teams) : result BalanceResponse :=
  let items := sorted_items teams in
  match team_outputs items with
  | Raise e => Raise e
  | Ok outs =>
      let all_players := List.concat (values items) in
      match py_truediv (sum_overall all_players) (len all_players) with
      | None => Raise ZeroDivisionError
      | Some mean =>
          match spread (map average_rating outs) with
          | Raise e => Raise e
          | Ok max_diff_ => Ok (mkBalanceResponse outs mean max_diff_)
          end
      end
  end.

(** ** [print_teams]

    The value of [print_teams] is what it prints, piece by piece and with
    the numbers as they are before formatting; what was already printed
    when an exception is raised is not kept. *)

Record TeamReport := mkTeamReport {
  (** [Team {team_num + 1}:] *)
  report_number : Z;
  (** [Average Rating: ...] *)
  report_average : Q;
  (** for DEF, MID and ATT: the lines [- {name} (Rating: ...)] *)
  report_listing : list (string * list (string * Q));
  (** for DEF, MID and ATT: [{pos}: {pos_count[pos]}] *)
  report_distribution : list (string * Z);
  (** [Total Team Rating: ...] *)
  report_total : Q
}.

Record Report := mkReport {
  report_teams : list TeamReport;
  (** [Overall player mean rating: ...] *)
  report_overall_mean : Q;
  (** [Team {i + 1}: {mean}] *)
  report_team_means : list (Z * Q);
  (** [Maximum difference between team means: ...] *)
  report_max_difference : Q
}.

(** [players_by_pos[k].append(p)] on a [defaultdict(list)] *)
Fixpoint dd_append (d : list (string * list Player)) (k : string)
         (p : Player) : list (string * list Player) :=
  match d with
  | [] => [(k, [p])]
  | (k', v) :: d' =>
      if String.eqb k' k then (k', v ++ [p]) :: d'
      else (k', v) :: dd_append d' k p
  end.

(** [players_by_pos[k]]: the empty list for an absent key *)
Fixpoint dd_list (d : list (string * list Player)) (k : string)
  : list Player :=
  match d with
  | [] => []
  | (k', v) :: d' => if String.eqb k' k then v else dd_list d' k
  end.

(** [pos_count[k] += 1] on a [defaultdict(int)] *)
Fixpoint dd_incr (d : list (string * Z)) (k : string) : list (string * Z) :=
  match d with
  | [] => [(k, 1%Z)]
  | (k', n) :: d' =>
      if String.eqb k' k then (k', (n + 1)%Z) :: d'
      else (k', n) :: dd_incr d' k
  end.

(** [pos_count[k]]: 0 for an absent key *)
Fixpoint dd_int (d : list (string * Z)) (k : string) : Z :=
  match d with
  | [] => 0%Z
  | (k', n) :: d' => if String.eqb k' k then n else dd_int d' k
  end.

(** [sorted(l, key=lambda p: -p.overall)]: by decreasing rating, stable. *)
Fixpoint insert_by_rating (x : Player) (l : list Player) : list Player :=
  match l with
  | [] => [x]
  | y :: l' => if Qlt_le_dec (- overall y) (- overall x)
               then y :: insert_by_rating x l'
               else x :: l
  end.

Definition sorted_by_rating (l : list Player) : list Player :=
  fold_right insert_by_rating [] l.

Definition listed_positions : list string :=
  ["DEF"%string; "MID"%string; "ATT"%string].

(** The body of the loop over the sorted teams (lines 182-212). *)
Definition team_report (item : nat * list Player) : result TeamReport :=
  let players := snd item in
  match py_truediv (sum_overall players) (len players) with
  | None => Raise ZeroDivisionError
  | Some team_overall =>
      let players_by_pos :=
        fold_left (fun d p => dd_append d (position p) p) players [] in
      let pos_count :=
        fold_left (fun d p => dd_incr d (position p)) players [] in
      Ok (mkTeamReport
            (Z.of_nat (fst item) + 1)
            team_overall
            (map (fun pos =>
                    (pos, map (fun p => (name p, overall p))
                              (sorted_by_rating (dd_list players_by_pos pos))))
                 listed_positions)
            (map (fun pos => (pos, dd_int pos_count pos)) listed_positions)
            (sum_overall players))
  end.

Fixpoint team_reports (items : Teams) : result (list TeamReport) :=
  match items with
  | [] => Ok []
  | item :: items' =>
      match team_report item with
      | Raise e => Raise e
      | Ok r =>
          match team_reports items' with
          | Raise e => Raise e
          | Ok rs => Ok (r :: rs)
          end
      end
  end.

(** [for i, mean in enumerate(team_means)]: the labels [i + 1]. *)
Definition numbered (means : list Q) : list (Z * Q) :=
  map (fun im => ((Z.of_nat (fst im) + 1)%Z, snd im)) (enumerate means).

(** [print_teams(teams)]: [None] when nothing is printed. *)
Definition print_teams (teams : Teams) : result (option Report) :=
  if negb (truthy teams) then Ok None
  else
    let sorted_teams := sorted_items teams in
    match team_reports sorted_teams with
    | Raise e => Raise e
    | Ok reports =>
        let team_means := map report_average reports in
        let all_players := List.concat (values sorted_teams) in
        match py_truediv (sum_overall all_players) (len all_players) with
        | None => Raise ZeroDivisionError
        | Some mean =>
            match spread team_means with
            | Raise e => Raise e
            | Ok max_diff_ =>
                Ok (Some (mkReport reports mean (numbered team_means)
                                   max_diff_))
            end
        end
    end.

(** A row of the data frame read by [pd.read_csv]: [row['name']],
    [float(row['overall'])] (which may raise) and [str(row['position'])]. *)
Record RawRow := mkRow {
  row_name : string;
  row_overall : result Q;
  row_position : string
}.

(** What the program takes from outside: [random], the CBC solver behind
    PuLP, and pandas. *)
Class Externals := {
  (** the state of [random] and whatever the solver's answer depends on *)
  World : Type;
  (** [random.shuffle(l)]: the shuffled list and the next world *)
  random_shuffle : World -> list Player -> list Player * World;
  (** [random.uniform(a, b)] *)
  random_uniform : World -> Q -> Q -> Q * World;
  (** [prob.solve(PULP_CBC_CMD(timeLimit=t, msg=False))]: the status and
      variable values left on the problem, or an exception *)
  cbc_solve : World -> LpProblem -> Z -> result LpSolution * World;
  (** a CSV file or buffer *)
  Buffer : Type;
  (** [pd.read_csv(buffer)] followed by [df.iterrows()] *)
  read_csv : Buffer -> result (list RawRow);
  (** [pd.DataFrame([...])], [df.to_csv(csv_buffer, index=False)] and
      [csv_buffer.seek(0)] *)
  frame_to_csv : list PlayerInput -> result Buffer;
  (** an uploaded file; [io.StringIO((await file.read()).decode())] *)
  UploadFile : Type;
  upload_to_buffer : UploadFile -> result Buffer
}.

Reserved Notation "x <- m ;; k"
  (at level 61, m at next level, right associativity).
Reserved Notation "m ;;; k" (at level 61, right associativity).

Section TeamBalancer.

Context {E : Externals}.

(** [self.players], the world, and a ghost counter of solver calls. *)
Record State := mkState {
  players : list Player;
  world : World;
  solver_calls : nat
}.

Definition M (A : Type) := State -> result A * State.

Definition ret {A} (a : A) : M A := fun s => (Ok a, s).
Definition raise {A} (e : exn) : M A := fun s => (Raise e, s).
Definition bind {A B} (m : M A) (f : A -> M B) : M B :=
  fun s => match m s with
           | (Ok a, s') => f a s'
           | (Raise e, s') => (Raise e, s')
           end.
(** [try: m except Exception as e: h e] *)
Definition try_except {A} (m : M A) (h : exn -> M A) : M A :=
  fun s => match m s with
           | (Ok a, s') => (Ok a, s')
           | (Raise e, s') => h e s'
           end.

Notation "x <- m ;; k" := (bind m (fun x => k)).
Notation "m ;;; k" := (bind m (fun _ => k)).

Definition or_raise {A} (o : option A) (e : exn) : M A :=
  match o with Some a => ret a | None => raise e end.

Definition lift {A} (r : result A) : M A :=
  match r with Ok a => ret a | Raise e => raise e end.

Definition get_players : M (list Player) := fun s => (Ok (players s), s).

(** [random.shuffle(self.players)]: in place, on the balancer's list. *)
Definition shuffle_players : M unit :=
  fun s => let (l, w) := random_shuffle (world s) (players s) in
           (Ok tt, mkState l w (solver_calls s)).

Definition uniform (a b : Q) : M Q :=
  fun s => let (q, w) := random_uniform (world s) a b in
           (Ok q, mkState (players s) w (solver_calls s)).

Definition solve (prob : LpProblem) (time_limit : Z) : M LpSolution :=
  fun s => let (r, w) := cbc_solve (world s) prob time_limit in
           (r, mkState (players s) w (S (solver_calls s))).

(** Lines 78-84: the loop over the teams that draws the jitter and adds
    the deviation constraints. *)
Fixpoint rating_loop (ps : list Player) (target threshold : Q)
         (js : list nat) : M (list LpConstraint) :=
  match js with
  | [] => ret []
  | j :: js' =>
      u_pos <- uniform 0%Q threshold ;;
      u_neg <- uniform 0%Q threshold ;;
      rest <- rating_loop ps target threshold js' ;;
      ret (rating_constraints ps target j u_pos u_neg ++ rest)
  end.

(** The problem handed to the solver (lines 58-98). *)
Definition build_problem (ps : list Player) (num_teams : Z)
           (rating_threshold : Q) : M LpProblem :=
  target_team_rating <-
    or_raise (py_truediv (sum_overall ps) num_teams) ZeroDivisionError ;;
  deviation <- rating_loop ps target_team_rating rating_threshold
                           (range num_teams) ;;
  ret (mkProblem
         (player_vars (List.length ps) num_teams ++ [max_diff])
         (lpVar max_diff_var)
         (one_team_constraints (List.length ps) num_teams
            ++ deviation
            ++ flat_map (team_constraints ps num_teams) (range num_teams))).

(** Lines 57-102: build the problem and solve it with the time limit. *)
Definition build_and_solve (ps : list Player) (num_teams time_limit : Z)
           (rating_threshold : Q) : M LpSolution :=
  prob <- build_problem ps num_teams rating_threshold ;;
  solve prob time_limit.

(** [_try_balance_teams(num_teams, time_limit, rating_threshold)] *)
Definition _try_balance_teams (num_teams time_limit : Z)
           (rating_threshold : Q) : M (Teams * Diff) :=
  ps <- get_players ;;
  sol <- build_and_solve ps num_teams time_limit rating_threshold ;;
  if usable (status sol) then
    let teams := extract_teams (value sol) num_teams ps in
    max_rating_diff <- lift (max_rating_diff_of teams) ;;
    ret (teams, max_rating_diff)
  else ret ([], Infinity).

(** One iteration of the loop of lines 148-159. *)
Definition attempt (num_teams time_limit num_attempts : Z)
           (best : Teams * Diff) : M (Teams * Diff) :=
  shuffle_players ;;;
  per_attempt <- or_raise (py_floordiv time_limit num_attempts)
                          ZeroDivisionError ;;
  r <- _try_balance_teams num_teams per_attempt (1 # 10)%Q ;;
  ret (keep_best best r).

(** [n] remaining iterations of [for attempt in range(num_attempts)]. *)
Fixpoint attempts (n : nat) (num_teams time_limit num_attempts : Z)
         (best : Teams * Diff) : M (Teams * Diff) :=
  match n with
  | O => ret best
  | S n' =>
      best' <- attempt num_teams time_limit num_attempts best ;;
      attempts n' num_teams time_limit num_attempts best'
  end.

(** [balance_teams] up to its [return]: the pair
    [(best_teams, best_diff)]. *)
Definition balance_teams_best (num_teams time_limit num_attempts : Z)
  : M (Teams * Diff) :=
  ps <- get_players ;;
  r <- or_raise (py_mod (len ps) num_teams) ZeroDivisionError ;;
  if negb (r =? 0)%Z then ret ([], Infinity)
  else attempts (Z.to_nat num_attempts) num_teams time_limit num_attempts
                ([], Infinity).

(** [balance_teams(num_teams, time_limit, num_attempts)] *)
Definition balance_teams (num_teams time_limit num_attempts : Z)
  : M Teams :=
  best <- balance_teams_best num_teams time_limit num_attempts ;;
  ret (fst best).

(** *** Loading the roster *)

Fixpoint rows_to_players (rows : list RawRow) : result (list Player) :=
  match rows with
  | [] => Ok []
  | row :: rows' =>
      match row_overall row with
      | Raise e => Raise e
      | Ok r =>
          match rows_to_players rows' with
          | Raise e => Raise e
          | Ok l => Ok (mkPlayer (row_name row) r (strip (row_position row))
                          :: l)
          end
      end
  end.

(** [_load_players(csv_path_or_buffer)]: the loaded list is shuffled
    before it is returned. *)
Definition _load_players (buffer : Buffer) : M (list Player) :=
  rows <- lift (read_csv buffer) ;;
  loaded <- lift (rows_to_players rows) ;;
  fun s => let (l, w) := random_shuffle (world s) loaded in
           (Ok l, mkState (players s) w (solver_calls s)).

(** [TeamBalancer(csv_path_or_buffer)]: [self.players] is set; the
    position counts are only printed. *)
Definition TeamBalancer_init (buffer : Buffer) : M unit :=
  l <- _load_players buffer ;;
  fun s => (Ok tt, mkState l (world s) (solver_calls s)).

(** *** The statistics of [api.py] (lines 88-119 and 148-179, the same
    code in both handlers) *)

Definition respond (teams : Teams) : M BalanceResponse :=
  if negb (truthy teams)
  then raise (HTTPException 400
                (Text "Could not balance teams with given constraints"))
  else lift (statistics teams).

Definition internal_error {A} (e : exn) : M A :=
  raise (HTTPException 500 (StrOf e)).

(** The part the two handlers share up to the call of [balance_teams]:
    the buffer is obtained, the balancer initialised, the teams balanced. *)
Definition balanced (source : result Buffer)
           (num_teams time_limit num_attempts : Z) : M Teams :=
  csv_buffer <- lift source ;;
  TeamBalancer_init csv_buffer ;;;
  balance_teams num_teams time_limit num_attempts.

(** [POST /balance/json] *)
Definition balance_teams_json (request_players : list PlayerInput)
           (num_teams time_limit num_attempts : Z) : M BalanceResponse :=
  try_except
    (csv_buffer <- lift (frame_to_csv request_players) ;;
     TeamBalancer_init csv_buffer ;;;
     teams <- balance_teams num_teams time_limit num_attempts ;;
     respond teams)
    internal_error.

(** [POST /balance/csv] *)
Definition balance_teams_csv (file : UploadFile)
           (num_teams time_limit num_attempts : Z) : M BalanceResponse :=
  try_except
    (csv_buffer <- lift (upload_to_buffer file) ;;
     TeamBalancer_init csv_buffer ;;;
     teams <- balance_teams num_teams time_limit num_attempts ;;
     respond teams)
    internal_error.

End TeamBalancer.

Notation "x <- m ;; k" := (bind m (fun x => k)).
Notation "m ;;; k" := (bind m (fun _ => k)).

(** ** Contracts of the external calls *)

(** [random.shuffle] permutes its list. *)
Definition ShuffleContract (E : Externals) : Prop :=
  forall w l, Permutation (fst (random_shuffle w l)) l.

(** No value was left on any variable (no solution was loaded). *)
Definition no_values (sol : LpVar -> option Q) : Prop :=
  forall v, sol v = None.

(** The solver adapter: with a usable status, the values left on the
    problem are a feasible assignment, or no solution was found within the
    time limit and no variable has a value. *)
Definition SolverContract (E : Externals) : Prop :=
  forall w prob t sol w',
    cbc_solve w prob t = (Ok sol, w') ->
    usable (status sol) = true ->
    feasibleb prob (value sol) = true \/ no_values (value sol).


(** ** A concrete world, used to run the model *)

Module Demo.

(** The solver tries one assignment: player [i] goes to team [i mod 2];
    [max_diff] takes the least value the deviation constraints allow. *)
Definition parity (v : LpVar) : option Q :=
  match v with
  | player_var i j => Some (if Nat.eqb (i mod 2) j then 1%Q else 0%Q)
  | max_diff_var => None
  end.

Definition deviation_bound (c : LpConstraint) (m : Q) : Q :=
  match terms (lhs c) with
  | [(_, max_diff_var)] =>
      match eval_expr parity (rhs c) with
      | Some b => if Qlt_le_dec m b then b else m
      | None => m
      end
  | _ => m
  end.

Definition candidate (prob : LpProblem) (v : LpVar) : option Q :=
  match v with
  | max_diff_var => Some (fold_right deviation_bound 0%Q (constraints prob))
  | _ => parity v
  end.

Definition unset : LpVar -> option Q := fun _ => None.

(** Below [min_time] seconds the solver stops without a solution. *)
Definition solver (min_time : Z) (w : nat) (prob : LpProblem) (t : Z)
  : result LpSolution * nat :=
  if (t <? min_time)%Z then (Ok (mkSolution LpStatusNotSolved unset), S w)
  else if feasibleb prob (candidate prob)
       then (Ok (mkSolution LpStatusOptimal (candidate prob)), S w)
       else (Ok (mkSolution LpStatusInfeasible unset), S w).

Definition row_of_input (p : PlayerInput) : RawRow :=
  mkRow (in_name p) (Ok (in_overall p)) (in_position p).

(** [random.shuffle] reverses, [random.uniform(a, b)] draws [a], the
    solver needs 6 seconds. *)
Definition externals : Externals := {|
  World := nat;
  random_shuffle := fun w l => (rev l, S w);
  random_uniform := fun w a b => (a, S w);
  cbc_solve := solver 6;
  Buffer := list RawRow;
  read_csv := fun b => Ok b;
  frame_to_csv := fun l => Ok (map row_of_input l);
  UploadFile := list RawRow;
  upload_to_buffer := fun f => Ok f
|}.

Definition P (n : string) (r : Q) (pos : string) : Player :=
  mkPlayer n r pos.

Local Open Scope string_scope.

Definition roster : list Player :=
  [ P "d1" 4 "DEF"; P "d2" (7 # 2) "DEF"; P "m1" 3 "MID"; P "m2" (5 # 2) "MID";
    P "a1" 2 "ATT"; P "a2" 4 "ATT"; P "d3" 3 "DEF"; P "d4" (5 # 2) "DEF";
    P "m3" 4 "MID"; P "m4" 2 "MID"; P "a3" (7 # 2) "ATT"; P "a4" 3 "ATT" ].

(** The same roster with two goalkeepers. *)
Definition roster_gk : list Player :=
  List.app roster [ P "g1" 3 "GK"; P "g2" 3 "GK" ].

Definition start (ps : list Player) : @State externals :=
  @mkState externals ps O O.

(** The value of a run that returned, [d] otherwise. *)
Definition got {A} (d : A) (r : result A) : A :=
  match r with Ok a => a | Raise _ => d end.

Definition nothing : Teams * Diff := ([], Infinity).

(** The request body of [roster_gk], and the handlers' run on it up to
    the call of [balance_teams]. *)
Definition request_gk : list PlayerInput :=
  map (fun p => mkPlayerInput (name p) (overall p) (position p)) roster_gk.

Definition balanced_gk : result Teams * @State externals :=
  balanced (frame_to_csv request_gk) 2 30 5 (start []).



(** One iteration of the loop on the 12 players, two teams. *)
Definition first_attempt : result (Teams * Diff) * @State externals :=
  attempt 2 30 5 nothing (start roster).

End Demo.

(** ** A world whose solver runs out of time

    With a time limit of 0 seconds the solver stops at once: the status
    is 'Not Solved' and the variables keep the values of a relaxation, in
    which the players at indices 2 and 3 are half in each team and the
    others go by parity.  With more time it is the solver of [Demo]. *)

Module Relaxed.

Definition fractional (v : LpVar) : option Q :=
  match v with
  | player_var i j =>
      if Nat.eqb i 2 || Nat.eqb i 3 then Some (1 # 2)%Q else Demo.parity v
  | max_diff_var => Some 0%Q
  end.

Definition solver (w : nat) (prob : LpProblem) (t : Z)
  : result LpSolution * nat :=
  if (t <=? 0)%Z then (Ok (mkSolution LpStatusNotSolved fractional), S w)
  else Demo.solver 6 w prob t.

Definition externals : Externals := {|
  World := nat;
  random_shuffle := fun w l => (rev l, S w);
  random_uniform := fun w a b => (a, S w);
  cbc_solve := solver;
  Buffer := list RawRow;
  read_csv := fun b => Ok b;
  frame_to_csv := fun l => Ok (map Demo.row_of_input l);
  UploadFile := list RawRow;
  upload_to_buffer := fun f => Ok f
|}.

Definition start (ps : list Player) : @State externals :=
  @mkState externals ps O O.


End Relaxed.

(** ** Ratings as binary64 floats

    Where a statement depends on the values the ratings take, the
    arithmetic of the source is modelled again on IEEE 754 binary64
    values ([spec_float] with 53 bits of precision, round to nearest
    even): the averages and the difference of lines 114-118 of
    [team_balancer.py] and the statistics of lines 88-119 of [api.py].
    [sum] adds from left to right, one rounding per addition. *)

Module Binary64.

Import SpecFloat.

Definition float := spec_float.

Definition prec : Z := 53.
Definition emax : Z := 1024.

Definition add : float -> float -> float := SFadd prec emax.
Definition sub : float -> float -> float := SFsub prec emax.
Definition div : float -> float -> float := SFdiv prec emax.

(** [x < y]; false when either is NaN *)
Definition lt : float -> float -> bool := SFltb.

(** [float(n)] for a Python integer, as in [x / len(players)] *)
Definition of_int (n : Z) : float := binary_normalize prec emax n 0 false.

Definition zero : float := S754_zero false.
Definition inf : float := S754_infinity false.


(** [a / b] for a float [a] and an integer [b] *)
Definition truediv (a : float) (b : Z) : option float :=
  if (b =? 0)%Z then None else Some (div a (of_int b)).

Record Player := mkPlayer {
  name : string;
  overall : float;
  position : string
}.

Definition Teams := list (nat * list Player).

(** [sum(p.overall for p in players)]: the start value is the integer 0 *)
Definition sum_overall (ps : list Player) : float :=
  fold_left (fun acc p => add acc (overall p)) ps zero.

(** [sum(p.overall for p in players) / len(players)] *)
Definition team_average (players : list Player) : option float :=
  truediv (sum_overall players) (len players).

Fixpoint team_averages (vs : list (list Player)) : option (list float) :=
  match vs with
  | [] => Some []
  | v :: vs' =>
      match team_average v with
      | None => None
      | Some a =>
          match team_averages vs' with
          | None => None
          | Some l => Some (a :: l)
          end
      end
  end.

(** [max] and [min] keep the first of the items that compare equal. *)
Definition py_max (x : float) (xs : list float) : float :=
  fold_left (fun m y => if lt m y then y else m) xs x.
Definition py_min (x : float) (xs : list float) : float :=
  fold_left (fun m y => if lt y m then y else m) xs x.

(** [max(team_ratings) - min(team_ratings)] *)
Definition spread (ratings : list float) : result float :=
  match ratings with
  | [] => Raise ValueError
  | x :: xs => Ok (sub (py_max x xs) (py_min x xs))
  end.

(** Lines 106 and 114-118 of [team_balancer.py]. *)
Definition max_rating_diff_of (teams : Teams) : result float :=
  match teams with
  | [] => Ok inf
  | _ :: _ =>
      match team_averages (map snd teams) with
      | None => Raise ZeroDivisionError
      | Some team_ratings => spread team_ratings
      end
  end.

(** The statistics of [api.py], lines 88-119. *)
Record PlayerOutput := mkPlayerOutput {
  out_name : string;
  out_overall : float;
  out_position : string
}.

Record TeamOutput := mkTeamOutput {
  team_number : Z;
  team_players : list PlayerOutput;
  average_rating : float;
  position_distribution : list (string * Z);
  total_rating : float
}.

Record BalanceResponse := mkBalanceResponse {
  teams_out : list TeamOutput;
  overall_mean : float;
  max_rating_difference : float
}.

Fixpoint insert_item (x : nat * list Player) (l : Teams) : Teams :=
  match l with
  | [] => [x]
  | y :: l' => if Nat.leb (fst x) (fst y) then x :: l
               else y :: insert_item x l'
  end.

Definition sorted_items (teams : Teams) : Teams :=
  fold_right insert_item [] teams.

Fixpoint count_positions (d : list (string * Z)) (players : list Player)
  : result (list (string * Z)) :=
  match players with
  | [] => Ok d
  | p :: players' =>
      match dict_incr d (position p) with
      | Ok d' => count_positions d' players'
      | Raise e => Raise e
      end
  end.

Definition player_output (p : Player) : PlayerOutput :=
  mkPlayerOutput (name p) (overall p) (position p).

Definition team_output (item : nat * list Player) : result TeamOutput :=
  let team_rating := sum_overall (snd item) in
  match truediv team_rating (len (snd item)) with
  | None => Raise ZeroDivisionError
  | Some avg_rating =>
      match count_positions pos_dist_init (snd item) with
      | Raise e => Raise e
      | Ok pos_dist =>
          Ok (mkTeamOutput (Z.of_nat (fst item) + 1)
                (map player_output (snd item))
                avg_rating pos_dist team_rating)
      end
  end.

Fixpoint team_outputs (items : Teams) : result (list TeamOutput) :=
  match items with
  | [] => Ok []
  | item :: items' =>
      match team_output item with
      | Raise e => Raise e
      | Ok t =>
          match team_outputs items' with
          | Raise e => Raise e
          | Ok ts => Ok (t :: ts)
          end
      end
  end.

Definition statistics (teams : Teams) : result BalanceResponse :=
  let items := sorted_items teams in
  match team_outputs items with
  | Raise e => Raise e
  | Ok outs =>
      let all_players := List.concat (map snd items) in
      match truediv (sum_overall all_players) (len all_players) with
      | None => Raise ZeroDivisionError
      | Some mean =>
          match spread (map average_rating outs) with
          | Raise e => Raise e
          | Ok max_diff_ => Ok (mkBalanceResponse outs mean max_diff_)
          end
      end
  end.


End Binary64.

(** ** The statistics on Python objects

    The statistics of [api.py] once more, this time on objects: the
    dictionary of teams, its lists and the [Player] instances live in a
    heap and are reached through references, as do the objects the code
    creates ([all_players], [team_outputs], one [pos_dist] per team).
    Every statement of lines 88-119 that changes an object is a [store];
    a run is stuck ([None]) when a reference leads outside the heap or
    to an object of another kind. *)

Declare Scope heap_scope.

Module Objects.

Definition ref := nat.

Inductive object :=
| PlayerObj (p : Player)
| ListObj (items : list ref)
| DictObj (items : list (nat * ref))
| CountsObj (d : list (string * Z))
| OutputsObj (outs : list TeamOutput).

Definition Heap := list object.

Definition H (A : Type) := Heap -> option (result A * Heap).

Definition ret {A} (a : A) : H A := fun h => Some (Ok a, h).
Definition raise {A} (e : exn) : H A := fun h => Some (Raise e, h).
Definition stuck {A} : H A := fun _ => None.
Definition bind {A B} (m : H A) (f : A -> H B) : H B :=
  fun h => match m h with
           | Some (Ok a, h') => f a h'
           | Some (Raise e, h') => Some (Raise e, h')
           | None => None
           end.

Local Notation "x <- m ;; k" := (bind m (fun x => k)) : heap_scope.
Local Notation "m ;;; k" := (bind m (fun _ => k)) : heap_scope.
Local Open Scope heap_scope.

Definition or_raise {A} (o : option A) (e : exn) : H A :=
  match o with Some a => ret a | None => raise e end.

Definition lift {A} (r : result A) : H A :=
  match r with Ok a => ret a | Raise e => raise e end.

(** A new object, at the end of the heap. *)
Definition alloc (o : object) : H ref :=
  fun h => Some (Ok (List.length h), h ++ [o]).

Definition load (r : ref) : H object :=
  fun h => match nth_error h r with
           | Some o => Some (Ok o, h)
           | None => None
           end.

Fixpoint update (h : Heap) (r : ref) (o : object) : option Heap :=
  match h, r with
  | [], _ => None
  | _ :: h', O => Some (o :: h')
  | x :: h', S r' =>
      match update h' r' o with
      | Some h'' => Some (x :: h'')
      | None => None
      end
  end.

(** The object at [r] is replaced. *)
Definition store (r : ref) (o : object) : H unit :=
  fun h => match update h r o with
           | Some h' => Some (Ok tt, h')
           | None => None
           end.

(** Reading an attribute of a [Player], the items of a list, [len]. *)
Definition get_player (r : ref) : H Player :=
  o <- load r ;;
  match o with PlayerObj p => ret p | _ => stuck end.

Definition get_list (r : ref) : H (list ref) :=
  o <- load r ;;
  match o with ListObj l => ret l | _ => stuck end.

Definition list_len (r : ref) : H Z :=
  l <- get_list r ;; ret (len l).

(** [teams.items()] *)
Definition dict_items (r : ref) : H (list (nat * ref)) :=
  o <- load r ;;
  match o with DictObj d => ret d | _ => stuck end.

(** [dst.extend(src)] *)
Definition extend (dst src : ref) : H unit :=
  l <- get_list src ;;
  d <- get_list dst ;;
  store dst (ListObj (d ++ l)).

(** [pos_dist[k] += 1] *)
Definition incr (r : ref) (k : string) : H unit :=
  o <- load r ;;
  match o with
  | CountsObj d =>
      d' <- lift (dict_incr d k) ;;
      store r (CountsObj d')
  | _ => stuck
  end.

Definition get_counts (r : ref) : H (list (string * Z)) :=
  o <- load r ;;
  match o with CountsObj d => ret d | _ => stuck end.

(** [team_outputs.append(t)] *)
Definition append_output (r : ref) (t : TeamOutput) : H unit :=
  o <- load r ;;
  match o with
  | OutputsObj outs => store r (OutputsObj (outs ++ [t]))
  | _ => stuck
  end.

Definition get_outputs (r : ref) : H (list TeamOutput) :=
  o <- load r ;;
  match o with OutputsObj outs => ret outs | _ => stuck end.

(** A [for] loop, and a comprehension or generator, over the items [l]. *)
Fixpoint for_each {A} (l : list A) (body : A -> H unit) : H unit :=
  match l with
  | [] => ret tt
  | x :: l' => body x ;;; for_each l' body
  end.

Fixpoint collect {A B} (l : list A) (f : A -> H B) : H (list B) :=
  match l with
  | [] => ret []
  | x :: l' => y <- f x ;; ys <- collect l' f ;; ret (y :: ys)
  end.

(** The players of the list at [r], read one after the other. *)
Definition get_players (r : ref) : H (list Player) :=
  l <- get_list r ;; collect l get_player.

(** [sorted(teams.items())] *)
Fixpoint insert_item (x : nat * ref) (l : list (nat * ref))
  : list (nat * ref) :=
  match l with
  | [] => [x]
  | y :: l' => if Nat.leb (fst x) (fst y) then x :: l
               else y :: insert_item x l'
  end.

Definition sorted_items (items : list (nat * ref)) : list (nat * ref) :=
  fold_right insert_item [] items.

(** The body of the loop of lines 92-109. *)
Definition team_output (all_players team_outputs : ref) (item : nat * ref)
  : H unit :=
  let team_num := fst item in
  let players := snd item in
  extend all_players players ;;;
  ps <- get_players players ;;
  let team_rating := sum_overall ps in
  n <- list_len players ;;
  avg_rating <- or_raise (py_truediv team_rating n) ZeroDivisionError ;;
  pos_dist <- alloc (CountsObj pos_dist_init) ;;
  l <- get_list players ;;
  for_each l (fun p => pl <- get_player p ;; incr pos_dist (position pl)) ;;;
  ps' <- get_players players ;;
  d <- get_counts pos_dist ;;
  append_output team_outputs
    (mkTeamOutput (Z.of_nat team_num + 1) (map player_output ps')
                  avg_rating d team_rating).

(** Lines 88-119 of [api.py]; [teams] is the dictionary returned by
    [balance_teams]. *)
Definition statistics (teams : ref) : H BalanceResponse :=
  all_players <- alloc (ListObj []) ;;
  team_outputs <- alloc (OutputsObj []) ;;
  items <- dict_items teams ;;
  for_each (sorted_items items) (team_output all_players team_outputs) ;;;
  ps <- get_players all_players ;;
  n <- list_len all_players ;;
  overall_mean_ <- or_raise (py_truediv (sum_overall ps) n)
                            ZeroDivisionError ;;
  outs <- get_outputs team_outputs ;;
  max_diff_ <- lift (spread (map average_rating outs)) ;;
  ret (mkBalanceResponse outs overall_mean_ max_diff_).

(** What a heap holds at a reference, as a value. *)
Definition player_at (h : Heap) (r : ref) : option Player :=
  match nth_error h r with
  | Some (PlayerObj p) => Some p
  | _ => None
  end.

Fixpoint players_of (h : Heap) (l : list ref) : option (list Player) :=
  match l with
  | [] => Some []
  | r :: l' =>
      match player_at h r, players_of h l' with
      | Some p, Some ps => Some (p :: ps)
      | _, _ => None
      end
  end.

Definition list_at (h : Heap) (r : ref) : option (list ref) :=
  match nth_error h r with
  | Some (ListObj l) => Some l
  | _ => None
  end.

Definition players_at (h : Heap) (r : ref) : option (list Player) :=
  match list_at h r with
  | Some l => players_of h l
  | None => None
  end.

Fixpoint items_of (h : Heap) (d : list (nat * ref)) : option Teams :=
  match d with
  | [] => Some []
  | (k, r) :: d' =>
      match players_at h r, items_of h d' with
      | Some ps, Some t => Some ((k, ps) :: t)
      | _, _ => None
      end
  end.

(** The assignment held by the dictionary at [t]. *)
Definition teams_at (h : Heap) (t : ref) : option Teams :=
  match nth_error h t with
  | Some (DictObj d) => items_of h d
  | _ => None
  end.

(** Two teams of two on a heap: four players, two lists, the dictionary
    (with key 1 inserted first) at reference 6. *)
Definition demo_heap : Heap :=
  [ PlayerObj (mkPlayer "d1" 4 "DEF"); PlayerObj (mkPlayer "m1" 3 "MID");
    PlayerObj (mkPlayer "a1" 2 "ATT"); PlayerObj (mkPlayer "d2" 3 "DEF");
    ListObj [0; 1]; ListObj [2; 3]; DictObj [(1, 5); (0, 4)] ].

End Objects.

(** ** Vocabulary of the statements *)

(** [teams.get(k, [])] *)
Definition get0 (d : Teams) (k : nat) : list Player :=
  match dict_get d k with Some l => l | None => [] end.

(** A dictionary as the extraction builds it: distinct keys, and every key
    was created by an [append]. *)
Definition well_formed (d : Teams) : Prop :=
  NoDup (keys d) /\ forall k l, In (k, l) d -> l <> [].

(** The players whose variable for team [j] has value 1, in roster
    order. *)
Definition members (sol : LpVar -> option Q) (j : nat)
           (eps : list (nat * Player)) : list Player :=
  map snd (filter (fun ip => is_one sol (fst ip) j) eps).

(** How many of [l] play at [pos]. *)
Definition count_position (pos : string) (l : list Player) : Z :=
  len (filter (fun p => String.eqb (position p) pos) l).

(** The number of variables of [ijs] with value 1. *)
Definition ones (sol : LpVar -> option Q) (ijs : list (nat * nat)) : nat :=
  List.length (filter (fun ij => is_one sol (fst ij) (snd ij)) ijs).

Definition inb (k : nat) (l : list nat) : bool := existsb (Nat.eqb k) l.

(** The variable of a (player, team) pair, and its value being 0 or 1. *)
Definition pvar (ij : nat * nat) : LpVar := player_var (fst ij) (snd ij).

Definition binary (sol : LpVar -> option Q) (ij : nat * nat) : Prop :=
  exists q, sol (pvar ij) = Some q /\ (q == 0 \/ q == 1)%Q.

(** What the values of a solution say about the roster [ps]: every
    player is in exactly one team, every team has [len ps // num_teams]
    members, and every team meets the position requirements. *)
Definition assignment_ok (sol : LpVar -> option Q) (num_teams : Z)
           (ps : list Player) : Prop :=
  (forall i, i < List.length ps ->
             ones sol (map (pair i) (range num_teams)) = 1)
  /\ (forall j, In j (range num_teams) ->
                len (members sol j (enumerate ps)) = (len ps / num_teams)%Z)
  /\ (forall j pos min_count,
         In j (range num_teams) ->
         In (pos, min_count) position_requirements ->
         (min_count <= count_position pos (members sol j (enumerate ps)))%Z).

(** A partition of the roster [ps] into [num_teams] teams of equal size. *)
Definition partitions (num_teams : Z) (ps : list Player) (teams : Teams)
  : Prop :=
  Permutation (keys teams) (range num_teams)
  /\ len teams = num_teams
  /\ (forall k l, In (k, l) teams -> len l = (len ps / num_teams)%Z)
  /\ Permutation (List.concat (values teams)) ps.

(** An action changes the roster held by the balancer only along [R]. *)
Definition roster_rel {E : Externals} (R : list Player -> list Player -> Prop)
           {A} (m : M A) : Prop :=
  forall s, R (players s) (players (snd (m s))).

(** The order of [sorted(teams.items())]. *)
Definition key_le (x y : nat * list Player) : Prop := fst x <= fst y.

(** The keys of the position-distribution dictionary of the API. *)
Definition standard_position (pos : string) : Prop :=
  In pos (map fst pos_dist_init).

(** Every team meets every minimum of [position_requirements]. *)
Definition meets_quotas (teams : Teams) : Prop :=
  forall k l pos min_count,
    In (k, l) teams ->
    In (pos, min_count) position_requirements ->
    (min_count <= count_position pos l)%Z.

(** The heap during the loop over the teams of the statistics.

    The objects that were there, then [all_players], [team_outputs] and
    the [pos_dist] dictionaries made so far. *)

Definition during (h : Objects.Heap) (acc : list Objects.ref) (outs : list TeamOutput)
           (cs : Objects.Heap) : Objects.Heap :=
  h ++ Objects.ListObj acc :: Objects.OutputsObj outs :: cs.

(** ** Vocabulary of the further properties *)

(** An action calls the solver at most [n] times, and exactly [n] times
    when it returns. *)
Definition calls {E : Externals} {A} (n : nat) (m : M A) : Prop :=
  forall s,
    match m s with
    | (Ok _, s') => solver_calls s' = solver_calls s + n
    | (Raise _, s') => solver_calls s' <= solver_calls s + n
    end.

(** The results of [n] iterations of the loop of [balance_teams], in the
    order of the attempts: the loop of [attempts] without the selection. *)
Fixpoint attempt_results {E : Externals} (n : nat)
         (num_teams time_limit num_attempts : Z)
  : M (list (Teams * Diff)) :=
  match n with
  | O => ret []
  | S n' =>
      shuffle_players ;;;
      per_attempt <- or_raise (py_floordiv time_limit num_attempts)
                              ZeroDivisionError ;;
      r <- _try_balance_teams num_teams per_attempt (1 # 10)%Q ;;
      rs <- attempt_results n' num_teams time_limit num_attempts ;;
      ret (r :: rs)
  end.

(** A string of white space only. *)
Fixpoint all_space (s : string) : bool :=
  match s with
  | EmptyString => true
  | String c s' => is_space c && all_space s'
  end.

(** [row'] is [row] with white space added around its position. *)
Definition padded (row row' : RawRow) : Prop :=
  row_name row' = row_name row
  /\ row_overall row' = row_overall row
  /\ exists w1 w2,
       all_space w1 = true /\ all_space w2 = true
       /\ row_position row'
          = String.append w1 (String.append (row_position row) w2).

(** The player a row is loaded as. *)
Definition loaded_as (row : RawRow) (p : Player) : Prop :=
  name p = row_name row
  /\ row_overall row = Ok (overall p)
  /\ position p = strip (row_position row).

(** Loading from [source] fails with [e]: the buffer could not be made,
    the file could not be read, or [e] is the error of the first row whose
    rating is not a number. *)
Definition load_error {E : Externals} (source : result Buffer) (e : exn)
  : Prop :=
  source = Raise e
  \/ exists buffer,
      source = Ok buffer
      /\ (read_csv buffer = Raise e
          \/ exists rows1 row rows2,
              read_csv buffer = Ok (rows1 ++ row :: rows2)
              /\ Forall (fun r => exists q, row_overall r = Ok q) rows1
              /\ row_overall row = Raise e).

(** The detail of the error 400 of the handlers. *)
Definition no_balance : exn :=
  HTTPException 400 (Text "Could not balance teams with given constraints").

(** The entry of the response that describes one team. *)
Definition describes (item : nat * list Player) (out : TeamOutput) : Prop :=
  team_number out = (Z.of_nat (fst item) + 1)%Z
  /\ team_players out = map player_output (snd item)
  /\ total_rating out = sum_overall (snd item)
  /\ py_truediv (total_rating out) (len (snd item))
     = Some (average_rating out)
  /\ position_distribution out
     = [("DEF"%string, count_position "DEF" (snd item));
        ("MID"%string, count_position "MID" (snd item));
        ("ATT"%string, count_position "ATT" (snd item))]
  /\ (count_position "DEF" (snd item) + count_position "MID" (snd item)
      + count_position "ATT" (snd item) = len (snd item))%Z.

(** The order of a listing of [print_teams]: by decreasing rating. *)
Definition rating_ge (a b : Player) : Prop := (overall b <= overall a)%Q.

(** The entry of the report of [print_teams] for one team: for each of
    DEF, MID and ATT the team's players at that position by decreasing
    rating, and how many they are. *)
Definition reports (item : nat * list Player) (r : TeamReport) : Prop :=
  report_number r = (Z.of_nat (fst item) + 1)%Z
  /\ py_truediv (report_total r) (len (snd item)) = Some (report_average r)
  /\ report_total r = sum_overall (snd item)
  /\ map fst (report_listing r) = listed_positions
  /\ (forall pos lines,
         In (pos, lines) (report_listing r) ->
         exists l,
           lines = map (fun p => (name p, overall p)) l
           /\ Permutation
                l (filter (fun p => String.eqb (position p) pos) (snd item))
           /\ StronglySorted rating_ge l)
  /\ report_distribution r
     = map (fun pos => (pos, count_position pos (snd item))) listed_positions.

(** The values that put player [i] in team [j] exactly when [x i j], and
    give [max_diff] the value [m]. *)
Definition sol_of (x : nat -> nat -> bool) (m : Q) (v : LpVar) : option Q :=
  match v with
  | player_var i j => Some (if x i j then 1%Q else 0%Q)
  | max_diff_var => Some m
  end.

(** A deviation constraint: [max_diff >= e] with [e] over the player
    variables only. *)
Definition deviation_shaped (c : LpConstraint) : Prop :=
  lhs c = lpVar max_diff_var
  /\ sense c = LpConstraintGE
  /\ Forall (fun t => exists i j, snd t = player_var i j) (terms (rhs c)).

(** * Properties *)

(** ** The order on differences *)

Lemma Dltb_spec (a b : Diff) : Dltb a b = true <-> Dlt a b.
Proof.
  destruct a as [x|], b as [y|]; simpl;
    try (split; [discriminate | tauto]); try tauto.
  destruct (Qlt_le_dec x y) as [H|H]; split; auto; try discriminate.
  intros H'. exfalso. apply (Qlt_not_le _ _ H'); exact H.
Qed.

Lemma Dle_refl (a : Diff) : Dle a a.
Proof. destruct a; simpl; auto. apply Qle_refl. Qed.

Lemma Dle_trans (a b c : Diff) : Dle a b -> Dle b c -> Dle a c.
Proof.
  destruct a, b, c; simpl; auto; try tauto. apply Qle_trans.
Qed.

Lemma Dlt_Dle (a b : Diff) : Dlt a b -> Dle a b.
Proof. destruct a, b; simpl; auto. apply Qlt_le_weak. Qed.

Lemma Dlt_Deq_absurd (a b : Diff) : Deq a b -> ~ Dlt a b.
Proof.
  destruct a as [x|], b as [y|]; simpl; auto.
  intros H H'. rewrite H in H'. exact (Qlt_irrefl _ H').
Qed.

Lemma truthy_spec (d : Teams) : truthy d = true <-> d <> [].
Proof. destruct d; simpl; split; congruence. Qed.

(** ** The selection step *)

Lemma replaces_spec (best r : Teams * Diff) :
  replaces best r = true <-> fst r <> [] /\ Dlt (snd r) (snd best).
Proof.
  unfold replaces. rewrite andb_true_iff, truthy_spec, Dltb_spec. tauto.
Qed.

Lemma keep_best_cases (best r : Teams * Diff) :
  (replaces best r = true /\ keep_best best r = r)
  \/ (replaces best r = false /\ keep_best best r = best).
Proof. unfold keep_best. destruct (replaces best r); auto. Qed.

Lemma keep_best_Dle (best r : Teams * Diff) :
  Dle (snd (keep_best best r)) (snd best).
Proof.
  destruct (keep_best_cases best r) as [[H ->]|[_ ->]].
  - apply Dlt_Dle. apply replaces_spec in H. tauto.
  - apply Dle_refl.
Qed.

Lemma keep_best_empty (best : Teams * Diff) (d : Diff) :
  keep_best best ([], d) = best.
Proof. reflexivity. Qed.

(** ** Stepping through the monad *)

Section Monad.

Context {E : Externals}.

Lemma bind_ok {A B} (m : M A) (f : A -> M B) s b s' :
  bind m f s = (Ok b, s') <->
  exists a s1, m s = (Ok a, s1) /\ f a s1 = (Ok b, s').
Proof.
  unfold bind. destruct (m s) as [[a|e] s1]; split.
  - intros H. exists a, s1. auto.
  - intros (a' & s1' & H1 & H2). inversion H1; subst. exact H2.
  - discriminate.
  - intros (a' & s1' & H1 & _). discriminate.
Qed.

Lemma bind_eq {A B} (m : M A) (f : A -> M B) s a s1 :
  m s = (Ok a, s1) -> bind m f s = f a s1.
Proof. unfold bind. intros ->. reflexivity. Qed.

Lemma bind_raise {A B} (m : M A) (f : A -> M B) s e s1 :
  m s = (Raise e, s1) -> bind m f s = (Raise e, s1).
Proof. unfold bind. intros ->. reflexivity. Qed.

Lemma bind_assoc {A B C} (m : M A) (f : A -> M B) (g : B -> M C) s :
  bind (bind m f) g s = bind m (fun a => bind (f a) g) s.
Proof. unfold bind. destruct (m s) as [[a|e] s1]; reflexivity. Qed.

Lemma bind_ext {A B} (m : M A) (f g : A -> M B) s :
  (forall a s1, f a s1 = g a s1) -> bind m f s = bind m g s.
Proof. intros H. unfold bind. destruct (m s) as [[a|e] s1]; auto. Qed.

(** How an action changes the roster held by the balancer, up to a
    preorder [R] on rosters. *)
Section Roster.

Variable R : list Player -> list Player -> Prop.
Hypothesis R_refl : forall l, R l l.
Hypothesis R_trans : forall l1 l2 l3, R l1 l2 -> R l2 l3 -> R l1 l3.

Lemma roster_ret {A} (a : A) : roster_rel R (ret a).
Proof. intros s. apply R_refl. Qed.

Lemma roster_raise {A} (e : exn) : roster_rel R (@raise E A e).
Proof. intros s. apply R_refl. Qed.

Lemma roster_bind {A B} (m : M A) (f : A -> M B) :
  roster_rel R m -> (forall a, roster_rel R (f a)) -> roster_rel R (bind m f).
Proof.
  intros Hm Hf s. unfold bind. specialize (Hm s).
  destruct (m s) as [[a|e] s1]; simpl in *; auto.
  eapply R_trans; [exact Hm | apply Hf].
Qed.

Lemma roster_or_raise {A} (o : option A) e : roster_rel R (or_raise o e).
Proof. destruct o; [apply roster_ret | apply roster_raise]. Qed.

Lemma roster_lift {A} (r : result A) : roster_rel R (lift r).
Proof. destruct r; [apply roster_ret | apply roster_raise]. Qed.

Lemma roster_get_players : roster_rel R get_players.
Proof. intros s. apply R_refl. Qed.

Lemma roster_uniform a b : roster_rel R (uniform a b).
Proof.
  intros s. unfold uniform.
  destruct (random_uniform (world s) a b). apply R_refl.
Qed.

Lemma roster_solve prob t : roster_rel R (solve prob t).
Proof.
  intros s. unfold solve.
  destruct (cbc_solve (world s) prob t). apply R_refl.
Qed.

Lemma roster_rating_loop ps target threshold js :
  roster_rel R (rating_loop ps target threshold js).
Proof.
  induction js as [|j js IH]; simpl.
  - apply roster_ret.
  - repeat (apply roster_bind; [try apply roster_uniform; auto | intros]).
    apply roster_ret.
Qed.

Lemma roster_build_and_solve ps num_teams t threshold :
  roster_rel R (build_and_solve ps num_teams t threshold).
Proof.
  unfold build_and_solve, build_problem.
  apply roster_bind; [|intros; apply roster_solve].
  apply roster_bind; [apply roster_or_raise | intros].
  apply roster_bind; [apply roster_rating_loop | intros; apply roster_ret].
Qed.

Lemma roster_try_balance num_teams t threshold :
  roster_rel R (_try_balance_teams num_teams t threshold).
Proof.
  unfold _try_balance_teams.
  apply roster_bind; [apply roster_get_players | intros ps].
  apply roster_bind; [apply roster_build_and_solve | intros sol].
  destruct (usable (status sol)); [|apply roster_ret].
  apply roster_bind; [apply roster_lift | intros; apply roster_ret].
Qed.

(** The shuffle is the only step that touches the roster. *)
Hypothesis R_shuffle : forall w l, R l (fst (random_shuffle w l)).

Lemma roster_shuffle_players : roster_rel R shuffle_players.
Proof.
  intros s. unfold shuffle_players.
  specialize (R_shuffle (world s) (players s)).
  destruct (random_shuffle (world s) (players s)). exact R_shuffle.
Qed.

Lemma roster_attempt num_teams t k best :
  roster_rel R (attempt num_teams t k best).
Proof.
  unfold attempt.
  apply roster_bind; [apply roster_shuffle_players | intros _].
  apply roster_bind; [apply roster_or_raise | intros].
  apply roster_bind; [apply roster_try_balance | intros; apply roster_ret].
Qed.

Lemma roster_attempts n num_teams t k best :
  roster_rel R (attempts n num_teams t k best).
Proof.
  revert best. induction n as [|n IH]; intros best; simpl.
  - apply roster_ret.
  - apply roster_bind; [apply roster_attempt | intros; apply IH].
Qed.

Lemma roster_balance_teams num_teams t k :
  roster_rel R (balance_teams num_teams t k).
Proof.
  unfold balance_teams, balance_teams_best.
  apply roster_bind; [|intros; apply roster_ret].
  apply roster_bind; [apply roster_get_players | intros ps].
  apply roster_bind; [apply roster_or_raise | intros r].
  destruct (negb (r =? 0)%Z); [apply roster_ret | apply roster_attempts].
Qed.

End Roster.

Lemma try_balance_players num_teams t threshold s :
  players (snd (_try_balance_teams num_teams t threshold s)) = players s.
Proof.
  symmetry.
  apply (roster_try_balance eq (@eq_refl _) (@eq_trans _)).
Qed.

End Monad.

(** ** The loop of [balance_teams] *)

Section Loop.

Context {E : Externals}.

Lemma attempt_ok num_teams t k best s best' s' :
  attempt num_teams t k best s = (Ok best', s') <->
  exists s1 per r,
    shuffle_players s = (Ok tt, s1)
    /\ py_floordiv t k = Some per
    /\ _try_balance_teams num_teams per (1 # 10)%Q s1 = (Ok r, s')
    /\ best' = keep_best best r.
Proof.
  unfold attempt. rewrite bind_ok. split.
  - intros ([] & s1 & H1 & H2). apply bind_ok in H2.
    destruct H2 as (per & s2 & H2 & H3).
    destruct (py_floordiv t k) as [per'|]; [|discriminate].
    inversion H2; subst. apply bind_ok in H3.
    destruct H3 as (r & s3 & H3 & H4). inversion H4; subst.
    exists s2, per, r. auto.
  - intros (s1 & per & r & H1 & H2 & H3 & ->).
    exists tt, s1. split; [exact H1|]. rewrite H2. simpl.
    rewrite (bind_eq _ _ _ _ _ (eq_refl : ret per s1 = (Ok per, s1))).
    rewrite (bind_eq _ _ _ _ _ H3). reflexivity.
Qed.

Lemma attempts_app n m num_teams t k best s :
  attempts (n + m) num_teams t k best s =
  bind (attempts n num_teams t k best)
       (fun b => attempts m num_teams t k b) s.
Proof.
  revert best s. induction n as [|n IH]; intros best s; simpl.
  - reflexivity.
  - rewrite bind_assoc. apply bind_ext. intros b s1. apply IH.
Qed.

Lemma attempts_Dle n num_teams t k best s best' s' :
  attempts n num_teams t k best s = (Ok best', s') ->
  Dle (snd best') (snd best).
Proof.
  revert best s. induction n as [|n IH]; intros best s; simpl.
  - intros H. inversion H; subst. apply Dle_refl.
  - intros H. apply bind_ok in H. destruct H as (b & s1 & H1 & H2).
    apply IH in H2. apply attempt_ok in H1.
    destruct H1 as (_ & _ & r & _ & _ & _ & ->).
    eapply Dle_trans; [exact H2 | apply keep_best_Dle].
Qed.

(** The loop reads [time_limit] and [num_attempts] only through the
    per-attempt time limit. *)
Lemma attempts_per_attempt n num_teams t k t' k' best s :
  py_floordiv t k = py_floordiv t' k' ->
  attempts n num_teams t k best s = attempts n num_teams t' k' best s.
Proof.
  intros Hq. revert best s. induction n as [|n IH]; intros best s; simpl.
  - reflexivity.
  - unfold bind, attempt. rewrite Hq. unfold bind.
    destruct (shuffle_players s) as [[[]|e] s1]; [|reflexivity].
    destruct (or_raise (py_floordiv t' k') ZeroDivisionError s1)
      as [[per|e] s2]; [|reflexivity].
    destruct (_try_balance_teams num_teams per (1 # 10)%Q s2)
      as [[r|e] s3]; [|reflexivity].
    simpl. apply IH.
Qed.

End Loop.

(** ** Attempts from which nothing is extracted *)

Lemma enumerate_from_index {A} (start : nat) (l : list A) i x :
  In (i, x) (enumerate_from start l) -> start <= i < start + List.length l.
Proof.
  unfold enumerate_from. intros H. apply in_combine_l in H.
  apply in_seq in H. exact H.
Qed.

Lemma extract_row_skip sol num_teams teams ip :
  (forall j, In j (range num_teams) -> is_one sol (fst ip) j = false) ->
  extract_row sol num_teams teams ip = teams.
Proof.
  unfold extract_row. generalize (range num_teams) as js.
  induction js as [|j js IH]; intros H; simpl.
  - reflexivity.
  - rewrite (H j (or_introl eq_refl)). apply IH.
    intros j' Hj'. apply H. right. exact Hj'.
Qed.

Lemma extract_teams_none sol num_teams ps :
  (forall i j, i < List.length ps -> In j (range num_teams) ->
               is_one sol i j = false) ->
  extract_teams sol num_teams ps = [].
Proof.
  intros H. unfold extract_teams, enumerate.
  assert (Hin : forall ip, In ip (enumerate_from 0 ps) ->
                           fst ip < List.length ps).
  { intros [i p] Hip. apply enumerate_from_index in Hip. simpl. lia. }
  revert Hin. generalize (enumerate_from 0 ps) as eps.
  induction eps as [|ip eps IH]; intros Hin; simpl.
  - reflexivity.
  - rewrite extract_row_skip.
    + apply IH. intros ip' Hip'. apply Hin. right. exact Hip'.
    + intros j Hj. apply H; [apply Hin; left; reflexivity | exact Hj].
Qed.

Lemma no_values_is_one sol i j : no_values sol -> is_one sol i j = false.
Proof. intros H. unfold is_one. rewrite H. reflexivity. Qed.

Lemma try_balance_ok {E : Externals} num_teams t threshold s r s' :
  _try_balance_teams num_teams t threshold s = (Ok r, s') <->
  exists sol,
    build_and_solve (players s) num_teams t threshold s = (Ok sol, s')
    /\ ((usable (status sol) = false /\ r = ([], Infinity))
        \/ (usable (status sol) = true
            /\ max_rating_diff_of
                 (extract_teams (value sol) num_teams (players s))
               = Ok (snd r)
            /\ fst r = extract_teams (value sol) num_teams (players s))).
Proof.
  unfold _try_balance_teams. rewrite bind_ok. split.
  - intros (ps & s1 & H1 & H2). inversion H1; subst. clear H1.
    apply bind_ok in H2. destruct H2 as (sol & s2 & H2 & H3).
    exists sol. destruct (usable (status sol)).
    + apply bind_ok in H3. destruct H3 as (d & s3 & H3 & H4).
      inversion H4; subst. clear H4.
      destruct (max_rating_diff_of _) as [d'|e]; simpl in H3;
        inversion H3; subst.
      split; [exact H2 | right; auto].
    + inversion H3; subst. split; [exact H2 | left; auto].
  - intros (sol & H1 & H2). exists (players s), s. split; [reflexivity|].
    rewrite (bind_eq _ _ _ _ _ H1).
    destruct H2 as [[-> ->]|(-> & H2 & H3)]; [reflexivity|].
    rewrite H2. simpl. unfold bind, ret. rewrite <- H3.
    destruct r; reflexivity.
Qed.

(** ** The concrete world honours the contracts *)

Lemma demo_shuffle_contract : ShuffleContract Demo.externals.
Proof.
  intros w l. simpl. apply Permutation_sym, Permutation_rev.
Qed.

Lemma demo_solver_contract : SolverContract Demo.externals.
Proof.
  intros w prob t sol w'. simpl. unfold Demo.solver.
  destruct (t <? 6)%Z.
  - intros H _. inversion H; subst. right. intros v. reflexivity.
  - destruct (feasibleb prob (Demo.candidate prob)) eqn:F; intros H Hu;
      inversion H; subst; simpl in *.
    + left. exact F.
    + discriminate.
Qed.



(** ** Divisibility *)

(** C3: when [N % T] is not zero, [balance_teams] returns the empty
    dictionary at once: the state (roster, world, number of solver calls)
    is the one it started from, so no attempt ran and the solver was not
    called. *)
Theorem balance_teams_not_divisible {E : Externals}
        (num_teams time_limit num_attempts r : Z) (s : State) :
  py_mod (len (players s)) num_teams = Some r ->
  r <> 0%Z ->
  balance_teams num_teams time_limit num_attempts s = (Ok [], s)
  /\ solver_calls (snd (balance_teams num_teams time_limit num_attempts s))
     = solver_calls s.
Proof.
  intros Hmod Hr.
  assert (H : balance_teams num_teams time_limit num_attempts s = (Ok [], s)).
  { unfold balance_teams, balance_teams_best, bind, get_players.
    rewrite Hmod. simpl.
    destruct (r =? 0)%Z eqn:Er; [apply Z.eqb_eq in Er; contradiction|].
    reflexivity. }
  rewrite H. auto.
Qed.

Lemma balance_teams_not_divisible_witness :
  balance_teams 3 30 5 (Demo.start (firstn 10 Demo.roster))
  = (Ok [], Demo.start (firstn 10 Demo.roster))
  /\ solver_calls
       (snd (balance_teams 3 30 5 (Demo.start (firstn 10 Demo.roster))))
     = solver_calls (Demo.start (firstn 10 Demo.roster)).
Proof.
  apply (@balance_teams_not_divisible Demo.externals 3 30 5 1).
  - reflexivity.
  - lia.
Defined.

(** ** Best-of-N selection *)

(** C4: in one iteration of the loop of [balance_teams], the new best is
    the attempt's result exactly when that result is a non-empty
    assignment whose difference is strictly below the best so far;
    otherwise the best is kept, in particular on a tie. *)
Theorem attempt_replaces_only_strictly_better {E : Externals}
        (num_teams time_limit num_attempts : Z)
        (best best' : Teams * Diff) (s s' : State) :
  attempt num_teams time_limit num_attempts best s = (Ok best', s') ->
  exists s1 per r,
    shuffle_players s = (Ok tt, s1)
    /\ py_floordiv time_limit num_attempts = Some per
    /\ _try_balance_teams num_teams per (1 # 10)%Q s1 = (Ok r, s')
    /\ best' = (if replaces best r then r else best)
    /\ (replaces best r = true <-> fst r <> [] /\ Dlt (snd r) (snd best))
    /\ (Deq (snd r) (snd best) -> best' = best).
Proof.
  intros H. apply attempt_ok in H.
  destruct H as (s1 & per & r & H1 & H2 & H3 & ->).
  exists s1, per, r.
  split; [exact H1|]. split; [exact H2|]. split; [exact H3|].
  split; [reflexivity|]. split; [apply replaces_spec|].
  intros Heq. unfold keep_best.
  destruct (replaces best r) eqn:Hr; [|reflexivity].
  apply replaces_spec in Hr. destruct Hr as [_ Hlt].
  exfalso. exact (Dlt_Deq_absurd _ _ Heq Hlt).
Qed.

Lemma attempt_replaces_only_strictly_better_witness :
  exists s1 per r,
    shuffle_players (Demo.start Demo.roster) = (Ok tt, s1)
    /\ py_floordiv 30 5 = Some per
    /\ _try_balance_teams 2 per (1 # 10)%Q s1
       = (Ok r, snd Demo.first_attempt)
    /\ Demo.got Demo.nothing (fst Demo.first_attempt)
       = (if replaces Demo.nothing r then r else Demo.nothing)
    /\ (replaces Demo.nothing r = true
        <-> fst r <> [] /\ Dlt (snd r) (snd Demo.nothing))
    /\ (Deq (snd r) (snd Demo.nothing)
        -> Demo.got Demo.nothing (fst Demo.first_attempt) = Demo.nothing).
Proof.
  apply (@attempt_replaces_only_strictly_better Demo.externals 2 30 5).
  vm_compute. reflexivity.
Defined.

Lemma balance_teams_best_ok {E : Externals} num_teams t k s best s' :
  balance_teams_best num_teams t k s = (Ok best, s') <->
  exists r,
    py_mod (len (players s)) num_teams = Some r
    /\ ((r <> 0%Z /\ best = ([], Infinity) /\ s' = s)
        \/ (r = 0%Z
            /\ attempts (Z.to_nat k) num_teams t k ([], Infinity) s
               = (Ok best, s'))).
Proof.
  unfold balance_teams_best, bind, get_players.
  destruct (py_mod (len (players s)) num_teams) as [r|]; simpl.
  - destruct (Z.eqb_spec r 0) as [->|Hr]; simpl; split.
    + intros H. exists 0%Z. auto.
    + intros (r & Hr & [(H & _)|(_ & H)]); inversion Hr; subst;
        [contradiction | exact H].
    + intros H. inversion H; subst. exists r. auto.
    + intros (r' & Hr' & [(_ & -> & ->)|(-> & H)]); inversion Hr'; subst;
        [reflexivity | contradiction].
  - split; [discriminate|]. intros (r & Hr & _). discriminate.
Qed.

(** C5, as the code has it: the time limit of an attempt is
    [time_limit // num_attempts], so more attempts are only guaranteed not
    to worsen the best difference when they leave the attempts of the
    shorter run the time limit they had: with [K < K'], and [K <= 0] or
    [time_limit // K = time_limit // K'], a run of [K'] attempts that
    returns has a best difference at most that of the run of [K] attempts
    from the same state. *)
Theorem more_attempts_same_budget_not_worse {E : Externals}
        (num_teams time_limit k k' : Z) (s s' : State)
        (best' : Teams * Diff) :
  (k < k')%Z ->
  (k <= 0 \/ time_limit / k = time_limit / k')%Z ->
  balance_teams_best num_teams time_limit k' s = (Ok best', s') ->
  exists best s0,
    balance_teams_best num_teams time_limit k s = (Ok best, s0)
    /\ Dle (snd best') (snd best).
Proof.
  intros Hlt Hbudget Hrun.
  apply balance_teams_best_ok in Hrun.
  destruct Hrun as (r & Hmod & [(Hr & -> & ->)|(-> & Hrun)]).
  - exists ([], Infinity), s. split; [|exact I].
    apply balance_teams_best_ok. exists r. split; [exact Hmod|]. left. auto.
  - destruct (Z_le_gt_dec k 0) as [Hk|Hk].
    + exists ([], Infinity), s. split.
      * apply balance_teams_best_ok. exists 0%Z. split; [exact Hmod|].
        right. split; [reflexivity|].
        replace (Z.to_nat k) with 0 by lia. reflexivity.
      * destruct (snd best'); exact I.
    + destruct Hbudget as [Hk0|Hq]; [lia|].
      assert (Hper : py_floordiv time_limit k' = py_floordiv time_limit k).
      { unfold py_floordiv.
        destruct (Z.eqb_spec k 0); [lia|].
        destruct (Z.eqb_spec k' 0); [lia|]. rewrite Hq. reflexivity. }
      replace (Z.to_nat k') with (Z.to_nat k + (Z.to_nat k' - Z.to_nat k))
        in Hrun by lia.
      rewrite attempts_app in Hrun. apply bind_ok in Hrun.
      destruct Hrun as (best & s0 & H3 & H4).
      rewrite (attempts_per_attempt _ _ _ _ _ _ _ _ Hper) in H3.
      exists best, s0. split.
      * apply balance_teams_best_ok. exists 0%Z. split; [exact Hmod|].
        right. split; [reflexivity | exact H3].
      * eapply attempts_Dle. exact H4.
Qed.

Lemma more_attempts_same_budget_not_worse_witness :
  exists best s0,
    balance_teams_best 2 100 15 (Demo.start Demo.roster) = (Ok best, s0)
    /\ Dle (snd (Demo.got Demo.nothing
                   (fst (balance_teams_best 2 100 16
                           (Demo.start Demo.roster)))))
           (snd best).
Proof.
  apply (@more_attempts_same_budget_not_worse Demo.externals 2 100 15 16
           (Demo.start Demo.roster)
           (snd (balance_teams_best 2 100 16 (Demo.start Demo.roster)))).
  - lia.
  - right. reflexivity.
  - vm_compute. reflexivity.
Defined.

(** C5 as stated fails: with a total of 30 seconds, 5 attempts get 6
    seconds each and find two teams, 6 attempts get 5 seconds each and the
    solver stops every time without a solution. *)
Lemma more_attempts_can_be_worse :
  exists best best' s0 s0',
    balance_teams_best 2 30 5 (Demo.start Demo.roster) = (Ok best, s0)
    /\ balance_teams_best 2 30 6 (Demo.start Demo.roster) = (Ok best', s0')
    /\ (5 < 6)%Z
    /\ ~ Dle (snd best') (snd best).
Proof.
  eexists. eexists. eexists. eexists.
  split; [vm_compute; reflexivity|].
  split; [vm_compute; reflexivity|].
  split; [reflexivity|].
  simpl. intros H. exact H.
Qed.

(** ** Discarded attempts *)

(** C6: when the solver's status is not usable, or no decision variable
    of the roster has value 1, the attempt returns the empty dictionary
    with an infinite difference, the iteration leaves the running best as
    it was, and the loop goes on with the remaining iterations. *)
Theorem unusable_attempt_is_discarded {E : Externals}
        (num_teams time_limit num_attempts per : Z) (n : nat)
        (best : Teams * Diff) (s s1 s3 : State) (sol : LpSolution) :
  shuffle_players s = (Ok tt, s1) ->
  py_floordiv time_limit num_attempts = Some per ->
  build_and_solve (players s1) num_teams per (1 # 10)%Q s1 = (Ok sol, s3) ->
  (usable (status sol) = false
   \/ forall i j, i < List.length (players s1) ->
                  In j (range num_teams) ->
                  is_one (value sol) i j = false) ->
  _try_balance_teams num_teams per (1 # 10)%Q s1 = (Ok ([], Infinity), s3)
  /\ attempt num_teams time_limit num_attempts best s = (Ok best, s3)
  /\ attempts (S n) num_teams time_limit num_attempts best s
     = attempts n num_teams time_limit num_attempts best s3.
Proof.
  intros Hshuffle Hper Hsolve Hbad.
  assert (Htry : _try_balance_teams num_teams per (1 # 10)%Q s1
                 = (Ok ([], Infinity), s3)).
  { apply try_balance_ok. exists sol. split; [exact Hsolve|].
    destruct (usable (status sol)) eqn:Hu.
    - right. split; [reflexivity|].
      destruct Hbad as [Hbad|Hbad]; [discriminate|].
      rewrite (extract_teams_none _ _ _ Hbad). split; reflexivity.
    - left. split; reflexivity. }
  assert (Hatt : attempt num_teams time_limit num_attempts best s
                 = (Ok best, s3)).
  { apply attempt_ok. exists s1, per, ([], Infinity).
    repeat split; auto. }
  split; [exact Htry|]. split; [exact Hatt|].
  simpl. apply bind_eq. exact Hatt.
Qed.

Lemma unusable_attempt_is_discarded_witness :
  let s := Demo.start Demo.roster in
  let s1 := snd (shuffle_players s) in
  let s3 := snd (build_and_solve (players s1) 3 6 (1 # 10)%Q s1) in
  _try_balance_teams 3 6 (1 # 10)%Q s1 = (Ok ([], Infinity), s3)
  /\ attempt 3 30 5 Demo.nothing s = (Ok Demo.nothing, s3)
  /\ attempts 5 3 30 5 Demo.nothing s = attempts 4 3 30 5 Demo.nothing s3.
Proof.
  apply (@unusable_attempt_is_discarded Demo.externals 3 30 5 6 4
           Demo.nothing (Demo.start Demo.roster) _ _
           (mkSolution LpStatusInfeasible Demo.unset)).
  - reflexivity.
  - reflexivity.
  - vm_compute. reflexivity.
  - left. reflexivity.
Defined.

(** ** The roster across attempts *)

(** C7, as the code has it: every attempt shuffles the balancer's own
    list in place (no copy is made), so after an iteration the list is the
    shuffle of the list before it; a run of [balance_teams] leaves a
    permutation of the roster it started from. *)
Theorem roster_shuffled_in_place {E : Externals}
        (num_teams time_limit num_attempts : Z)
        (best : Teams * Diff) (s : State) :
  ShuffleContract E ->
  players (snd (attempt num_teams time_limit num_attempts best s))
  = fst (random_shuffle (world s) (players s))
  /\ Permutation
       (players (snd (balance_teams num_teams time_limit num_attempts s)))
       (players s).
Proof.
  intros Hshuffle. split.
  - unfold attempt. unfold bind at 1. unfold shuffle_players at 1.
    destruct (random_shuffle (world s) (players s)) as [l w] eqn:Hs. simpl.
    set (s1 := mkState l w (solver_calls s)).
    change l with (players s1).
    symmetry.
    apply (roster_bind eq (@eq_trans _)
             (or_raise (py_floordiv time_limit num_attempts)
                       ZeroDivisionError)).
    + apply roster_or_raise. reflexivity.
    + intros per. apply roster_bind; [apply (@eq_trans _) | |].
      * apply roster_try_balance; [reflexivity | apply (@eq_trans _)].
      * intros r. apply roster_ret. reflexivity.
  - apply Permutation_sym.
    apply (roster_balance_teams (@Permutation Player)).
    + apply Permutation_refl.
    + apply Permutation_trans.
    + intros w l. apply Permutation_sym, Hshuffle.
Qed.

Lemma roster_shuffled_in_place_witness :
  players (snd (attempt 2 30 5 Demo.nothing (Demo.start Demo.roster)))
  = rev Demo.roster
  /\ Permutation
       (players (snd (balance_teams 2 30 5 (Demo.start Demo.roster))))
       Demo.roster.
Proof.
  apply (@roster_shuffled_in_place Demo.externals 2 30 5 Demo.nothing
           (Demo.start Demo.roster)).
  exact demo_shuffle_contract.
Defined.

(** C7 as stated fails: after a run of five attempts on the 12 players
    the balancer holds them in reverse order. *)
Lemma balance_teams_reorders_roster :
  let s := Demo.start Demo.roster in
  ShuffleContract Demo.externals
  /\ players (snd (balance_teams 2 30 5 s)) = rev (players s)
  /\ players (snd (balance_teams 2 30 5 s)) <> players s.
Proof.
  split; [exact demo_shuffle_contract|].
  split; [vm_compute; reflexivity|].
  vm_compute. discriminate.
Qed.

(** ** Dictionaries *)

Lemma dict_get_append d k p k' :
  dict_get (dict_append d k p) k' =
  if Nat.eqb k k' then Some (get0 d k ++ [p]) else dict_get d k'.
Proof.
  unfold get0. induction d as [|[k0 v] d IH]; simpl.
  - rewrite Nat.eqb_sym. reflexivity.
  - destruct (Nat.eqb_spec k0 k) as [->|Hk0]; simpl.
    + destruct (Nat.eqb_spec k k'); reflexivity.
    + destruct (Nat.eqb_spec k0 k') as [->|Hk0']; simpl.
      * destruct (Nat.eqb_spec k k'); [congruence | reflexivity].
      * exact IH.
Qed.

Lemma get0_append d k p k' :
  get0 (dict_append d k p) k' =
  if Nat.eqb k k' then get0 d k ++ [p] else get0 d k'.
Proof.
  unfold get0 at 1. rewrite dict_get_append.
  destruct (Nat.eqb k k'); reflexivity.
Qed.

Lemma keys_append d k p k' :
  In k' (keys (dict_append d k p)) <-> k' = k \/ In k' (keys d).
Proof.
  unfold keys. induction d as [|[k0 v] d IH]; simpl.
  - intuition.
  - destruct (Nat.eqb_spec k0 k) as [->|Hk0]; simpl.
    + intuition.
    + rewrite IH. intuition.
Qed.

Lemma well_formed_nil : well_formed [].
Proof. split; [constructor | intros k l []]. Qed.

Lemma well_formed_append d k p :
  well_formed d -> well_formed (dict_append d k p).
Proof.
  intros [Hnd Hne]. split.
  - clear Hne. unfold keys in *. induction d as [|[k0 v] d IH]; simpl.
    + constructor; [intros [] | constructor].
    + inversion Hnd as [|? ? Hnotin Hnd']; subst.
      destruct (Nat.eqb_spec k0 k) as [->|Hk0]; simpl.
      * constructor; assumption.
      * constructor; [|apply IH; exact Hnd'].
        intros Hin. apply (keys_append d k p k0) in Hin.
        destruct Hin as [Heq|Hin]; [congruence | contradiction].
  - clear Hnd. induction d as [|[k0 v] d IH]; simpl; intros k1 l Hin.
    + destruct Hin as [Heq|[]]. inversion Heq; subst. discriminate.
    + destruct (Nat.eqb_spec k0 k) as [->|Hk0]; simpl in Hin.
      * destruct Hin as [Heq|Hin].
        -- inversion Heq; subst. intros Habs.
           apply app_eq_nil in Habs. destruct Habs; discriminate.
        -- apply (Hne k1 l). right. exact Hin.
      * destruct Hin as [Heq|Hin].
        -- inversion Heq; subst. apply (Hne k1 l). left. reflexivity.
        -- apply (IH (fun k2 l2 H2 => Hne k2 l2 (or_intror H2)) k1 l Hin).
Qed.

Lemma dict_get_In d k l : dict_get d k = Some l -> In (k, l) d.
Proof.
  induction d as [|[k0 v] d IH]; simpl; [discriminate|].
  destruct (Nat.eqb_spec k0 k) as [->|Hk0].
  - intros H. inversion H; subst. left. reflexivity.
  - intros H. right. apply IH. exact H.
Qed.

Lemma In_dict_get d k l :
  NoDup (keys d) -> In (k, l) d -> dict_get d k = Some l.
Proof.
  unfold keys. induction d as [|[k0 v] d IH]; simpl; intros Hnd Hin.
  - destruct Hin.
  - inversion Hnd as [|? ? Hnotin Hnd']; subst.
    destruct Hin as [Heq|Hin].
    + inversion Heq; subst. rewrite Nat.eqb_refl. reflexivity.
    + destruct (Nat.eqb_spec k0 k) as [->|Hk0].
      * exfalso. apply Hnotin.
        change k with (fst (k, l)). apply in_map. exact Hin.
      * apply IH; assumption.
Qed.

Lemma well_formed_items d :
  well_formed d -> d = map (fun k => (k, get0 d k)) (keys d).
Proof.
  intros [Hnd _]. unfold keys in *.
  assert (H : forall k l, In (k, l) d -> get0 d k = l).
  { intros k l Hin. unfold get0. rewrite (In_dict_get d k l Hnd Hin).
    reflexivity. }
  clear Hnd. revert H. generalize (get0 d) as g. intros g.
  induction d as [|[k0 v] d IH]; simpl; intros H.
  - reflexivity.
  - rewrite (H k0 v (or_introl eq_refl)). f_equal.
    apply IH. intros k l Hin. apply H. right. exact Hin.
Qed.

Lemma well_formed_key d k :
  well_formed d -> (In k (keys d) <-> get0 d k <> []).
Proof.
  intros [Hnd Hne]. split.
  - intros Hin. apply in_map_iff in Hin. destruct Hin as ([k' l] & <- & Hin).
    simpl. unfold get0. rewrite (In_dict_get d k' l Hnd Hin).
    apply (Hne k' l Hin).
  - unfold get0. destruct (dict_get d k) as [l|] eqn:Hget; [|congruence].
    intros _. apply dict_get_In in Hget.
    change k with (fst (k, l)). apply in_map. exact Hget.
Qed.

(** ** What the extraction loop builds *)

Lemma inb_In k l : inb k l = true <-> In k l.
Proof.
  unfold inb. rewrite existsb_exists. split.
  - intros (x & Hin & Heq). apply Nat.eqb_eq in Heq. subst. exact Hin.
  - intros Hin. exists k. split; [exact Hin | apply Nat.eqb_refl].
Qed.

Lemma inb_not_In k l : ~ In k l -> inb k l = false.
Proof.
  intros H. destruct (inb k l) eqn:Hb; [|reflexivity].
  apply inb_In in Hb. contradiction.
Qed.

Lemma fold_row_get0 sol i p js :
  NoDup js ->
  forall teams j,
    get0 (fold_left (fun t j' => if is_one sol i j'
                                 then dict_append t j' p else t)
                    js teams) j
    = get0 teams j
           ++ (if inb j js && is_one sol i j then [p] else []).
Proof.
  induction js as [|j0 js IH]; intros Hnd teams j; simpl.
  - rewrite app_nil_r. reflexivity.
  - inversion Hnd as [|? ? Hnotin Hnd']; subst.
    rewrite (IH Hnd'). destruct (Nat.eqb_spec j j0) as [->|Hj]; simpl.
    + rewrite (inb_not_In _ _ Hnotin). simpl. rewrite app_nil_r.
      destruct (is_one sol i j0).
      * rewrite get0_append, Nat.eqb_refl. reflexivity.
      * rewrite app_nil_r. reflexivity.
    + destruct (is_one sol i j0); [|reflexivity].
      rewrite get0_append.
      destruct (Nat.eqb_spec j0 j); [congruence | reflexivity].
Qed.

Lemma extract_row_get0 sol num_teams teams ip j :
  get0 (extract_row sol num_teams teams ip) j
  = get0 teams j
         ++ (if inb j (range num_teams) && is_one sol (fst ip) j
             then [snd ip] else []).
Proof. apply fold_row_get0. apply seq_NoDup. Qed.

Lemma extract_row_well_formed sol num_teams teams ip :
  well_formed teams -> well_formed (extract_row sol num_teams teams ip).
Proof.
  unfold extract_row. generalize (range num_teams) as js. intros js.
  revert teams. induction js as [|j js IH]; intros teams H; simpl.
  - exact H.
  - apply IH. destruct (is_one sol (fst ip) j); [|exact H].
    apply well_formed_append. exact H.
Qed.

Lemma fold_extract_get0 sol num_teams eps :
  forall teams j,
    get0 (fold_left (extract_row sol num_teams) eps teams) j
    = get0 teams j
           ++ (if inb j (range num_teams) then members sol j eps else []).
Proof.
  unfold members.
  induction eps as [|ip eps IH]; intros teams j; simpl.
  - destruct (inb j (range num_teams)); rewrite app_nil_r; reflexivity.
  - rewrite IH, extract_row_get0, <- app_assoc. f_equal.
    destruct (inb j (range num_teams)); simpl; [|reflexivity].
    destruct (is_one sol (fst ip) j); reflexivity.
Qed.

Lemma fold_extract_well_formed sol num_teams eps :
  forall teams,
    well_formed teams ->
    well_formed (fold_left (extract_row sol num_teams) eps teams).
Proof.
  induction eps as [|ip eps IH]; intros teams H; simpl.
  - exact H.
  - apply IH. apply extract_row_well_formed. exact H.
Qed.

Lemma extract_teams_get0 sol num_teams ps j :
  get0 (extract_teams sol num_teams ps) j
  = if inb j (range num_teams) then members sol j (enumerate ps) else [].
Proof. unfold extract_teams. rewrite fold_extract_get0. reflexivity. Qed.

Lemma extract_teams_well_formed sol num_teams ps :
  well_formed (extract_teams sol num_teams ps).
Proof. apply fold_extract_well_formed. apply well_formed_nil. Qed.

(** The teams are the non-empty member lists, keyed by team index. *)
Lemma extract_teams_items sol num_teams ps k l :
  In (k, l) (extract_teams sol num_teams ps) <->
  In k (range num_teams) /\ l = members sol k (enumerate ps) /\ l <> [].
Proof.
  pose proof (extract_teams_well_formed sol num_teams ps) as Hwf.
  pose proof (extract_teams_get0 sol num_teams ps k) as Hget.
  split.
  - intros Hin. destruct Hwf as [Hnd Hne].
    pose proof (In_dict_get _ _ _ Hnd Hin) as Hk.
    unfold get0 in Hget. rewrite Hk in Hget.
    pose proof (Hne k l Hin) as Hl.
    destruct (inb k (range num_teams)) eqn:Hb; [|congruence].
    apply inb_In in Hb. auto.
  - intros (Hk & -> & Hne). apply inb_In in Hk. rewrite Hk in Hget.
    apply dict_get_In. unfold get0 in Hget.
    destruct (dict_get (extract_teams sol num_teams ps) k); congruence.
Qed.

Lemma extract_teams_keys sol num_teams ps k :
  In k (keys (extract_teams sol num_teams ps)) <->
  In k (range num_teams) /\ members sol k (enumerate ps) <> [].
Proof.
  rewrite (well_formed_key _ k (extract_teams_well_formed sol num_teams ps)).
  rewrite extract_teams_get0.
  destruct (inb k (range num_teams)) eqn:Hb.
  - apply inb_In in Hb. tauto.
  - split; [congruence|]. intros [Hk _]. apply inb_In in Hk. congruence.
Qed.

(** ** From a feasible assignment to head counts *)

Lemma var_okb_binary sol i j :
  var_okb sol (mkVar (player_var i j) None LpBinary) = true ->
  binary sol (i, j).
Proof.
  unfold var_okb, binary, pvar. simpl.
  destruct (sol (player_var i j)) as [q|]; [|discriminate].
  intros H. exists q. split; [reflexivity|].
  apply orb_true_iff in H. destruct H as [H|H]; apply Qeq_bool_iff in H; auto.
Qed.

Lemma eval_lpSum_ones sol ijs :
  (forall ij, In ij ijs -> binary sol ij) ->
  exists r, eval_terms sol (terms (lpSum (map pvar ijs))) = Some r
            /\ (r == inject_Z (Z.of_nat (ones sol ijs)))%Q.
Proof.
  unfold ones. induction ijs as [|ij ijs IH]; intros Hbin; simpl.
  - exists 0%Q. split; reflexivity.
  - destruct IH as (r & Hr & Heq).
    { intros ij' Hin. apply Hbin. right. exact Hin. }
    destruct (Hbin ij (or_introl eq_refl)) as (q & Hq & Hq01).
    rewrite Hq. simpl in Hr. rewrite Hr.
    exists (1 * q + r)%Q. split; [reflexivity|].
    unfold is_one at 1. fold (pvar ij). rewrite Hq.
    destruct Hq01 as [H0|H1].
    + destruct (Qeq_bool q 1) eqn:Hb.
      * apply Qeq_bool_iff in Hb. rewrite H0 in Hb. discriminate.
      * rewrite H0, Heq. ring.
    + assert (Hb : Qeq_bool q 1 = true) by (apply Qeq_bool_iff; exact H1).
      rewrite Hb. simpl List.length. rewrite Nat2Z.inj_succ.
      unfold Z.succ. rewrite inject_Z_plus, H1, Heq. ring.
Qed.

Lemma holdsb_lpSum_eq sol ijs (c : Z) :
  (forall ij, In ij ijs -> binary sol ij) ->
  holdsb sol (mkConstraint (lpSum (map pvar ijs)) LpConstraintEQ
                           (lpConst (inject_Z c))) = true ->
  Z.of_nat (ones sol ijs) = c.
Proof.
  intros Hbin. destruct (eval_lpSum_ones sol ijs Hbin) as (r & Hr & Heq).
  unfold holdsb, eval_expr. simpl lhs. simpl rhs. rewrite Hr. simpl.
  intros H. apply Qeq_bool_iff in H.
  apply inject_Z_injective. rewrite <- Heq. lra.
Qed.

Lemma holdsb_lpSum_ge sol ijs (c : Z) :
  (forall ij, In ij ijs -> binary sol ij) ->
  holdsb sol (mkConstraint (lpSum (map pvar ijs)) LpConstraintGE
                           (lpConst (inject_Z c))) = true ->
  (c <= Z.of_nat (ones sol ijs))%Z.
Proof.
  intros Hbin. destruct (eval_lpSum_ones sol ijs Hbin) as (r & Hr & Heq).
  unfold holdsb, eval_expr. simpl lhs. simpl rhs. rewrite Hr. simpl.
  intros H. apply Qle_bool_iff in H.
  rewrite Zle_Qle, <- Heq. lra.
Qed.

Lemma members_length sol j eps :
  List.length (members sol j eps)
  = ones sol (map (fun ip : nat * Player => (fst ip, j)) eps).
Proof.
  unfold members, ones. rewrite length_map.
  induction eps as [|ip eps IH]; simpl; [reflexivity|].
  destruct (is_one sol (fst ip) j); simpl; rewrite IH; reflexivity.
Qed.

Lemma members_count_position sol j pos eps :
  count_position pos (members sol j eps)
  = Z.of_nat
      (ones sol
         (map (fun ip : nat * Player => (fst ip, j))
              (filter (fun ip => String.eqb (position (snd ip)) pos) eps))).
Proof.
  unfold count_position, len, members, ones. f_equal.
  induction eps as [|ip eps IH]; simpl; [reflexivity|].
  destruct (is_one sol (fst ip) j) eqn:H1;
    destruct (String.eqb (position (snd ip)) pos) eqn:Hp;
    simpl; rewrite ?H1, ?Hp; simpl; rewrite IH; reflexivity.
Qed.

Lemma build_problem_ok {E : Externals} ps num_teams threshold s prob s' :
  build_problem ps num_teams threshold s = (Ok prob, s') ->
  variables prob = player_vars (List.length ps) num_teams ++ [max_diff]
  /\ exists deviation,
       constraints prob
       = one_team_constraints (List.length ps) num_teams
           ++ deviation
           ++ flat_map (team_constraints ps num_teams) (range num_teams).
Proof.
  unfold build_problem. intros H.
  apply bind_ok in H. destruct H as (target & s1 & _ & H).
  apply bind_ok in H. destruct H as (deviation & s2 & _ & H).
  inversion H; subst. simpl. split; [reflexivity|].
  exists deviation. reflexivity.
Qed.

Lemma feasible_assignment_ok ps num_teams prob sol :
  variables prob = player_vars (List.length ps) num_teams ++ [max_diff] ->
  (exists deviation,
      constraints prob
      = one_team_constraints (List.length ps) num_teams
          ++ deviation
          ++ flat_map (team_constraints ps num_teams) (range num_teams)) ->
  feasibleb prob sol = true ->
  assignment_ok sol num_teams ps.
Proof.
  intros Hvars (deviation & Hcs) Hfeas.
  unfold feasibleb in Hfeas. apply andb_true_iff in Hfeas.
  destruct Hfeas as [Hv Hc].
  rewrite forallb_forall in Hv, Hc. rewrite Hvars in Hv. rewrite Hcs in Hc.
  assert (Hbin : forall i j, i < List.length ps -> In j (range num_teams) ->
                             binary sol (i, j)).
  { intros i j Hi Hj. apply var_okb_binary. apply Hv.
    apply in_or_app. left. unfold player_vars. apply in_flat_map.
    exists i. split; [apply in_seq; lia|].
    apply in_map_iff. exists j. auto. }
  assert (Hteam : forall j c, In j (range num_teams) ->
                              In c (team_constraints ps num_teams j) ->
                              holdsb sol c = true).
  { intros j c Hj Hin. apply Hc. apply in_or_app. right.
    apply in_or_app. right. apply in_flat_map. exists j. auto. }
  assert (Hrow : forall j ip, In j (range num_teams) ->
                              In ip (enumerate ps) ->
                              binary sol (fst ip, j)).
  { intros j [i p] Hj Hip. apply enumerate_from_index in Hip.
    apply Hbin; [simpl; lia | exact Hj]. }
  split; [|split].
  - intros i Hi. apply Nat2Z.inj.
    apply (holdsb_lpSum_eq sol (map (pair i) (range num_teams)) 1).
    + intros ij Hin. apply in_map_iff in Hin.
      destruct Hin as (j & <- & Hj). apply Hbin; assumption.
    + rewrite map_map. apply Hc. apply in_or_app. left.
      unfold one_team_constraints. apply in_map_iff.
      exists i. split; [reflexivity | apply in_seq; lia].
  - intros j Hj. unfold len. rewrite members_length.
    apply holdsb_lpSum_eq.
    + intros ij Hin. apply in_map_iff in Hin.
      destruct Hin as (ip & <- & Hip). apply Hrow; assumption.
    + rewrite map_map. apply (Hteam j _ Hj).
      unfold team_constraints. apply in_or_app. right. left. reflexivity.
  - intros j pos min_count Hj Hreq. rewrite members_count_position.
    apply holdsb_lpSum_ge.
    + intros ij Hin. apply in_map_iff in Hin.
      destruct Hin as (ip & <- & Hip). apply filter_In in Hip.
      apply Hrow; tauto.
    + rewrite map_map. apply (Hteam j _ Hj).
      unfold team_constraints. apply in_or_app. left.
      apply in_map_iff. exists (pos, min_count). split; [reflexivity|].
      exact Hreq.
Qed.

(** ** The extracted teams partition the roster *)

Lemma flat_map_app_perm {A B} (f g : A -> list B) (l : list A) :
  Permutation (flat_map (fun x => f x ++ g x) l)
              (flat_map f l ++ flat_map g l).
Proof.
  induction l as [|x l IH]; simpl.
  - constructor.
  - rewrite IH. rewrite <- !app_assoc. apply Permutation_app_head.
    rewrite !app_assoc. apply Permutation_app_tail.
    apply Permutation_app_comm.
Qed.

Lemma flat_map_singletons {A B} (f : A -> bool) (b : B) (l : list A) :
  flat_map (fun x => if f x then [b] else []) l
  = repeat b (List.length (filter f l)).
Proof.
  induction l as [|x l IH]; simpl; [reflexivity|].
  destruct (f x); simpl; rewrite IH; reflexivity.
Qed.

Lemma members_cons sol j ip eps :
  members sol j (ip :: eps)
  = (if is_one sol (fst ip) j then [snd ip] else []) ++ members sol j eps.
Proof.
  unfold members. simpl. destruct (is_one sol (fst ip) j); reflexivity.
Qed.

Lemma ones_row sol i js :
  ones sol (map (pair i) js) = List.length (filter (is_one sol i) js).
Proof.
  unfold ones. induction js as [|j js IH]; simpl; [reflexivity|].
  destruct (is_one sol i j); simpl; rewrite IH; reflexivity.
Qed.

Lemma members_partition sol js eps :
  (forall ip, In ip eps -> ones sol (map (pair (fst ip)) js) = 1) ->
  Permutation (flat_map (fun j => members sol j eps) js) (map snd eps).
Proof.
  induction eps as [|ip eps IH]; intros H.
  - clear H. simpl. induction js as [|j js IHjs]; simpl; [apply perm_nil | exact IHjs].
  - rewrite (flat_map_ext _ _ (fun j => members_cons sol j ip eps) js).
    rewrite flat_map_app_perm, flat_map_singletons.
    rewrite <- ones_row, (H ip (or_introl eq_refl)). simpl.
    constructor. apply IH. intros ip' Hin. apply H. right. exact Hin.
Qed.

Lemma enumerate_from_snd {A} (l : list A) start :
  map snd (enumerate_from start l) = l.
Proof.
  unfold enumerate_from. revert start.
  induction l as [|x l IH]; intros start; simpl; [reflexivity|].
  rewrite IH. reflexivity.
Qed.

Lemma flat_map_nonempty {A B} (f : A -> list B) (l : list A) :
  flat_map f (filter (fun x => match f x with [] => false | _ => true end) l)
  = flat_map f l.
Proof.
  induction l as [|x l IH]; simpl; [reflexivity|].
  destruct (f x) eqn:Hfx; simpl; rewrite ?Hfx, IH; reflexivity.
Qed.

Lemma extract_teams_concat sol num_teams ps :
  Permutation
    (List.concat (values (extract_teams sol num_teams ps)))
    (flat_map (fun j => members sol j (enumerate ps)) (range num_teams)).
Proof.
  set (teams := extract_teams sol num_teams ps).
  set (f := fun j => members sol j (enumerate ps)).
  pose proof (extract_teams_well_formed sol num_teams ps) as Hwf.
  fold teams in Hwf.
  rewrite <- (flat_map_nonempty f (range num_teams)).
  assert (Hvals : values teams = map f (keys teams)).
  { unfold values. rewrite (well_formed_items teams Hwf) at 1.
    rewrite map_map. simpl. apply map_ext_in. intros k Hk.
    unfold teams in *. rewrite extract_teams_get0.
    apply extract_teams_keys in Hk. destruct Hk as [Hk _].
    apply inb_In in Hk. rewrite Hk. reflexivity. }
  rewrite Hvals, <- flat_map_concat_map.
  assert (Hkeys : Permutation
                    (keys teams)
                    (filter (fun x => match f x with [] => false | _ => true end)
                            (range num_teams))).
  { apply NoDup_Permutation.
    - apply Hwf.
    - apply NoDup_filter. apply seq_NoDup.
    - intros k. unfold teams. rewrite extract_teams_keys, filter_In.
      unfold f. destruct (members sol k (enumerate ps));
        intuition congruence. }
  rewrite Hkeys. reflexivity.
Qed.

Lemma extract_partitions sol num_teams ps :
  assignment_ok sol num_teams ps ->
  extract_teams sol num_teams ps <> [] ->
  partitions num_teams ps (extract_teams sol num_teams ps)
  /\ meets_quotas (extract_teams sol num_teams ps).
Proof.
  intros (Hone & Hsize & Hquota) Hne.
  set (teams := extract_teams sol num_teams ps) in *.
  assert (Hpos : (1 <= len ps / num_teams)%Z /\ (0 < num_teams)%Z).
  { destruct teams as [|[k l] rest] eqn:Ht; [congruence|].
    assert (Hin : In (k, l) teams) by (rewrite Ht; left; reflexivity).
    apply extract_teams_items in Hin. destruct Hin as (Hk & Hl & Hnil).
    rewrite <- (Hsize k Hk), <- Hl. split.
    - destruct l; [congruence|]. unfold len. simpl List.length. lia.
    - unfold range in Hk. apply in_seq in Hk. lia. }
  destruct Hpos as [Hper HT].
  assert (Hfull : forall j, In j (range num_teams) ->
                            members sol j (enumerate ps) <> []).
  { intros j Hj Hnil. specialize (Hsize j Hj). rewrite Hnil in Hsize.
    unfold len in Hsize at 1. simpl in Hsize. lia. }
  assert (Hkeys : Permutation (keys teams) (range num_teams)).
  { apply NoDup_Permutation.
    - apply (extract_teams_well_formed sol num_teams ps).
    - apply seq_NoDup.
    - intros k. unfold teams. rewrite extract_teams_keys.
      split; [tauto|]. intros Hk. split; [exact Hk | apply Hfull, Hk]. }
  split; [split; [exact Hkeys | split; [|split]]|].
  - unfold len. rewrite <- (length_map fst teams). fold (keys teams).
    rewrite (Permutation_length Hkeys). unfold range.
    rewrite length_seq. lia.
  - intros k l Hin. apply extract_teams_items in Hin.
    destruct Hin as (Hk & -> & _). apply Hsize, Hk.
  - unfold teams. rewrite extract_teams_concat.
    rewrite members_partition.
    + unfold enumerate. rewrite enumerate_from_snd. reflexivity.
    + intros [i p] Hip. apply enumerate_from_index in Hip. simpl.
      apply Hone. lia.
  - intros k l pos min_count Hin Hreq. apply extract_teams_items in Hin.
    destruct Hin as (Hk & -> & _). apply Hquota; assumption.
Qed.

Lemma solve_ok {E : Externals} prob t s sol s' :
  solve prob t s = (Ok sol, s') ->
  exists w', cbc_solve (world s) prob t = (Ok sol, w').
Proof.
  unfold solve. destruct (cbc_solve (world s) prob t) as [r w'] eqn:H.
  intros Heq. inversion Heq; subst. exists w'. reflexivity.
Qed.

Lemma build_problem_players {E : Externals} ps num_teams threshold s :
  players (snd (build_problem ps num_teams threshold s)) = players s.
Proof.
  symmetry. unfold build_problem.
  apply (roster_bind eq (@eq_trans _)); [apply roster_or_raise; reflexivity|].
  intros target.
  apply (roster_bind eq (@eq_trans _)).
  - apply roster_rating_loop; [reflexivity | apply (@eq_trans _)].
  - intros dev. apply roster_ret. reflexivity.
Qed.

(** Under the solver's contract, a non-empty result of an attempt
    partitions the roster it was given and meets the quotas. *)
Lemma try_balance_partitions {E : Externals} num_teams t threshold s r s' :
  SolverContract E ->
  _try_balance_teams num_teams t threshold s = (Ok r, s') ->
  fst r <> [] ->
  partitions num_teams (players s) (fst r) /\ meets_quotas (fst r).
Proof.
  intros Hcontract Hrun Hne. apply try_balance_ok in Hrun.
  destruct Hrun as (sol & Hsolve & [[_ ->]|(Hu & _ & Hteams)]);
    [simpl in Hne; congruence|].
  rewrite Hteams in *. unfold build_and_solve in Hsolve.
  apply bind_ok in Hsolve. destruct Hsolve as (prob & s1 & Hbuild & Hsolve).
  apply solve_ok in Hsolve. destruct Hsolve as (w' & Hsolve).
  destruct (Hcontract _ _ _ _ _ Hsolve Hu) as [Hfeas|Hnone].
  - apply extract_partitions; [|exact Hne].
    apply build_problem_ok in Hbuild. destruct Hbuild as [Hvars Hcs].
    eapply feasible_assignment_ok; eauto.
  - exfalso. apply Hne. apply extract_teams_none.
    intros i j _ _. apply no_values_is_one. exact Hnone.
Qed.

(** ** Invariants of the loop *)

Section Invariant.

Context {E : Externals}.

(** [R]: how the shuffle may change the roster; [P ps best]: a property of
    the running best relative to the roster, stable under [R]. *)
Variable R : list Player -> list Player -> Prop.
Variable P : list Player -> Teams * Diff -> Prop.
Variable num_teams : Z.

Hypothesis R_refl : forall l, R l l.
Hypothesis R_sym : forall l1 l2, R l1 l2 -> R l2 l1.
Hypothesis R_trans : forall l1 l2 l3, R l1 l2 -> R l2 l3 -> R l1 l3.
Hypothesis R_shuffle : forall w l, R l (fst (random_shuffle w l)).
Hypothesis P_rel : forall ps ps' b, R ps ps' -> P ps b -> P ps' b.

Hypothesis P_attempt :
  forall per s r s',
    _try_balance_teams num_teams per (1 # 10)%Q s = (Ok r, s') ->
    fst r <> [] -> P (players s) r.

Lemma attempts_invariant n t k :
  forall best s best' s',
    P (players s) best ->
    attempts n num_teams t k best s = (Ok best', s') ->
    P (players s') best'.
Proof.
  induction n as [|n IH]; intros best s best' s' HP Hrun; simpl in Hrun.
  - inversion Hrun; subst. exact HP.
  - apply bind_ok in Hrun. destruct Hrun as (b1 & s1 & Hatt & Hrest).
    apply (IH b1 s1 best' s'); [|exact Hrest].
    pose proof (roster_attempt R R_refl R_trans R_shuffle
                  num_teams t k best s) as Hroster.
    rewrite Hatt in Hroster. simpl in Hroster.
    apply attempt_ok in Hatt.
    destruct Hatt as (s2 & per & r & Hsh & _ & Htry & ->).
    destruct (keep_best_cases best r) as [[Hrep ->]|[_ ->]].
    + pose proof (try_balance_players num_teams per (1 # 10)%Q s2) as Hpl.
      rewrite Htry in Hpl. simpl in Hpl. rewrite Hpl.
      apply (P_attempt _ _ _ _ Htry).
      apply replaces_spec in Hrep. tauto.
    + apply (P_rel (players s)); assumption.
Qed.

Lemma balance_teams_best_invariant t k s best s' :
  P (players s) ([], Infinity) ->
  balance_teams_best num_teams t k s = (Ok best, s') ->
  P (players s) best.
Proof.
  intros HP Hrun. apply balance_teams_best_ok in Hrun.
  destruct Hrun as (r & _ & [(_ & -> & ->)|(_ & Hrun)]); [exact HP|].
  pose proof (roster_attempts R R_refl R_trans R_shuffle
                (Z.to_nat k) num_teams t k ([], Infinity) s) as Hroster.
  rewrite Hrun in Hroster. simpl in Hroster.
  apply (P_rel (players s')); [apply R_sym; exact Hroster|].
  eapply attempts_invariant; eauto.
Qed.

End Invariant.

Lemma balance_teams_ok {E : Externals} num_teams t k s teams s' :
  balance_teams num_teams t k s = (Ok teams, s') <->
  exists d, balance_teams_best num_teams t k s = (Ok (teams, d), s').
Proof.
  unfold balance_teams. rewrite bind_ok. split.
  - intros ([teams' d] & s1 & H1 & H2). inversion H2; subst.
    exists d. exact H1.
  - intros (d & H). exists (teams, d), s'. auto.
Qed.

Lemma partitions_perm num_teams ps ps' teams :
  Permutation ps ps' ->
  partitions num_teams ps teams -> partitions num_teams ps' teams.
Proof.
  intros Hp (H1 & H2 & H3 & H4).
  split; [exact H1|]. split; [exact H2|]. split.
  - intros k l Hin. rewrite (H3 k l Hin). unfold len.
    rewrite (Permutation_length Hp). reflexivity.
  - rewrite H4. exact Hp.
Qed.

(** ** Returned assignments *)








(** ** Sorted items *)

Lemma insert_item_perm x l : Permutation (insert_item x l) (x :: l).
Proof.
  induction l as [|y l IH]; simpl; [reflexivity|].
  destruct (Nat.leb (fst x) (fst y)); [reflexivity|].
  rewrite IH. apply perm_swap.
Qed.

Lemma sorted_items_perm teams : Permutation (sorted_items teams) teams.
Proof.
  induction teams as [|x teams IH]; simpl; [constructor|].
  rewrite insert_item_perm. constructor. exact IH.
Qed.

Lemma team_output_average item t :
  team_output item = Ok t ->
  team_average (snd item) = Some (average_rating t).
Proof.
  unfold team_output, team_average.
  destruct (py_truediv (sum_overall (snd item)) (len (snd item))) as [a|];
    [|discriminate].
  destruct (count_positions pos_dist_init (snd item)); [|discriminate].
  intros H. inversion H; subst. reflexivity.
Qed.

(** ** Identical ratings *)
















(** ** What every returned dictionary satisfies *)

Lemma members_In sol j ps p :
  In p (members sol j (enumerate ps)) -> In p ps.
Proof.
  unfold members, enumerate. intros H. apply in_map_iff in H.
  destruct H as (ip & <- & Hip). apply filter_In in Hip.
  destruct Hip as [Hip _].
  assert (H : In (snd ip) (map snd (enumerate_from 0 ps)))
    by (apply in_map; exact Hip).
  rewrite enumerate_from_snd in H. exact H.
Qed.

Lemma try_balance_sound {E : Externals} num_teams t threshold s r s' :
  _try_balance_teams num_teams t threshold s = (Ok r, s') ->
  well_formed (fst r)
  /\ (forall k l p, In (k, l) (fst r) -> In p l -> In p (players s))
  /\ max_rating_diff_of (fst r) = Ok (snd r).
Proof.
  intros Hrun. apply try_balance_ok in Hrun.
  destruct Hrun as (sol & _ & [[_ ->]|(_ & Hd & ->)]).
  - simpl. split; [apply well_formed_nil|]. split; [intros k l p []|].
    reflexivity.
  - split; [apply extract_teams_well_formed|]. split; [|exact Hd].
    intros k l p Hin Hp. apply extract_teams_items in Hin.
    destruct Hin as (_ & -> & _). apply (members_In _ _ _ _ Hp).
Qed.

(** The dictionary returned by a run is well formed, whatever the solver
    and the shuffle do. *)
Lemma balance_teams_well_formed {E : Externals} num_teams t k s teams s' :
  balance_teams num_teams t k s = (Ok teams, s') -> well_formed teams.
Proof.
  intros Hrun. apply balance_teams_ok in Hrun. destruct Hrun as (d & Hrun).
  apply (balance_teams_best_invariant
           (fun _ _ => True) (fun _ b => well_formed (fst b)) num_teams)
    with (t := t) (k := k) (s := s) (best := (teams, d)) (s' := s'); auto.
  - intros per s0 r s0' Htry _. apply (try_balance_sound _ _ _ _ _ _ Htry).
  - apply well_formed_nil.
Qed.

(** The best difference is the difference of the best teams, and the best
    teams are made of players of the roster. *)
Lemma balance_teams_best_sound {E : Externals} num_teams t k s best s' :
  ShuffleContract E ->
  balance_teams_best num_teams t k s = (Ok best, s') ->
  (forall k' l p, In (k', l) (fst best) -> In p l -> In p (players s))
  /\ max_rating_diff_of (fst best) = Ok (snd best).
Proof.
  intros Hshuffle Hrun.
  apply (balance_teams_best_invariant
           (@Permutation Player)
           (fun ps b =>
              (forall k' l p, In (k', l) (fst b) -> In p l -> In p ps)
              /\ max_rating_diff_of (fst b) = Ok (snd b))
           num_teams
           (@Permutation_refl _) (@Permutation_sym _) (@Permutation_trans _)
           (fun w l => Permutation_sym (Hshuffle w l)))
    with (t := t) (k := k) (s := s) (best := best) (s' := s').
  - intros ps ps' b Hp [H1 H2]. split; [|exact H2].
    intros k' l p Hin Hpl. apply (Permutation_in _ Hp).
    apply (H1 k' l p Hin Hpl).
  - intros per s0 r s0' Htry _. apply (try_balance_sound _ _ _ _ _ _ Htry).
  - split; [intros k' l p []|reflexivity].
  - exact Hrun.
Qed.

(** ** The statistics of the API *)

Lemma dict_incr_ok d k :
  In k (map fst d) ->
  exists d', dict_incr d k = Ok d' /\ map fst d' = map fst d.
Proof.
  induction d as [|[k0 n] d IH]; simpl; intros Hin; [destruct Hin|].
  destruct (String.eqb_spec k0 k) as [->|Hk].
  - eexists. split; reflexivity.
  - destruct Hin as [Heq|Hin]; [congruence|].
    destruct (IH Hin) as (d' & -> & Hkeys).
    eexists. split; [reflexivity|]. simpl. rewrite Hkeys. reflexivity.
Qed.

Lemma dict_incr_raise d k :
  ~ In k (map fst d) -> dict_incr d k = Raise (KeyError k).
Proof.
  induction d as [|[k0 n] d IH]; simpl; intros Hnotin; [reflexivity|].
  destruct (String.eqb_spec k0 k) as [->|Hk].
  - exfalso. apply Hnotin. left. reflexivity.
  - rewrite IH; [reflexivity|]. intros Hin. apply Hnotin. right. exact Hin.
Qed.

Lemma count_positions_cases d l :
  (exists d', count_positions d l = Ok d'
              /\ forall p, In p l -> In (position p) (map fst d))
  \/ (exists pos, count_positions d l = Raise (KeyError pos)
                  /\ ~ In pos (map fst d)).
Proof.
  revert d. induction l as [|p l IH]; intros d; simpl.
  - left. exists d. split; [reflexivity | intros p []].
  - destruct (in_dec string_dec (position p) (map fst d)) as [Hin|Hnotin].
    + destruct (dict_incr_ok d (position p) Hin) as (d1 & -> & Hkeys).
      destruct (IH d1) as [(d' & -> & Hall)|(pos & -> & Hpos)].
      * left. exists d'. split; [reflexivity|].
        intros q [<-|Hq]; [exact Hin|]. rewrite <- Hkeys. apply Hall, Hq.
      * right. exists pos. split; [reflexivity|]. rewrite <- Hkeys.
        exact Hpos.
    + right. exists (position p). rewrite (dict_incr_raise d _ Hnotin).
      split; [reflexivity | exact Hnotin].
Qed.

Lemma team_output_cases item :
  snd item <> [] ->
  (exists t, team_output item = Ok t
             /\ forall p, In p (snd item) -> standard_position (position p))
  \/ (exists pos, team_output item = Raise (KeyError pos)
                  /\ ~ standard_position pos).
Proof.
  intros Hne. unfold team_output, py_truediv.
  destruct (Z.eqb_spec (len (snd item)) 0) as [H0|_].
  { exfalso. destruct (snd item); [congruence|].
    unfold len in H0. simpl List.length in H0. lia. }
  destruct (count_positions_cases pos_dist_init (snd item))
    as [(d' & -> & Hall)|(pos & -> & Hpos)].
  - left. eexists. split; [reflexivity | exact Hall].
  - right. exists pos. split; [reflexivity | exact Hpos].
Qed.

Lemma team_outputs_unknown_position items :
  (forall k l, In (k, l) items -> l <> []) ->
  (exists k l p, In (k, l) items /\ In p l
                 /\ ~ standard_position (position p)) ->
  exists pos, team_outputs items = Raise (KeyError pos)
              /\ ~ standard_position pos.
Proof.
  induction items as [|[k0 l0] items IH]; intros Hfull Hbad.
  - destruct Hbad as (k & l & p & [] & _).
  - simpl. destruct (team_output_cases (k0, l0)) as
        [(t & -> & Hall)|(pos & -> & Hpos)].
    + apply (Hfull k0 l0). left. reflexivity.
    + destruct IH as (pos & -> & Hpos).
      * intros k l Hin. apply (Hfull k l). right. exact Hin.
      * destruct Hbad as (k & l & p & [Heq|Hin] & Hp & Hstd).
        -- inversion Heq; subst. exfalso. apply Hstd. apply Hall. exact Hp.
        -- exists k, l, p. auto.
      * exists pos. auto.
    + exists pos. auto.
Qed.

Lemma statistics_unknown_position teams :
  (forall k l, In (k, l) teams -> l <> []) ->
  (exists k l p, In (k, l) teams /\ In p l
                 /\ ~ standard_position (position p)) ->
  exists pos, statistics teams = Raise (KeyError pos)
              /\ ~ standard_position pos.
Proof.
  intros Hfull (k & l & p & Hin & Hp & Hstd). unfold statistics.
  destruct (team_outputs_unknown_position (sorted_items teams))
    as (pos & -> & Hpos).
  - intros k' l' Hin'. apply (Hfull k' l').
    apply (Permutation_in _ (sorted_items_perm teams)). exact Hin'.
  - exists k, l, p. split; [|auto].
    apply (Permutation_in _ (Permutation_sym (sorted_items_perm teams))).
    exact Hin.
  - exists pos. auto.
Qed.

(** ** The two handlers *)

Lemma handler_body_run {E : Externals} (source : result Buffer)
      num_teams t k s teams s1 :
  balanced source num_teams t k s = (Ok teams, s1) ->
  bind (lift source)
       (fun csv_buffer =>
          bind (TeamBalancer_init csv_buffer)
               (fun _ => bind (balance_teams num_teams t k)
                              (fun teams' => respond teams'))) s
  = respond teams s1.
Proof.
  unfold balanced. intros H.
  apply bind_ok in H. destruct H as (buf & s2 & Hsrc & H).
  apply bind_ok in H. destruct H as ([] & s3 & Hinit & Hbal).
  rewrite (bind_eq _ _ _ _ _ Hsrc), (bind_eq _ _ _ _ _ Hinit).
  rewrite (bind_eq _ _ _ _ _ Hbal). reflexivity.
Qed.

Lemma respond_unknown_position {E : Externals} teams s :
  well_formed teams ->
  (exists k l p, In (k, l) teams /\ In p l
                 /\ ~ standard_position (position p)) ->
  exists pos, respond teams s = (Raise (KeyError pos), s)
              /\ ~ standard_position pos.
Proof.
  intros [_ Hfull] Hbad.
  destruct (statistics_unknown_position teams Hfull Hbad) as (pos & Hs & Hp).
  exists pos. split; [|exact Hp]. unfold respond.
  destruct Hbad as (k & l & p & Hin & _).
  destruct teams; [destruct Hin|]. simpl. rewrite Hs. reflexivity.
Qed.

(** C10: when the balance succeeded and some player of the returned teams
    has a position other than DEF, MID and ATT, the statistics raise
    [KeyError] on such a position and both handlers answer with the HTTP
    error 500 that wraps it, not with a [BalanceResponse]. *)
Theorem unknown_position_gives_http_500 {E : Externals}
        (source : result Buffer) (num_teams time_limit num_attempts : Z)
        (s s1 : State) (teams : Teams) (k : nat) (l : list Player)
        (p : Player) :
  balanced source num_teams time_limit num_attempts s = (Ok teams, s1) ->
  In (k, l) teams ->
  In p l ->
  ~ standard_position (position p) ->
  exists pos,
    ~ standard_position pos
    /\ statistics teams = Raise (KeyError pos)
    /\ (forall request_players,
           frame_to_csv request_players = source ->
           balance_teams_json request_players num_teams time_limit
                              num_attempts s
           = (Raise (HTTPException 500 (StrOf (KeyError pos))), s1))
    /\ (forall file,
           upload_to_buffer file = source ->
           balance_teams_csv file num_teams time_limit num_attempts s
           = (Raise (HTTPException 500 (StrOf (KeyError pos))), s1)).
Proof.
  intros Hrun Hin Hp Hstd.
  assert (Hwf : well_formed teams).
  { unfold balanced in Hrun. apply bind_ok in Hrun.
    destruct Hrun as (buf & s2 & _ & Hrun). apply bind_ok in Hrun.
    destruct Hrun as ([] & s3 & _ & Hrun).
    apply (balance_teams_well_formed _ _ _ _ _ _ Hrun). }
  assert (Hbad : exists k l p, In (k, l) teams /\ In p l
                               /\ ~ standard_position (position p)).
  { exists k, l, p. auto. }
  destruct (respond_unknown_position teams s1 Hwf Hbad) as (pos & Hr & Hpos).
  destruct (statistics_unknown_position teams (proj2 Hwf) Hbad)
    as (pos' & Hs & _).
  assert (pos' = pos).
  { unfold respond in Hr. destruct teams; [destruct Hin|]. simpl in Hr.
    rewrite Hs in Hr. simpl in Hr. unfold raise in Hr. congruence. }
  subst pos'. exists pos. split; [exact Hpos|]. split; [exact Hs|].
  split.
  - intros request_players <-. unfold balance_teams_json, try_except.
    rewrite (handler_body_run _ _ _ _ _ _ _ Hrun), Hr. reflexivity.
  - intros file <-. unfold balance_teams_csv, try_except.
    rewrite (handler_body_run _ _ _ _ _ _ _ Hrun), Hr. reflexivity.
Qed.

Lemma unknown_position_gives_http_500_witness :
  let teams := Demo.got [] (fst Demo.balanced_gk) in
  exists pos,
    ~ standard_position pos
    /\ statistics teams = Raise (KeyError pos)
    /\ (forall request_players,
           @frame_to_csv Demo.externals request_players
           = @frame_to_csv Demo.externals Demo.request_gk ->
           balance_teams_json request_players 2 30 5 (Demo.start [])
           = (Raise (HTTPException 500 (StrOf (KeyError pos))),
              snd Demo.balanced_gk))
    /\ (forall file,
           @upload_to_buffer Demo.externals file
           = @frame_to_csv Demo.externals Demo.request_gk ->
           balance_teams_csv file 2 30 5 (Demo.start [])
           = (Raise (HTTPException 500 (StrOf (KeyError pos))),
              snd Demo.balanced_gk)).
Proof.
  apply (@unknown_position_gives_http_500 Demo.externals
           (@frame_to_csv Demo.externals Demo.request_gk) 2 30 5
           (Demo.start [])
           (snd Demo.balanced_gk) (Demo.got [] (fst Demo.balanced_gk))
           0 (get0 (Demo.got [] (fst Demo.balanced_gk)) 0)
           (Demo.P "g1" 3 "GK")).
  - vm_compute. reflexivity.
  - vm_compute. left. reflexivity.
  - vm_compute. do 6 right. left. reflexivity.
  - vm_compute. intros [H|[H|[H|[]]]]; discriminate.
Defined.

(** ** The statistics as a function of the assignment *)

Lemma insert_item_sorted x l :
  StronglySorted key_le l -> StronglySorted key_le (insert_item x l).
Proof.
  induction 1 as [|y l Hs IH Hall]; simpl.
  - constructor; constructor.
  - destruct (Nat.leb_spec (fst x) (fst y)) as [Hle|Hlt].
    + constructor; [constructor; assumption|].
      constructor; [exact Hle|].
      eapply Forall_impl; [|exact Hall].
      intros z Hz. unfold key_le in *. lia.
    + constructor; [exact IH|].
      apply (Permutation_Forall (Permutation_sym (insert_item_perm x l))).
      constructor; [unfold key_le; lia | exact Hall].
Qed.

Lemma sorted_items_sorted teams : StronglySorted key_le (sorted_items teams).
Proof.
  induction teams as [|x teams IH]; simpl; [constructor|].
  apply insert_item_sorted. exact IH.
Qed.

Lemma sorted_unique (l1 l2 : Teams) :
  StronglySorted key_le l1 ->
  StronglySorted key_le l2 ->
  NoDup (keys l1) ->
  Permutation l1 l2 ->
  l1 = l2.
Proof.
  intros H1. revert l2.
  induction H1 as [|x l1 Hs1 IH Hall1]; intros l2 H2 Hnd Hp.
  - apply Permutation_nil in Hp. subst. reflexivity.
  - destruct l2 as [|y l2].
    { apply Permutation_sym, Permutation_nil in Hp. discriminate. }
    inversion H2 as [|? ? Hs2 Hall2]; subst.
    inversion Hnd as [|? ? Hnotin Hnd1]; subst.
    assert (Hxy : x = y).
    { assert (Hx : In x (y :: l2))
        by (apply (Permutation_in _ Hp); left; reflexivity).
      assert (Hy : In y (x :: l1))
        by (apply (Permutation_in _ (Permutation_sym Hp)); left; reflexivity).
      destruct Hx as [Hx|Hx]; [congruence|].
      destruct Hy as [Hy|Hy]; [congruence|].
      rewrite Forall_forall in Hall1, Hall2.
      pose proof (Hall1 y Hy) as Hle1. pose proof (Hall2 x Hx) as Hle2.
      unfold key_le in *. exfalso. apply Hnotin.
      replace (fst x) with (fst y) by lia.
      unfold keys. apply in_map. exact Hy. }
    subst y. f_equal. apply IH; [exact Hs2 | exact Hnd1|].
    apply (Permutation_cons_inv Hp).
Qed.

Lemma sorted_items_canonical teams teams' :
  NoDup (keys teams) ->
  Permutation teams teams' ->
  sorted_items teams = sorted_items teams'.
Proof.
  intros Hnd Hp. apply sorted_unique.
  - apply sorted_items_sorted.
  - apply sorted_items_sorted.
  - unfold keys.
    apply (Permutation_NoDup
             (Permutation_map fst (Permutation_sym (sorted_items_perm teams)))).
    exact Hnd.
  - rewrite sorted_items_perm, Hp. symmetry. apply sorted_items_perm.
Qed.

(** ** The statistics on objects *)

Lemma heap_bind_ok {A B} (m : Objects.H A) (f : A -> Objects.H B) g a g' :
  m g = Some (Ok a, g') -> Objects.bind m f g = f a g'.
Proof. unfold Objects.bind. intros ->. reflexivity. Qed.

Lemma heap_bind_raise {A B} (m : Objects.H A) (f : A -> Objects.H B) g e g' :
  m g = Some (Raise e, g') -> Objects.bind m f g = Some (Raise e, g').
Proof. unfold Objects.bind. intros ->. reflexivity. Qed.

Lemma nth_error_ext {A} (h l : list A) r o :
  nth_error h r = Some o -> nth_error (h ++ l) r = Some o.
Proof.
  intros H. rewrite nth_error_app1; [exact H|].
  apply nth_error_Some. congruence.
Qed.

Lemma nth_error_end {A} (h : list A) x l :
  nth_error (h ++ x :: l) (List.length h) = Some x.
Proof.
  rewrite nth_error_app2 by lia. rewrite Nat.sub_diag. reflexivity.
Qed.

Lemma update_app h x rest o :
  Objects.update (h ++ x :: rest) (List.length h) o = Some (h ++ o :: rest).
Proof.
  induction h as [|y h IH]; simpl; [reflexivity|]. rewrite IH. reflexivity.
Qed.

(** *** Values are read alike in a longer heap *)

Lemma player_at_ext h l r p :
  Objects.player_at h r = Some p -> Objects.player_at (h ++ l) r = Some p.
Proof.
  unfold Objects.player_at. destruct (nth_error h r) as [o|] eqn:Hn; [|discriminate].
  rewrite (nth_error_ext h l r o Hn). auto.
Qed.

Lemma players_of_ext h l rs ps :
  Objects.players_of h rs = Some ps -> Objects.players_of (h ++ l) rs = Some ps.
Proof.
  revert ps. induction rs as [|r rs IH]; intros ps; simpl; [auto|].
  destruct (Objects.player_at h r) as [p|] eqn:Hp; [|discriminate].
  destruct (Objects.players_of h rs) as [ps'|]; [|discriminate].
  intros H. rewrite (player_at_ext h l r p Hp), (IH ps' eq_refl). exact H.
Qed.

Lemma list_at_ext h l r rs :
  Objects.list_at h r = Some rs -> Objects.list_at (h ++ l) r = Some rs.
Proof.
  unfold Objects.list_at. destruct (nth_error h r) as [o|] eqn:Hn; [|discriminate].
  rewrite (nth_error_ext h l r o Hn). auto.
Qed.

Lemma players_at_ext h l r ps :
  Objects.players_at h r = Some ps -> Objects.players_at (h ++ l) r = Some ps.
Proof.
  unfold Objects.players_at. destruct (Objects.list_at h r) as [rs|] eqn:Hl; [|discriminate].
  rewrite (list_at_ext h l r rs Hl). apply players_of_ext.
Qed.

Lemma items_of_ext h l d ts :
  Objects.items_of h d = Some ts -> Objects.items_of (h ++ l) d = Some ts.
Proof.
  revert ts. induction d as [|[k r] d IH]; intros ts; simpl; [auto|].
  destruct (Objects.players_at h r) as [ps|] eqn:Hp; [|discriminate].
  destruct (Objects.items_of h d) as [ts'|]; [|discriminate].
  intros H. rewrite (players_at_ext h l r ps Hp), (IH ts' eq_refl). exact H.
Qed.

Lemma teams_at_ext h l t ts :
  Objects.teams_at h t = Some ts -> Objects.teams_at (h ++ l) t = Some ts.
Proof.
  unfold Objects.teams_at. destruct (nth_error h t) as [o|] eqn:Hn; [|discriminate].
  rewrite (nth_error_ext h l t o Hn). destruct o; try discriminate.
  apply items_of_ext.
Qed.

Lemma players_of_length h rs ps :
  Objects.players_of h rs = Some ps -> len ps = len rs.
Proof.
  revert ps. induction rs as [|r rs IH]; intros ps; simpl.
  - intros H. inversion H. reflexivity.
  - destruct (Objects.player_at h r); [|discriminate].
    destruct (Objects.players_of h rs) as [ps'|]; [|discriminate].
    intros H. inversion H; subst. specialize (IH ps' eq_refl).
    unfold len in *. simpl. lia.
Qed.

Lemma players_of_app h rs rs' ps ps' :
  Objects.players_of h rs = Some ps -> Objects.players_of h rs' = Some ps' ->
  Objects.players_of h (rs ++ rs') = Some (ps ++ ps').
Proof.
  revert ps. induction rs as [|r rs IH]; intros ps; simpl.
  - intros H. inversion H. auto.
  - destruct (Objects.player_at h r); [|discriminate].
    destruct (Objects.players_of h rs) as [ps0|]; [|discriminate].
    intros H H'. inversion H; subst. rewrite (IH ps0 eq_refl H').
    reflexivity.
Qed.

(** *** Reads *)

Lemma get_player_run g r p :
  Objects.player_at g r = Some p -> Objects.get_player r g = Some (Ok p, g).
Proof.
  unfold Objects.player_at, Objects.get_player, Objects.bind, Objects.load.
  destruct (nth_error g r) as [[]|]; try discriminate.
  intros H. inversion H. reflexivity.
Qed.

Lemma get_list_run g r l :
  Objects.list_at g r = Some l -> Objects.get_list r g = Some (Ok l, g).
Proof.
  unfold Objects.list_at, Objects.get_list, Objects.bind, Objects.load.
  destruct (nth_error g r) as [[]|]; try discriminate.
  intros H. inversion H. reflexivity.
Qed.

Lemma collect_players_run g rs ps :
  Objects.players_of g rs = Some ps -> Objects.collect rs Objects.get_player g = Some (Ok ps, g).
Proof.
  revert ps. induction rs as [|r rs IH]; intros ps; simpl.
  - intros H. inversion H. reflexivity.
  - destruct (Objects.player_at g r) as [p|] eqn:Hp; [|discriminate].
    destruct (Objects.players_of g rs) as [ps'|]; [|discriminate].
    intros H. inversion H; subst.
    rewrite (heap_bind_ok _ _ _ _ _ (get_player_run g r p Hp)).
    rewrite (heap_bind_ok _ _ _ _ _ (IH ps' eq_refl)). reflexivity.
Qed.

Lemma get_players_run g r rs ps :
  Objects.list_at g r = Some rs -> Objects.players_of g rs = Some ps ->
  Objects.get_players r g = Some (Ok ps, g).
Proof.
  intros Hl Hp. unfold Objects.get_players.
  rewrite (heap_bind_ok _ _ _ _ _ (get_list_run g r rs Hl)).
  apply collect_players_run. exact Hp.
Qed.

Lemma list_len_run g r rs :
  Objects.list_at g r = Some rs -> Objects.list_len r g = Some (Ok (len rs), g).
Proof.
  intros Hl. unfold Objects.list_len.
  rewrite (heap_bind_ok _ _ _ _ _ (get_list_run g r rs Hl)). reflexivity.
Qed.

(** *** The counting loop of lines 99-100, on the newest object *)

Lemma count_run pre rs :
  forall d ps,
    Objects.players_of pre rs = Some ps ->
    exists d',
      Objects.for_each rs (fun p => Objects.bind (Objects.get_player p)
                              (fun pl => Objects.incr (List.length pre)
                                              (position pl)))
               (pre ++ [Objects.CountsObj d])
      = Some (match count_positions d ps with
              | Ok _ => Ok tt
              | Raise e => Raise e
              end, pre ++ [Objects.CountsObj d'])
      /\ (forall dd, count_positions d ps = Ok dd -> d' = dd).
Proof.
  induction rs as [|r rs IH]; intros d ps; simpl.
  - intros H. inversion H; subst. simpl. exists d.
    split; [reflexivity|]. intros dd Hdd. inversion Hdd. reflexivity.
  - destruct (Objects.player_at pre r) as [p|] eqn:Hp; [|discriminate].
    destruct (Objects.players_of pre rs) as [ps'|] eqn:Hps; [|discriminate].
    intros H. inversion H; subst. clear H. simpl.
    assert (Hget : Objects.get_player r (pre ++ [Objects.CountsObj d])
                   = Some (Ok p, pre ++ [Objects.CountsObj d])).
    { apply get_player_run, player_at_ext. exact Hp. }
    unfold Objects.bind at 1. unfold Objects.bind at 1. rewrite Hget.
    unfold Objects.incr, Objects.bind at 1, Objects.load. rewrite nth_error_end.
    destruct (dict_incr d (position p)) as [d1|e] eqn:Hincr; simpl.
    + unfold Objects.bind at 1. simpl. unfold Objects.store.
      rewrite update_app. apply (IH d1 ps' eq_refl).
    + exists d. split; [reflexivity | discriminate].
Qed.

(** *** The heap during the loop over the teams *)

Lemma during_alloc h acc outs cs o :
  during h acc outs cs ++ [o] = during h acc outs (cs ++ [o]).
Proof. unfold during. rewrite <- app_assoc. reflexivity. Qed.

Lemma during_all h acc outs cs :
  Objects.list_at (during h acc outs cs) (List.length h) = Some acc.
Proof. unfold Objects.list_at, during. rewrite nth_error_end. reflexivity. Qed.

Lemma during_split h acc outs cs :
  during h acc outs cs = (h ++ [Objects.ListObj acc]) ++ Objects.OutputsObj outs :: cs.
Proof. unfold during. rewrite <- app_assoc. reflexivity. Qed.

Lemma during_outputs h acc outs cs :
  nth_error (during h acc outs cs) (S (List.length h))
  = Some (Objects.OutputsObj outs).
Proof.
  rewrite during_split.
  replace (S (List.length h)) with (List.length (h ++ [Objects.ListObj acc]))
    by (rewrite length_app; simpl; lia).
  apply nth_error_end.
Qed.

Lemma during_store_all h acc outs cs acc' :
  Objects.store (List.length h) (Objects.ListObj acc') (during h acc outs cs)
  = Some (Ok tt, during h acc' outs cs).
Proof. unfold Objects.store, during. rewrite update_app. reflexivity. Qed.

Lemma during_store_outputs h acc outs cs outs' :
  Objects.store (S (List.length h)) (Objects.OutputsObj outs') (during h acc outs cs)
  = Some (Ok tt, during h acc outs' cs).
Proof.
  unfold Objects.store. rewrite !during_split.
  replace (S (List.length h)) with (List.length (h ++ [Objects.ListObj acc]))
    by (rewrite length_app; simpl; lia).
  rewrite update_app. reflexivity.
Qed.

(** One team: the body of the loop does to the heap what [team_output]
    says, and touches only [all_players], [team_outputs] and its own
    [pos_dist]. *)
Lemma team_output_run h acc outs cs k r rs ps :
  Objects.list_at h r = Some rs ->
  Objects.players_of h rs = Some ps ->
  exists outs' cs',
    Objects.team_output (List.length h) (S (List.length h)) (k, r)
                        (during h acc outs cs)
    = Some (match team_output (k, ps) with
            | Ok _ => Ok tt
            | Raise e => Raise e
            end, during h (acc ++ rs) outs' cs')
    /\ (forall t, team_output (k, ps) = Ok t -> outs' = outs ++ [t]).
Proof.
  intros Hl Hp. unfold Objects.team_output. simpl fst. simpl snd.
  assert (Hl' : forall a o c, Objects.list_at (during h a o c) r = Some rs).
  { intros. apply list_at_ext. exact Hl. }
  assert (Hp' : forall a o c, Objects.players_of (during h a o c) rs = Some ps).
  { intros. apply players_of_ext. exact Hp. }
  (* all_players.extend(players) *)
  assert (Hext : Objects.extend (List.length h) r (during h acc outs cs)
                 = Some (Ok tt, during h (acc ++ rs) outs cs)).
  { unfold Objects.extend.
    rewrite (heap_bind_ok _ _ _ _ _ (get_list_run _ _ _ (Hl' acc outs cs))).
    rewrite (heap_bind_ok _ _ _ _ _
               (get_list_run _ _ _ (during_all h acc outs cs))).
    apply during_store_all. }
  rewrite (heap_bind_ok _ _ _ _ _ Hext).
  rewrite (heap_bind_ok _ _ _ _ _
             (get_players_run _ _ _ _ (Hl' _ _ _) (Hp' _ _ _))).
  rewrite (heap_bind_ok _ _ _ _ _ (list_len_run _ _ _ (Hl' _ _ _))).
  unfold team_output. simpl snd. simpl fst.
  rewrite (players_of_length h rs ps Hp).
  destruct (py_truediv (sum_overall ps) (len rs)) as [avg|]; simpl.
  2:{ exists outs, cs. split; [reflexivity | discriminate]. }
  unfold Objects.bind at 1. simpl.
  unfold Objects.bind at 1. unfold Objects.alloc.
  rewrite during_alloc.
  assert (Hlen : List.length (during h (acc ++ rs) outs cs)
                 = List.length (during h (acc ++ rs) outs cs)) by reflexivity.
  rewrite (heap_bind_ok _ _ _ _ _ (get_list_run _ _ _ (Hl' _ _ _))).
  rewrite <- during_alloc.
  destruct (count_run (during h (acc ++ rs) outs cs) rs pos_dist_init ps
              (Hp' _ _ _)) as (d' & Hcount & Hd').
  unfold Objects.bind at 1. rewrite Hcount.
  destruct (count_positions pos_dist_init ps) as [d|e] eqn:Hd.
  2:{ rewrite during_alloc. eexists. eexists.
      split; [reflexivity | discriminate]. }
  rewrite (Hd' d eq_refl). rewrite during_alloc.
  rewrite (heap_bind_ok _ _ _ _ _
             (get_players_run _ _ _ _ (Hl' _ _ _) (Hp' _ _ _))).
  assert (Hcounts : Objects.get_counts (List.length (during h (acc ++ rs) outs cs))
                               (during h (acc ++ rs) outs (cs ++ [Objects.CountsObj d]))
                    = Some (Ok d, during h (acc ++ rs) outs
                                         (cs ++ [Objects.CountsObj d]))).
  { unfold Objects.get_counts, Objects.bind, Objects.load.
    rewrite <- during_alloc, nth_error_end. reflexivity. }
  rewrite (heap_bind_ok _ _ _ _ _ Hcounts).
  unfold Objects.append_output, Objects.bind, Objects.load. rewrite during_outputs.
  rewrite during_store_outputs.
  eexists. eexists. split; [reflexivity|].
  intros t Ht. inversion Ht. reflexivity.
Qed.

Lemma insert_item_at h k r ps d ts :
  Objects.players_at h r = Some ps ->
  Objects.items_of h d = Some ts ->
  Objects.items_of h (Objects.insert_item (k, r) d) = Some (insert_item (k, ps) ts).
Proof.
  intros Hr. revert ts. induction d as [|[k' r'] d IH]; intros ts; simpl.
  - intros H. inversion H; subst. simpl. rewrite Hr. reflexivity.
  - destruct (Objects.players_at h r') as [ps'|] eqn:Hr'; [|discriminate].
    destruct (Objects.items_of h d) as [ts'|] eqn:Hd; [|discriminate].
    intros H. inversion H; subst. simpl.
    destruct (Nat.leb k k'); simpl.
    + rewrite Hr, Hr', Hd. reflexivity.
    + rewrite Hr', (IH ts' eq_refl). reflexivity.
Qed.

Lemma sorted_items_at h d ts :
  Objects.items_of h d = Some ts ->
  Objects.items_of h (Objects.sorted_items d) = Some (sorted_items ts).
Proof.
  revert ts. induction d as [|[k r] d IH]; intros ts; simpl.
  - intros H. inversion H. reflexivity.
  - destruct (Objects.players_at h r) as [ps|] eqn:Hr; [|discriminate].
    destruct (Objects.items_of h d) as [ts'|]; [|discriminate].
    intros H. inversion H; subst. simpl.
    apply insert_item_at; [exact Hr | apply IH; reflexivity].
Qed.

(** The loop over the sorted teams. *)
Lemma team_loop_run h :
  forall d ts acc accp outs cs,
    Objects.items_of h d = Some ts ->
    Objects.players_of h acc = Some accp ->
    exists acc' outs' cs',
      Objects.for_each d (Objects.team_output (List.length h) (S (List.length h)))
               (during h acc outs cs)
      = Some (match team_outputs ts with
              | Ok _ => Ok tt
              | Raise e => Raise e
              end, during h acc' outs' cs')
      /\ (forall os, team_outputs ts = Ok os ->
            outs' = outs ++ os
            /\ Objects.players_of h acc' = Some (accp ++ List.concat (values ts))).
Proof.
  induction d as [|[k r] d IH]; intros ts acc accp outs cs; simpl.
  - intros H Hacc. inversion H; subst. simpl. exists acc, outs, cs.
    split; [reflexivity|]. intros os Hos. inversion Hos.
    rewrite !app_nil_r. auto.
  - unfold Objects.players_at.
    destruct (Objects.list_at h r) as [rs|] eqn:Hl; [|discriminate].
    destruct (Objects.players_of h rs) as [ps|] eqn:Hp; [|discriminate].
    destruct (Objects.items_of h d) as [ts'|] eqn:Hd; [|discriminate].
    intros H Hacc. inversion H; subst. clear H. simpl.
    destruct (team_output_run h acc outs cs k r rs ps Hl Hp)
      as (outs1 & cs1 & Hrun & Houts1).
    unfold Objects.bind at 1. rewrite Hrun.
    destruct (team_output (k, ps)) as [t|e] eqn:Ht.
    2:{ eexists. eexists. eexists. split; [reflexivity | discriminate]. }
    rewrite (Houts1 t eq_refl).
    destruct (IH ts' (acc ++ rs) (accp ++ ps) (outs ++ [t]) cs1 eq_refl
                (players_of_app _ _ _ _ _ Hacc Hp))
      as (acc' & outs' & cs' & Hloop & Hres).
    rewrite Hloop. exists acc', outs', cs'.
    destruct (team_outputs ts') as [os|e]; [|split; [reflexivity|discriminate]].
    split; [reflexivity|]. intros os' Hos. inversion Hos; subst.
    destruct (Hres os eq_refl) as [-> Hacc'].
    split; [rewrite <- app_assoc; reflexivity|].
    rewrite Hacc'. unfold values. simpl. rewrite <- app_assoc. reflexivity.
Qed.

(** The statistics on objects compute the function [statistics] of the
    assignment the dictionary holds, and leave every object that was
    there as it was: the heap after the run is the heap before it
    followed by new objects. *)
Lemma statistics_run h t teams :
  Objects.teams_at h t = Some teams ->
  exists new,
    Objects.statistics t h = Some (statistics teams, h ++ new).
Proof.
  unfold Objects.teams_at. destruct (nth_error h t) as [o|] eqn:Hn; [|discriminate].
  destruct o as [| |d| |]; try discriminate. intros Hitems.
  unfold Objects.statistics.
  unfold Objects.bind at 1. unfold Objects.alloc at 1.
  unfold Objects.bind at 1. unfold Objects.alloc at 1.
  replace ((h ++ [Objects.ListObj []]) ++ [Objects.OutputsObj []])
    with (during h [] [] []) by (unfold during; rewrite <- app_assoc; auto).
  replace (List.length (h ++ [Objects.ListObj []])) with (S (List.length h))
    by (rewrite length_app; simpl; lia).
  assert (Hdict : Objects.dict_items t (during h [] [] [])
                  = Some (Ok d, during h [] [] [])).
  { unfold Objects.dict_items, Objects.bind, Objects.load, during.
    rewrite (nth_error_ext h _ t _ Hn). reflexivity. }
  rewrite (heap_bind_ok _ _ _ _ _ Hdict).
  destruct (team_loop_run h (Objects.sorted_items d) (sorted_items teams)
              [] [] [] [] (sorted_items_at h d teams Hitems) eq_refl)
    as (acc' & outs' & cs' & Hloop & Hres).
  unfold Objects.bind at 1. rewrite Hloop. unfold statistics.
  destruct (team_outputs (sorted_items teams)) as [os|e].
  2:{ eexists. unfold during. reflexivity. }
  destruct (Hres os eq_refl) as [-> Hacc']. simpl app in *.
  assert (Hacc'' : Objects.players_of (during h acc' os cs') acc'
                   = Some (List.concat (values (sorted_items teams)))).
  { apply players_of_ext. exact Hacc'. }
  rewrite (heap_bind_ok _ _ _ _ _
             (get_players_run _ _ _ _ (during_all h acc' os cs') Hacc'')).
  rewrite (heap_bind_ok _ _ _ _ _
             (list_len_run _ _ _ (during_all h acc' os cs'))).
  rewrite <- (players_of_length _ _ _ Hacc').
  destruct (py_truediv _ _) as [mean|]; simpl.
  2:{ eexists. unfold during. reflexivity. }
  unfold Objects.bind at 1. simpl.
  unfold Objects.get_outputs, Objects.bind at 1, Objects.bind at 1, Objects.load.
  rewrite during_outputs. unfold Objects.bind, during. simpl.
  destruct (spread (map average_rating os)) as [md|e]; simpl;
    eexists; reflexivity.
Qed.

(** C9: the statistics are a function of the assignment and change
    nothing.  Run on a heap whose dictionary at [t] holds the assignment
    [teams], the code of lines 88-119 returns [statistics teams] (a
    response or an exception); every object of the heap, so every
    [Player], every team list and the dictionary, is afterwards what it
    was (the run only adds objects); the dictionary still holds [teams];
    a second run returns the same statistics; and so does a run on any
    dictionary, in any heap, that holds the same teams, whatever the
    order in which its keys were inserted. *)
Theorem statistics_function_of_assignment
        (h : Objects.Heap) (t : Objects.ref) (teams : Teams) :
  Objects.teams_at h t = Some teams ->
  exists h',
    Objects.statistics t h = Some (statistics teams, h')
    /\ (forall r o, nth_error h r = Some o -> nth_error h' r = Some o)
    /\ Objects.teams_at h' t = Some teams
    /\ (exists h'', Objects.statistics t h' = Some (statistics teams, h''))
    /\ (forall h2 t2 teams2,
          Objects.teams_at h2 t2 = Some teams2 ->
          NoDup (keys teams) ->
          Permutation teams teams2 ->
          exists h2', Objects.statistics t2 h2
                      = Some (statistics teams, h2')).
Proof.
  intros Hteams. destruct (statistics_run h t teams Hteams) as (new & Hrun).
  exists (h ++ new). split; [exact Hrun|].
  split; [intros r o Hr; apply nth_error_ext; exact Hr|].
  pose proof (teams_at_ext h new t teams Hteams) as Hteams'.
  split; [exact Hteams'|]. split.
  - destruct (statistics_run _ t teams Hteams') as (new' & Hrun').
    eexists. exact Hrun'.
  - intros h2 t2 teams2 Hteams2 Hnd Hp.
    destruct (statistics_run h2 t2 teams2 Hteams2) as (new2 & Hrun2).
    exists (h2 ++ new2). rewrite Hrun2. do 2 f_equal.
    unfold statistics.
    rewrite (sorted_items_canonical teams teams2 Hnd Hp). reflexivity.
Qed.

Lemma statistics_function_of_assignment_witness :
  let h := Objects.demo_heap in
  let teams := [(1, [mkPlayer "a1" 2 "ATT"; mkPlayer "d2" 3 "DEF"]);
                (0, [mkPlayer "d1" 4 "DEF"; mkPlayer "m1" 3 "MID"])] in
  exists h',
    Objects.statistics 6 h = Some (statistics teams, h')
    /\ (forall r o, nth_error h r = Some o -> nth_error h' r = Some o)
    /\ Objects.teams_at h' 6 = Some teams
    /\ (exists h'', Objects.statistics 6 h' = Some (statistics teams, h''))
    /\ (forall h2 t2 teams2,
          Objects.teams_at h2 t2 = Some teams2 ->
          NoDup (keys teams) ->
          Permutation teams teams2 ->
          exists h2', Objects.statistics t2 h2
                      = Some (statistics teams, h2')).
Proof.
  apply (statistics_function_of_assignment Objects.demo_heap 6).
  reflexivity.
Defined.

(** * Further properties of the code *)

(** ** Calls of the solver *)

Section Calls.

Context {E : Externals}.

Lemma calls_ret {A} (a : A) : calls 0 (ret a).
Proof. intros s. simpl. lia. Qed.

Lemma calls_raise {A} (e : exn) : calls 0 (@raise E A e).
Proof. intros s. simpl. lia. Qed.

Lemma calls_bind {A B} n k (m : M A) (f : A -> M B) :
  calls n m -> (forall a, calls k (f a)) -> calls (n + k) (bind m f).
Proof.
  intros Hm Hf s. unfold bind. specialize (Hm s).
  destruct (m s) as [[a|e] s1].
  - specialize (Hf a s1). destruct (f a s1) as [[b|e] s2]; lia.
  - lia.
Qed.

Lemma calls_or_raise {A} (o : option A) e : calls 0 (or_raise o e).
Proof. destruct o; [apply calls_ret | apply calls_raise]. Qed.

Lemma calls_lift {A} (r : result A) : calls 0 (lift r).
Proof. destruct r; [apply calls_ret | apply calls_raise]. Qed.

Lemma calls_get_players : calls 0 get_players.
Proof. intros s. simpl. lia. Qed.

Lemma calls_shuffle_players : calls 0 shuffle_players.
Proof.
  intros s. unfold shuffle_players.
  destruct (random_shuffle (world s) (players s)). simpl. lia.
Qed.

Lemma calls_uniform a b : calls 0 (uniform a b).
Proof.
  intros s. unfold uniform.
  destruct (random_uniform (world s) a b). simpl. lia.
Qed.

Lemma calls_solve prob t : calls 1 (solve prob t).
Proof.
  intros s. unfold solve.
  destruct (cbc_solve (world s) prob t) as [[sol|e] w]; simpl; lia.
Qed.

Lemma calls_rating_loop ps target threshold js :
  calls 0 (rating_loop ps target threshold js).
Proof.
  induction js as [|j js IH]; simpl.
  - apply calls_ret.
  - apply (calls_bind 0 0); [apply calls_uniform | intros u1].
    apply (calls_bind 0 0); [apply calls_uniform | intros u2].
    apply (calls_bind 0 0); [exact IH | intros rest; apply calls_ret].
Qed.

Lemma calls_try_balance num_teams t threshold :
  calls 1 (_try_balance_teams num_teams t threshold).
Proof.
  unfold _try_balance_teams, build_and_solve, build_problem.
  apply (calls_bind 0 1); [apply calls_get_players | intros ps].
  apply (calls_bind 1 0).
  - apply (calls_bind 0 1); [|intros prob; apply calls_solve].
    apply (calls_bind 0 0); [apply calls_or_raise | intros target].
    apply (calls_bind 0 0); [apply calls_rating_loop | intros dev].
    apply calls_ret.
  - intros sol. destruct (usable (status sol)); [|apply calls_ret].
    apply (calls_bind 0 0); [apply calls_lift | intros d; apply calls_ret].
Qed.

Lemma calls_attempt num_teams t k best :
  calls 1 (attempt num_teams t k best).
Proof.
  unfold attempt.
  apply (calls_bind 0 1); [apply calls_shuffle_players | intros _].
  apply (calls_bind 0 1); [apply calls_or_raise | intros per].
  apply (calls_bind 1 0); [apply calls_try_balance | intros r].
  apply calls_ret.
Qed.

Lemma calls_attempts n num_teams t k best :
  calls n (attempts n num_teams t k best).
Proof.
  revert best. induction n as [|n IH]; intros best; simpl attempts.
  - apply calls_ret.
  - apply (calls_bind 1 n); [apply calls_attempt | intros b; apply IH].
Qed.

End Calls.

(** X1: [balance_teams] calls the solver once per attempt and nowhere
    else: whatever happens, at most [max(0, num_attempts)] calls are made,
    and a run that returns after the divisibility check passed has made
    exactly that many. *)
Theorem solver_called_once_per_attempt {E : Externals}
        (num_teams time_limit num_attempts : Z) (s : State) :
  let out := balance_teams num_teams time_limit num_attempts s in
  solver_calls (snd out) <= solver_calls s + Z.to_nat num_attempts
  /\ (forall teams,
         fst out = Ok teams ->
         py_mod (len (players s)) num_teams = Some 0%Z ->
         solver_calls (snd out) = solver_calls s + Z.to_nat num_attempts).
Proof.
  unfold balance_teams, balance_teams_best, bind, get_players.
  destruct (py_mod (len (players s)) num_teams) as [r|]; simpl.
  - destruct (Z.eqb_spec r 0) as [->|Hr]; simpl.
    + pose proof (calls_attempts (Z.to_nat num_attempts) num_teams
                    time_limit num_attempts ([], Infinity) s) as Hc.
      destruct (attempts _ _ _ _ _ s) as [[b|e] s1]; simpl.
      * split; [lia | intros; exact Hc].
      * split; [exact Hc | discriminate].
    + split; [lia|]. intros teams _ H. inversion H. congruence.
  - split; [lia | discriminate].
Qed.

(** ** Team counts and rosters that cannot give teams *)

Lemma extract_teams_no_range sol num_teams ps :
  (num_teams <= 0)%Z -> extract_teams sol num_teams ps = [].
Proof.
  intros H. apply extract_teams_none. intros i j _ Hj.
  unfold range in Hj. replace (Z.to_nat num_teams) with 0 in Hj by lia.
  destruct Hj.
Qed.

(** X2: a team count that is not positive never gives teams: with
    [num_teams = 0] the divisibility test raises [ZeroDivisionError] before
    anything else happens, and with a negative count every run that returns
    returns the empty dictionary. *)
Theorem nonpositive_team_count_yields_no_teams {E : Externals}
        (num_teams time_limit num_attempts : Z) (s : State) :
  (num_teams <= 0)%Z ->
  (forall teams s',
      balance_teams num_teams time_limit num_attempts s = (Ok teams, s') ->
      teams = [])
  /\ (num_teams = 0%Z ->
      balance_teams num_teams time_limit num_attempts s
      = (Raise ZeroDivisionError, s)).
Proof.
  intros Hneg. split.
  - intros teams s' Hrun. apply balance_teams_ok in Hrun.
    destruct Hrun as (d & Hrun).
    apply (balance_teams_best_invariant
             (fun _ _ => True) (fun _ b => fst b = []) num_teams)
      with (t := time_limit) (k := num_attempts) (s := s)
           (best := (teams, d)) (s' := s'); auto.
    intros per s0 r s0' Htry _. apply try_balance_ok in Htry.
    destruct Htry as (sol & _ & [[_ ->]|(_ & _ & ->)]); [reflexivity|].
    apply extract_teams_no_range. exact Hneg.
  - intros ->. reflexivity.
Qed.

Lemma nonpositive_team_count_yields_no_teams_witness :
  (forall teams s',
      balance_teams (-2) 30 5 (Demo.start Demo.roster) = (Ok teams, s') ->
      teams = [])
  /\ ((-2 = 0)%Z ->
      balance_teams (-2) 30 5 (Demo.start Demo.roster)
      = (Raise ZeroDivisionError, Demo.start Demo.roster)).
Proof.
  apply (@nonpositive_team_count_yields_no_teams Demo.externals).
  lia.
Defined.

(** X3: with an empty roster, every run of [balance_teams] that returns
    returns the empty dictionary, whatever the solver answers. *)
Theorem empty_roster_yields_no_teams {E : Externals}
        (num_teams time_limit num_attempts : Z) (s s' : State)
        (teams : Teams) :
  ShuffleContract E ->
  players s = [] ->
  balance_teams num_teams time_limit num_attempts s = (Ok teams, s') ->
  teams = [].
Proof.
  intros Hshuffle Hempty Hrun. apply balance_teams_ok in Hrun.
  destruct Hrun as (d & Hrun).
  apply (balance_teams_best_invariant
           (@Permutation Player) (fun ps b => ps = [] -> fst b = [])
           num_teams
           (@Permutation_refl _) (@Permutation_sym _) (@Permutation_trans _)
           (fun w l => Permutation_sym (Hshuffle w l)))
    with (t := time_limit) (k := num_attempts) (s := s)
         (best := (teams, d)) (s' := s'); auto.
  - intros ps ps' b Hp Hb ->. apply Hb.
    apply Permutation_sym, Permutation_nil in Hp. exact Hp.
  - intros per s0 r s0' Htry _ Hps. apply try_balance_ok in Htry.
    destruct Htry as (sol & _ & [[_ ->]|(_ & _ & ->)]); [reflexivity|].
    rewrite Hps. reflexivity.
Qed.

Lemma empty_roster_yields_no_teams_witness :
  Demo.got [(0, [])] (fst (balance_teams 2 30 5 (Demo.start []))) = [].
Proof.
  apply (@empty_roster_yields_no_teams Demo.externals 2 30 5
           (Demo.start [])
           (snd (balance_teams 2 30 5 (Demo.start [])))).
  - exact demo_shuffle_contract.
  - reflexivity.
  - vm_compute. reflexivity.
Defined.

(** ** Maximum and minimum *)

Lemma py_max_In x xs : In (py_max x xs) (x :: xs).
Proof.
  unfold py_max. revert x. induction xs as [|y xs IH]; intros x; simpl.
  - left. reflexivity.
  - destruct (Qlt_le_dec x y).
    + right. apply IH.
    + destruct (IH x) as [H|H]; [left; exact H | right; right; exact H].
Qed.

Lemma py_min_In x xs : In (py_min x xs) (x :: xs).
Proof.
  unfold py_min. revert x. induction xs as [|y xs IH]; intros x; simpl.
  - left. reflexivity.
  - destruct (Qlt_le_dec y x).
    + right. apply IH.
    + destruct (IH x) as [H|H]; [left; exact H | right; right; exact H].
Qed.

Lemma py_max_ge x xs y : In y (x :: xs) -> (y <= py_max x xs)%Q.
Proof.
  unfold py_max. revert x y.
  assert (Hmono : forall l m,
             (m <= fold_left (fun m y => if Qlt_le_dec m y then y else m)
                             l m)%Q).
  { induction l as [|z l IH]; intros m; simpl; [apply Qle_refl|].
    destruct (Qlt_le_dec m z) as [Hlt|Hle]; [|apply IH].
    eapply Qle_trans; [apply Qlt_le_weak; exact Hlt | apply IH]. }
  induction xs as [|z xs IH]; intros x y Hy; simpl.
  - destruct Hy as [<-|[]]. apply Qle_refl.
  - destruct (Qlt_le_dec x z) as [Hlt|Hle].
    + destruct Hy as [<-|Hy]; [|apply IH; exact Hy].
      eapply Qle_trans; [apply Qlt_le_weak; exact Hlt | apply Hmono].
    + destruct Hy as [<-|[<-|Hy]].
      * apply Hmono.
      * eapply Qle_trans; [exact Hle | apply Hmono].
      * apply IH. right. exact Hy.
Qed.

Lemma py_min_le x xs y : In y (x :: xs) -> (py_min x xs <= y)%Q.
Proof.
  unfold py_min. revert x y.
  assert (Hmono : forall l m,
             (fold_left (fun m y => if Qlt_le_dec y m then y else m) l m
              <= m)%Q).
  { induction l as [|z l IH]; intros m; simpl; [apply Qle_refl|].
    destruct (Qlt_le_dec z m) as [Hlt|Hle]; [|apply IH].
    eapply Qle_trans; [apply IH | apply Qlt_le_weak; exact Hlt]. }
  induction xs as [|z xs IH]; intros x y Hy; simpl.
  - destruct Hy as [<-|[]]. apply Qle_refl.
  - destruct (Qlt_le_dec z x) as [Hlt|Hle].
    + destruct Hy as [<-|Hy]; [|apply IH; exact Hy].
      eapply Qle_trans; [apply Hmono | apply Qlt_le_weak; exact Hlt].
    + destruct Hy as [<-|[<-|Hy]].
      * apply Hmono.
      * eapply Qle_trans; [apply Hmono | exact Hle].
      * apply IH. right. exact Hy.
Qed.

Lemma spread_nonneg l q : spread l = Ok q -> (0 <= q)%Q.
Proof.
  destruct l as [|x xs]; [discriminate|]. simpl. intros H.
  inversion H; subst.
  pose proof (py_max_ge x xs x (or_introl eq_refl)).
  pose proof (py_min_le x xs x (or_introl eq_refl)). lra.
Qed.

(** The spread is the same, as a number, for lists with the same
    elements. *)
Lemma spread_perm l l' q q' :
  Permutation l l' -> spread l = Ok q -> spread l' = Ok q' -> (q == q')%Q.
Proof.
  intros Hp. destruct l as [|x xs]; [discriminate|].
  destruct l' as [|x' xs']; [discriminate|]. simpl.
  intros H H'. inversion H; subst. inversion H'; subst.
  pose proof (py_max_ge x xs _ (Permutation_in _ (Permutation_sym Hp)
                                  (py_max_In x' xs'))).
  pose proof (py_max_ge x' xs' _ (Permutation_in _ Hp (py_max_In x xs))).
  pose proof (py_min_le x xs _ (Permutation_in _ (Permutation_sym Hp)
                                  (py_min_In x' xs'))).
  pose proof (py_min_le x' xs' _ (Permutation_in _ Hp (py_min_In x xs))).
  lra.
Qed.

(** ** The shape of every result *)

Lemma max_rating_diff_shape teams d :
  max_rating_diff_of teams = Ok d ->
  match d with
  | Infinity => teams = []
  | Finite q => teams <> [] /\ (0 <= q)%Q
  end.
Proof.
  unfold max_rating_diff_of. destruct teams as [|kv teams].
  - simpl. intros H. inversion H; subst. reflexivity.
  - unfold truthy.
    destruct (team_averages (values (kv :: teams))) as [avgs|];
      [|discriminate].
    destruct (spread avgs) as [q|e] eqn:Hs; [|discriminate].
    intros H. inversion H; subst. split; [discriminate|].
    apply (spread_nonneg _ _ Hs).
Qed.

(** X4: whatever the solver answers, the pair [(best_teams, best_diff)]
    that [balance_teams] ends with is coherent: the keys are distinct team
    indices below [num_teams], no team is empty, every member is a player
    of the roster, and [best_diff] is the difference between the largest
    and the smallest team average of these very teams: infinite exactly
    when there are no teams, and never negative. *)
Theorem best_result_is_coherent {E : Externals}
        (num_teams time_limit num_attempts : Z) (s s' : State)
        (teams : Teams) (d : Diff) :
  ShuffleContract E ->
  balance_teams_best num_teams time_limit num_attempts s
  = (Ok (teams, d), s') ->
  NoDup (keys teams)
  /\ (forall k, In k (keys teams) -> In k (range num_teams))
  /\ (forall k l, In (k, l) teams ->
                  l <> [] /\ forall p, In p l -> In p (players s))
  /\ max_rating_diff_of teams = Ok d
  /\ match d with
     | Infinity => teams = []
     | Finite q => teams <> [] /\ (0 <= q)%Q
     end.
Proof.
  intros Hshuffle Hrun.
  assert (H : well_formed teams
              /\ (forall k, In k (keys teams) -> In k (range num_teams))
              /\ (forall k l p, In (k, l) teams -> In p l -> In p (players s))
              /\ max_rating_diff_of teams = Ok d).
  { apply (balance_teams_best_invariant
             (@Permutation Player)
             (fun ps b =>
                well_formed (fst b)
                /\ (forall k, In k (keys (fst b)) -> In k (range num_teams))
                /\ (forall k l p, In (k, l) (fst b) -> In p l -> In p ps)
                /\ max_rating_diff_of (fst b) = Ok (snd b))
             num_teams
             (@Permutation_refl _) (@Permutation_sym _) (@Permutation_trans _)
             (fun w l => Permutation_sym (Hshuffle w l)))
      with (t := time_limit) (k := num_attempts) (s := s)
           (best := (teams, d)) (s' := s').
    - intros ps ps' b Hp (H1 & H2 & H3 & H4).
      split; [exact H1|]. split; [exact H2|]. split; [|exact H4].
      intros k l p Hin Hpl. apply (Permutation_in _ Hp).
      apply (H3 k l p Hin Hpl).
    - intros per s0 r s0' Htry _.
      destruct (try_balance_sound _ _ _ _ _ _ Htry) as (H1 & H3 & H4).
      split; [exact H1|]. split; [|split; assumption].
      apply try_balance_ok in Htry.
      destruct Htry as (sol & _ & [[_ ->]|(_ & _ & ->)]).
      + intros k [].
      + intros k Hk. apply extract_teams_keys in Hk. tauto.
    - split; [apply well_formed_nil|]. split; [intros k []|].
      split; [intros k l p []|reflexivity].
    - exact Hrun. }
  destruct H as ([Hnd Hne] & Hkeys & Hmem & Hd).
  split; [exact Hnd|]. split; [exact Hkeys|]. split.
  - intros k l Hin. split; [apply (Hne k l Hin)|].
    intros p Hp. apply (Hmem k l p Hin Hp).
  - split; [exact Hd | apply max_rating_diff_shape; exact Hd].
Qed.

Lemma best_result_is_coherent_witness :
  let s := Demo.start Demo.roster in
  let best := Demo.got Demo.nothing (fst (balance_teams_best 2 30 5 s)) in
  NoDup (keys (fst best))
  /\ (forall k, In k (keys (fst best)) -> In k (range 2))
  /\ (forall k l, In (k, l) (fst best) ->
                  l <> [] /\ forall p, In p l -> In p (players s))
  /\ max_rating_diff_of (fst best) = Ok (snd best)
  /\ match snd best with
     | Infinity => fst best = []
     | Finite q => fst best <> [] /\ (0 <= q)%Q
     end.
Proof.
  apply (@best_result_is_coherent Demo.externals 2 30 5
           (Demo.start Demo.roster)
           (snd (balance_teams_best 2 30 5 (Demo.start Demo.roster)))).
  - exact demo_shuffle_contract.
  - vm_compute. reflexivity.
Defined.

(** ** The loop as a fold over the attempts *)

Lemma Dlt_trans (a b c : Diff) : Dlt a b -> Dlt b c -> Dlt a c.
Proof.
  destruct a, b, c; simpl; auto; try tauto. apply Qlt_trans.
Qed.

Lemma Dlt_Dle_trans (a b c : Diff) : Dlt a b -> Dle b c -> Dlt a c.
Proof.
  destruct a, b, c; simpl; auto; try tauto. apply Qlt_le_trans.
Qed.

Lemma Dle_total (a b : Diff) : ~ Dlt a b -> Dle b a.
Proof.
  destruct a, b; simpl; auto; try tauto. apply Qnot_lt_le.
Qed.

Lemma not_replaces_Dle best r :
  replaces best r = false -> fst r <> [] -> Dle (snd best) (snd r).
Proof.
  intros Hrep Hne. apply Dle_total. intros Hlt.
  assert (H : replaces best r = true) by (apply replaces_spec; auto).
  congruence.
Qed.

Lemma attempts_fold {E : Externals} n num_teams t k best s :
  attempts n num_teams t k best s
  = bind (attempt_results n num_teams t k)
         (fun rs => ret (fold_left keep_best rs best)) s.
Proof.
  revert best s. induction n as [|n IH]; intros best s; simpl.
  - reflexivity.
  - unfold attempt. rewrite !bind_assoc. apply bind_ext. intros [] s1.
    rewrite !bind_assoc. apply bind_ext. intros per s2.
    rewrite !bind_assoc. apply bind_ext. intros r s3.
    rewrite (bind_eq _ _ _ _ _
               (eq_refl : ret (keep_best best r) s3
                          = (Ok (keep_best best r), s3))).
    rewrite IH, bind_assoc. apply bind_ext. intros rs s4. reflexivity.
Qed.

Lemma attempt_results_sound {E : Externals} n num_teams t k :
  forall s rs s',
    attempt_results n num_teams t k s = (Ok rs, s') ->
    List.length rs = n
    /\ forall r, In r rs -> max_rating_diff_of (fst r) = Ok (snd r).
Proof.
  induction n as [|n IH]; intros s rs s' H; simpl in H.
  - inversion H; subst. split; [reflexivity | intros r []].
  - apply bind_ok in H. destruct H as ([] & s1 & _ & H).
    apply bind_ok in H. destruct H as (per & s2 & _ & H).
    apply bind_ok in H. destruct H as (r0 & s3 & Htry & H).
    apply bind_ok in H. destruct H as (rs' & s4 & Hrest & H).
    inversion H; subst. destruct (IH _ _ _ Hrest) as [Hlen Hall].
    split; [simpl; rewrite Hlen; reflexivity|].
    intros r [<-|Hr]; [|apply Hall; exact Hr].
    apply (try_balance_sound _ _ _ _ _ _ Htry).
Qed.

(** What the fold of [keep_best] selects: nothing replaced the initial
    best, or the first result that is strictly better than the initial
    best and than everything before it, and at least as good as
    everything after it. *)
Lemma fold_keep_best_first rs :
  forall best,
    (fold_left keep_best rs best = best
     /\ forall r, In r rs -> replaces best r = false)
    \/ (exists rs1 r rs2,
           rs = rs1 ++ r :: rs2
           /\ fold_left keep_best rs best = r
           /\ fst r <> []
           /\ Dlt (snd r) (snd best)
           /\ (forall r', In r' rs1 -> fst r' <> [] ->
                          Dlt (snd r) (snd r'))
           /\ (forall r', In r' rs2 -> fst r' <> [] ->
                          Dle (snd r) (snd r'))).
Proof.
  induction rs as [|r0 rs IH]; intros best; simpl.
  - left. split; [reflexivity | intros r []].
  - destruct (keep_best_cases best r0) as [[Hrep Hk]|[Hrep Hk]]; rewrite Hk.
    + pose proof Hrep as Hspec. apply replaces_spec in Hspec.
      destruct Hspec as [Hne Hlt].
      destruct (IH r0) as [[Hfold Hall]|
                           (rs1 & r & rs2 & -> & Hfold & Hr & Hr0 & Hb & Ha)].
      * right. exists [], r0, rs. split; [reflexivity|].
        split; [exact Hfold|]. split; [exact Hne|]. split; [exact Hlt|].
        split; [intros r' []|].
        intros r' Hin Hr'. apply not_replaces_Dle; auto.
      * right. exists (r0 :: rs1), r, rs2. split; [reflexivity|].
        split; [exact Hfold|]. split; [exact Hr|].
        split; [apply (Dlt_trans _ _ _ Hr0 Hlt)|].
        split; [|exact Ha].
        intros r' [<-|Hin] Hr'; [exact Hr0 | apply Hb; assumption].
    + destruct (IH best) as [[Hfold Hall]|
                             (rs1 & r & rs2 & -> & Hfold & Hr & Hr0 & Hb & Ha)].
      * left. split; [exact Hfold|].
        intros r [<-|Hin]; [exact Hrep | apply Hall; exact Hin].
      * right. exists (r0 :: rs1), r, rs2. split; [reflexivity|].
        split; [exact Hfold|]. split; [exact Hr|]. split; [exact Hr0|].
        split; [|exact Ha].
        intros r' [<-|Hin] Hr'; [|apply Hb; assumption].
        apply (Dlt_Dle_trans _ _ _ Hr0). apply not_replaces_Dle; auto.
Qed.

(** X5: [balance_teams] returns the first best attempt.  When the
    divisibility check passes and the run returns, either every attempt
    came back empty and the result is empty, or the result is one of the
    attempts' results, strictly better than every non-empty attempt before
    it and at least as good as every non-empty attempt after it. *)
Theorem balance_teams_returns_first_minimum {E : Externals}
        (num_teams time_limit num_attempts : Z) (s s' : State)
        (best : Teams * Diff) :
  py_mod (len (players s)) num_teams = Some 0%Z ->
  balance_teams_best num_teams time_limit num_attempts s = (Ok best, s') ->
  exists rs,
    attempt_results (Z.to_nat num_attempts) num_teams time_limit
                    num_attempts s = (Ok rs, s')
    /\ List.length rs = Z.to_nat num_attempts
    /\ ((best = ([], Infinity) /\ forall r, In r rs -> fst r = [])
        \/ (exists rs1 rs2,
               rs = rs1 ++ best :: rs2
               /\ fst best <> []
               /\ (forall r, In r rs1 -> fst r <> [] ->
                             Dlt (snd best) (snd r))
               /\ (forall r, In r rs2 -> fst r <> [] ->
                             Dle (snd best) (snd r)))).
Proof.
  intros Hmod Hrun. apply balance_teams_best_ok in Hrun.
  destruct Hrun as (r & Hmod' & [(Hr & _)|(_ & Hrun)]); [congruence|].
  rewrite attempts_fold in Hrun. apply bind_ok in Hrun.
  destruct Hrun as (rs & s1 & Hrs & Hret). inversion Hret; subst.
  destruct (attempt_results_sound _ _ _ _ _ _ _ Hrs) as [Hlen Hsound].
  exists rs. split; [exact Hrs|]. split; [exact Hlen|].
  destruct (fold_keep_best_first rs ([], Infinity))
    as [[-> Hall]|(rs1 & r0 & rs2 & -> & -> & Hne & _ & Hb & Ha)].
  - left. split; [reflexivity|]. intros r0 Hin.
    specialize (Hall r0 Hin). specialize (Hsound r0 Hin).
    apply max_rating_diff_shape in Hsound.
    destruct (fst r0) as [|kv t] eqn:Ht; [reflexivity|]. exfalso.
    destruct (snd r0) as [q|] eqn:Hd; [|discriminate].
    unfold replaces in Hall. rewrite Ht, Hd in Hall. discriminate.
  - right. exists rs1, rs2. auto.
Qed.

Lemma balance_teams_returns_first_minimum_witness :
  let s := Demo.start Demo.roster in
  let out := balance_teams_best 2 30 5 s in
  let best := Demo.got Demo.nothing (fst out) in
  exists rs,
    attempt_results 5 2 30 5 s = (Ok rs, snd out)
    /\ List.length rs = 5
    /\ ((best = ([], Infinity) /\ forall r, In r rs -> fst r = [])
        \/ (exists rs1 rs2,
               rs = rs1 ++ best :: rs2
               /\ fst best <> []
               /\ (forall r, In r rs1 -> fst r <> [] ->
                             Dlt (snd best) (snd r))
               /\ (forall r, In r rs2 -> fst r <> [] ->
                             Dle (snd best) (snd r)))).
Proof.
  apply (@balance_teams_returns_first_minimum Demo.externals 2 30 5
           (Demo.start Demo.roster)).
  - reflexivity.
  - vm_compute. reflexivity.
Defined.

(** ** Loading the roster *)

Lemma lstrip_idem s : lstrip (lstrip s) = lstrip s.
Proof.
  induction s as [|c s IH]; simpl; [reflexivity|].
  destruct (is_space c) eqn:Hc; [exact IH|]. simpl. rewrite Hc. reflexivity.
Qed.

Lemma rstrip_idem s : rstrip (rstrip s) = rstrip s.
Proof.
  induction s as [|c s IH]; simpl; [reflexivity|].
  destruct (rstrip s) as [|c' r] eqn:Hr.
  - destruct (is_space c) eqn:Hc; simpl; [reflexivity|].
    rewrite Hc. reflexivity.
  - simpl. simpl in IH. rewrite IH. reflexivity.
Qed.

Lemma rstrip_head c s :
  is_space c = false ->
  exists r, rstrip (String c s) = String c r.
Proof.
  intros Hc. simpl. destruct (rstrip s) as [|c' r].
  - rewrite Hc. eexists. reflexivity.
  - eexists. reflexivity.
Qed.

Lemma lstrip_head s :
  lstrip s = EmptyString
  \/ exists c r, lstrip s = String c r /\ is_space c = false.
Proof.
  induction s as [|c s IH]; simpl; [left; reflexivity|].
  destruct (is_space c) eqn:Hc; [exact IH|].
  right. exists c, s. auto.
Qed.

Lemma lstrip_rstrip_lstrip s : lstrip (rstrip (lstrip s)) = rstrip (lstrip s).
Proof.
  destruct (lstrip_head s) as [->|(c & r & -> & Hc)]; [reflexivity|].
  destruct (rstrip_head c r Hc) as (r' & ->). simpl. rewrite Hc.
  reflexivity.
Qed.

Lemma strip_lstrip s : lstrip (strip s) = strip s.
Proof. apply lstrip_rstrip_lstrip. Qed.

Lemma strip_rstrip s : rstrip (strip s) = strip s.
Proof. apply rstrip_idem. Qed.

Lemma strip_idem s : strip (strip s) = strip s.
Proof.
  unfold strip at 1. rewrite strip_lstrip. apply strip_rstrip.
Qed.

Lemma lstrip_all_space w t :
  all_space w = true -> lstrip (String.append w t) = lstrip t.
Proof.
  induction w as [|c w IH]; simpl; [reflexivity|].
  intros H. apply andb_true_iff in H. destruct H as [Hc Hw].
  rewrite Hc. apply IH. exact Hw.
Qed.

Lemma rstrip_all_space_nil w : all_space w = true -> rstrip w = EmptyString.
Proof.
  induction w as [|c w IH]; simpl; [reflexivity|].
  intros H. apply andb_true_iff in H. destruct H as [Hc Hw].
  rewrite (IH Hw), Hc. reflexivity.
Qed.

Lemma rstrip_all_space t w :
  all_space w = true -> rstrip (String.append t w) = rstrip t.
Proof.
  intros Hw. induction t as [|c t IH]; simpl.
  - apply rstrip_all_space_nil. exact Hw.
  - rewrite IH. reflexivity.
Qed.

Lemma lstrip_all_space_nil w : all_space w = true -> lstrip w = EmptyString.
Proof.
  induction w as [|c w IH]; simpl; [reflexivity|].
  intros H. apply andb_true_iff in H. destruct H as [Hc Hw].
  rewrite Hc. apply IH. exact Hw.
Qed.

Lemma lstrip_append t w :
  all_space w = true ->
  rstrip (lstrip (String.append t w)) = rstrip (lstrip t).
Proof.
  intros Hw. induction t as [|c t IH]; simpl.
  - rewrite (lstrip_all_space_nil w Hw). reflexivity.
  - destruct (is_space c); [exact IH|].
    change (String c (String.append t w))
      with (String.append (String c t) w).
    apply rstrip_all_space. exact Hw.
Qed.

Lemma strip_padding w1 s w2 :
  all_space w1 = true -> all_space w2 = true ->
  strip (String.append w1 (String.append s w2)) = strip s.
Proof.
  intros H1 H2. unfold strip. rewrite (lstrip_all_space w1 _ H1).
  apply lstrip_append. exact H2.
Qed.

Lemma rows_to_players_ok rows loaded :
  rows_to_players rows = Ok loaded -> Forall2 loaded_as rows loaded.
Proof.
  revert loaded. induction rows as [|row rows IH]; intros loaded; simpl.
  - intros H. inversion H; subst. constructor.
  - destruct (row_overall row) as [r|e] eqn:Hr; [|discriminate].
    destruct (rows_to_players rows) as [l|e]; [|discriminate].
    intros H. inversion H; subst. constructor; [|apply IH; reflexivity].
    unfold loaded_as. simpl. auto.
Qed.

Lemma rows_to_players_first_error rows1 row rows2 e :
  Forall (fun r => exists q, row_overall r = Ok q) rows1 ->
  row_overall row = Raise e ->
  rows_to_players (rows1 ++ row :: rows2) = Raise e.
Proof.
  intros Hgood Hbad. induction Hgood as [|r rows1 (q & Hq) _ IH]; simpl.
  - rewrite Hbad. reflexivity.
  - rewrite Hq, IH. reflexivity.
Qed.

Lemma TeamBalancer_init_ok {E : Externals} buffer s u s' :
  TeamBalancer_init buffer s = (Ok u, s') <->
  exists rows loaded,
    read_csv buffer = Ok rows
    /\ rows_to_players rows = Ok loaded
    /\ s' = mkState (fst (random_shuffle (world s) loaded))
                    (snd (random_shuffle (world s) loaded))
                    (solver_calls s).
Proof.
  unfold TeamBalancer_init, _load_players, bind, lift.
  destruct (read_csv buffer) as [rows|e] eqn:Hrows; simpl.
  - destruct (rows_to_players rows) as [loaded|e] eqn:Hloaded; simpl.
    + destruct (random_shuffle (world s) loaded) as [l w] eqn:Hs. simpl.
      split.
      * intros H. inversion H; subst. exists rows, loaded.
        rewrite Hs. auto.
      * intros (rows' & loaded' & Hr & Hl & ->).
        inversion Hr; subst. rewrite Hloaded in Hl. inversion Hl; subst.
        destruct u. rewrite Hs. reflexivity.
    + split; [discriminate|].
      intros (rows' & loaded' & Hr & Hl & _). inversion Hr; subst.
      congruence.
  - split; [discriminate|]. intros (rows' & loaded' & Hr & _). discriminate.
Qed.

(** X6: after [TeamBalancer(buffer)] the balancer holds one player per
    row of the file, with the row's name and rating and with the position
    stripped of surrounding white space, in the order the shuffle left
    them; the solver has not been called. *)
Theorem loaded_roster_matches_rows {E : Externals}
        (buffer : Buffer) (s s' : State) :
  ShuffleContract E ->
  TeamBalancer_init buffer s = (Ok tt, s') ->
  exists rows loaded,
    read_csv buffer = Ok rows
    /\ Forall2 loaded_as rows loaded
    /\ Permutation (players s') loaded
    /\ (forall p, In p (players s') ->
                  lstrip (position p) = position p
                  /\ rstrip (position p) = position p)
    /\ solver_calls s' = solver_calls s.
Proof.
  intros Hshuffle Hinit. apply TeamBalancer_init_ok in Hinit.
  destruct Hinit as (rows & loaded & Hrows & Hloaded & ->).
  exists rows, loaded. simpl. pose proof (rows_to_players_ok _ _ Hloaded) as H2.
  split; [exact Hrows|]. split; [exact H2|].
  split; [apply Hshuffle|]. split; [|reflexivity].
  intros p Hp. apply (Permutation_in _ (Hshuffle _ _)) in Hp.
  clear Hloaded Hrows.
  induction H2 as [|row q rows' loaded' (_ & _ & Hpos) _ IH].
  - destruct Hp.
  - destruct Hp as [<-|Hp]; [|apply IH; exact Hp].
    rewrite Hpos. split; [apply strip_lstrip | apply strip_rstrip].
Qed.

Lemma loaded_roster_matches_rows_witness :
  let buffer := [mkRow "d1" (Ok 4%Q) " DEF"; mkRow "m1" (Ok 3%Q) "MID  "]%string in
  let s' := snd (@TeamBalancer_init Demo.externals buffer (Demo.start [])) in
  exists rows loaded,
    @read_csv Demo.externals buffer = Ok rows
    /\ Forall2 loaded_as rows loaded
    /\ Permutation (players s') loaded
    /\ (forall p, In p (players s') ->
                  lstrip (position p) = position p
                  /\ rstrip (position p) = position p)
    /\ solver_calls s' = solver_calls (Demo.start []).
Proof.
  apply (@loaded_roster_matches_rows Demo.externals).
  - exact demo_shuffle_contract.
  - vm_compute. reflexivity.
Defined.

(** X7: white space around the position of a row does not matter: rows
    that differ only by such padding are loaded as the same players. *)
Theorem padded_positions_load_alike (rows rows' : list RawRow) :
  Forall2 padded rows rows' ->
  rows_to_players rows' = rows_to_players rows.
Proof.
  induction 1 as [|row row' rows rows' (Hn & Ho & w1 & w2 & H1 & H2 & Hp) _ IH];
    simpl; [reflexivity|].
  rewrite Ho, IH, Hn, Hp, (strip_padding w1 _ w2 H1 H2). reflexivity.
Qed.

Lemma padded_positions_load_alike_witness :
  rows_to_players [mkRow "d1" (Ok 4%Q) "  DEF "; mkRow "m1" (Ok 3%Q) "MID "]%string
  = rows_to_players [mkRow "d1" (Ok 4%Q) "DEF"; mkRow "m1" (Ok 3%Q) "MID"]%string.
Proof.
  apply padded_positions_load_alike.
  constructor; [|constructor; [|constructor]].
  - split; [reflexivity|]. split; [reflexivity|].
    exists "  "%string, " "%string. repeat split; reflexivity.
  - split; [reflexivity|]. split; [reflexivity|].
    exists ""%string, " "%string. repeat split; reflexivity.
Defined.

(** ** Errors of the handlers *)

Lemma handler_body_raise {E : Externals} (source : result Buffer)
      num_teams t k s e s1 :
  balanced source num_teams t k s = (Raise e, s1) ->
  bind (lift source)
       (fun csv_buffer =>
          bind (TeamBalancer_init csv_buffer)
               (fun _ => bind (balance_teams num_teams t k)
                              (fun teams' => respond teams'))) s
  = (Raise e, s1).
Proof.
  unfold balanced, bind. intros H.
  destruct (lift source s) as [[buf|e1] s2];
    [|inversion H; subst; reflexivity].
  destruct (TeamBalancer_init buf s2) as [[[]|e2] s3];
    [|inversion H; subst; reflexivity].
  destruct (balance_teams num_teams t k s3) as [[teams|e3] s4];
    [discriminate | inversion H; subst; reflexivity].
Qed.

Lemma load_error_balanced {E : Externals} (source : result Buffer)
      num_teams t k s e :
  load_error source e ->
  balanced source num_teams t k s = (Raise e, s).
Proof.
  unfold balanced, TeamBalancer_init, _load_players, bind.
  intros [->|(buf & -> & [Hread|(rows1 & row & rows2 & Hread & Hgood & Hbad)])];
    simpl; [reflexivity| |].
  - rewrite Hread. reflexivity.
  - rewrite Hread. simpl.
    rewrite (rows_to_players_first_error _ _ _ _ Hgood Hbad). reflexivity.
Qed.

(** X8: when loading fails (the buffer cannot be made, the file cannot be
    read, or a rating is not a number), both handlers answer with the HTTP
    error 500 that wraps the error of the first failure; nothing was
    shuffled and the solver was not called. *)
Theorem load_failure_gives_http_500 {E : Externals}
        (source : result Buffer) (e : exn)
        (num_teams time_limit num_attempts : Z) (s : State) :
  load_error source e ->
  (forall request_players,
      frame_to_csv request_players = source ->
      balance_teams_json request_players num_teams time_limit num_attempts s
      = (Raise (HTTPException 500 (StrOf e)), s))
  /\ (forall file,
         upload_to_buffer file = source ->
         balance_teams_csv file num_teams time_limit num_attempts s
         = (Raise (HTTPException 500 (StrOf e)), s)).
Proof.
  intros Herr.
  pose proof (load_error_balanced source num_teams time_limit num_attempts
                s e Herr) as Hb.
  split.
  - intros request_players <-. unfold balance_teams_json, try_except.
    rewrite (handler_body_raise _ _ _ _ _ _ _ Hb). reflexivity.
  - intros file <-. unfold balance_teams_csv, try_except.
    rewrite (handler_body_raise _ _ _ _ _ _ _ Hb). reflexivity.
Qed.

Lemma load_failure_gives_http_500_witness :
  let source :=
    Ok [mkRow "d1" (Ok 4%Q) "DEF"; mkRow "m1" (Raise ValueError) "MID";
        mkRow "a1" (Ok 2%Q) "ATT"]%string in
  (forall request_players,
      @frame_to_csv Demo.externals request_players = source ->
      balance_teams_json request_players 2 30 5 (Demo.start Demo.roster)
      = (Raise (HTTPException 500 (StrOf ValueError)),
         Demo.start Demo.roster))
  /\ (forall file,
         @upload_to_buffer Demo.externals file = source ->
         balance_teams_csv file 2 30 5 (Demo.start Demo.roster)
         = (Raise (HTTPException 500 (StrOf ValueError)),
            Demo.start Demo.roster)).
Proof.
  apply (@load_failure_gives_http_500 Demo.externals).
  right. eexists. split; [reflexivity|]. right.
  exists [mkRow "d1" (Ok 4%Q) "DEF"]%string,
         (mkRow "m1" (Raise ValueError) "MID")%string,
         [mkRow "a1" (Ok 2%Q) "ATT"]%string.
  split; [reflexivity|]. split; [|reflexivity].
  constructor; [|constructor]. exists 4%Q. reflexivity.
Defined.

(** X9: the error 400 of the handlers never reaches the client.  When
    [balance_teams] returns the empty dictionary, the [HTTPException] with
    status 400 is raised inside the [try] block, caught by
    [except Exception], and both handlers answer with status 500 and the
    error 400 as detail. *)
Theorem empty_balance_gives_http_500 {E : Externals}
        (source : result Buffer) (num_teams time_limit num_attempts : Z)
        (s s1 : State) :
  balanced source num_teams time_limit num_attempts s = (Ok [], s1) ->
  (forall request_players,
      frame_to_csv request_players = source ->
      balance_teams_json request_players num_teams time_limit num_attempts s
      = (Raise (HTTPException 500 (StrOf no_balance)), s1))
  /\ (forall file,
         upload_to_buffer file = source ->
         balance_teams_csv file num_teams time_limit num_attempts s
         = (Raise (HTTPException 500 (StrOf no_balance)), s1)).
Proof.
  intros Hrun. split.
  - intros request_players <-. unfold balance_teams_json, try_except.
    rewrite (handler_body_run _ _ _ _ _ _ _ Hrun). reflexivity.
  - intros file <-. unfold balance_teams_csv, try_except.
    rewrite (handler_body_run _ _ _ _ _ _ _ Hrun). reflexivity.
Qed.

Lemma empty_balance_gives_http_500_witness :
  let source := @frame_to_csv Demo.externals Demo.request_gk in
  let s1 := snd (balanced source 4 30 5 (Demo.start [])) in
  (forall request_players,
      @frame_to_csv Demo.externals request_players = source ->
      balance_teams_json request_players 4 30 5 (Demo.start [])
      = (Raise (HTTPException 500 (StrOf no_balance)), s1))
  /\ (forall file,
         @upload_to_buffer Demo.externals file = source ->
         balance_teams_csv file 4 30 5 (Demo.start [])
         = (Raise (HTTPException 500 (StrOf no_balance)), s1)).
Proof.
  apply (@empty_balance_gives_http_500 Demo.externals).
  vm_compute. reflexivity.
Defined.

(** ** When the statistics succeed, and what they contain *)

Lemma team_output_ok_inv item t :
  team_output item = Ok t ->
  snd item <> []
  /\ forall p, In p (snd item) -> standard_position (position p).
Proof.
  intros H.
  assert (Hne : snd item <> []).
  { intros Hnil. unfold team_output in H. rewrite Hnil in H.
    discriminate. }
  split; [exact Hne|].
  destruct (team_output_cases item Hne) as [(t' & _ & Hall)|(pos & Hr & _)];
    [exact Hall | congruence].
Qed.

Lemma team_outputs_ok_inv items outs :
  team_outputs items = Ok outs ->
  forall k l, In (k, l) items ->
              l <> [] /\ forall p, In p l -> standard_position (position p).
Proof.
  revert outs. induction items as [|item items IH]; intros outs H k l Hin.
  - destruct Hin.
  - simpl in H. destruct (team_output item) as [t|] eqn:Ht; [|discriminate].
    destruct (team_outputs items) as [ts|] eqn:Hts; [|discriminate].
    destruct Hin as [->|Hin].
    + apply (team_output_ok_inv _ _ Ht).
    + apply (IH ts eq_refl k l Hin).
Qed.

Lemma count_positions_ok d l :
  (forall p, In p l -> In (position p) (map fst d)) ->
  exists d', count_positions d l = Ok d' /\ map fst d' = map fst d.
Proof.
  revert d. induction l as [|p l IH]; intros d Hall; simpl.
  - exists d. auto.
  - destruct (dict_incr_ok d (position p) (Hall p (or_introl eq_refl)))
      as (d1 & -> & Hkeys).
    destruct (IH d1) as (d' & -> & Hkeys').
    + intros q Hq. rewrite Hkeys. apply Hall. right. exact Hq.
    + exists d'. split; [reflexivity | congruence].
Qed.

Lemma team_output_ok item :
  snd item <> [] ->
  (forall p, In p (snd item) -> standard_position (position p)) ->
  exists t, team_output item = Ok t.
Proof.
  intros Hne Hstd. unfold team_output, py_truediv.
  destruct (Z.eqb_spec (len (snd item)) 0) as [H0|_].
  { exfalso. destruct (snd item); [congruence|].
    unfold len in H0. simpl List.length in H0. lia. }
  destruct (count_positions_ok pos_dist_init (snd item) Hstd) as (d & -> & _).
  eexists. reflexivity.
Qed.

Lemma team_outputs_ok items :
  (forall k l, In (k, l) items ->
               l <> [] /\ forall p, In p l -> standard_position (position p)) ->
  exists outs, team_outputs items = Ok outs
               /\ List.length outs = List.length items.
Proof.
  induction items as [|[k l] items IH]; intros H; simpl.
  - exists []. auto.
  - destruct (H k l (or_introl eq_refl)) as [Hne Hstd].
    destruct (team_output_ok (k, l) Hne Hstd) as (t & ->).
    destruct IH as (outs & -> & Hlen).
    { intros k' l' Hin. apply (H k' l'). right. exact Hin. }
    exists (t :: outs). split; [reflexivity|]. simpl. rewrite Hlen.
    reflexivity.
Qed.

Lemma team_outputs_length items outs :
  team_outputs items = Ok outs -> List.length outs = List.length items.
Proof.
  revert outs. induction items as [|item items IH]; intros outs; simpl.
  - intros H. inversion H; subst. reflexivity.
  - destruct (team_output item); [|discriminate].
    destruct (team_outputs items) as [ts|]; [|discriminate].
    intros H. inversion H; subst. simpl. rewrite (IH ts eq_refl).
    reflexivity.
Qed.

(** X10: the statistics of the API succeed exactly on the dictionaries
    that have at least one team, no empty team, and only players whose
    position is DEF, MID or ATT. *)
Theorem statistics_succeed_iff (teams : Teams) :
  (exists resp, statistics teams = Ok resp)
  <-> teams <> []
      /\ forall k l, In (k, l) teams ->
                     l <> []
                     /\ forall p, In p l -> standard_position (position p).
Proof.
  unfold statistics. split.
  - intros (resp & H).
    destruct (team_outputs (sorted_items teams)) as [outs|] eqn:Houts;
      [|discriminate].
    split.
    + intros ->. discriminate.
    + intros k l Hin. apply (team_outputs_ok_inv _ _ Houts k l).
      apply (Permutation_in _ (Permutation_sym (sorted_items_perm teams))).
      exact Hin.
  - intros [Hne Hall].
    destruct (team_outputs_ok (sorted_items teams)) as (outs & -> & Hlen).
    { intros k l Hin. apply (Hall k l).
      apply (Permutation_in _ (sorted_items_perm teams)). exact Hin. }
    assert (Hitems : sorted_items teams <> []).
    { intros Hnil. apply Hne.
      pose proof (sorted_items_perm teams) as Hp. rewrite Hnil in Hp.
      apply Permutation_nil in Hp. exact Hp. }
    unfold py_truediv.
    destruct (Z.eqb_spec (len (List.concat (values (sorted_items teams)))) 0)
      as [H0|_].
    { exfalso. destruct (sorted_items teams) as [|[k l] items] eqn:Hs;
        [congruence|].
      destruct (Hall k l) as [Hl _].
      { apply (Permutation_in _ (sorted_items_perm teams)). rewrite Hs.
        left. reflexivity. }
      simpl in H0. unfold len in H0. rewrite length_app in H0.
      destruct l; [congruence|]. simpl in H0. lia. }
    destruct (map average_rating outs) as [|a avgs] eqn:Hav.
    { exfalso. apply Hitems. apply (f_equal (@List.length _)) in Hav.
      rewrite length_map, Hlen in Hav. destruct (sorted_items teams);
        [reflexivity | discriminate]. }
    simpl. eexists. reflexivity.
Qed.

Lemma dict_incr_counts d k d' :
  NoDup (map fst d) ->
  dict_incr d k = Ok d' ->
  d' = map (fun kn => (fst kn,
                       (snd kn + if String.eqb k (fst kn) then 1 else 0)%Z)) d.
Proof.
  revert d'. induction d as [|[k0 n] d IH]; intros d' Hnd; simpl.
  - discriminate.
  - inversion Hnd as [|? ? Hnotin Hnd']; subst.
    destruct (String.eqb_spec k0 k) as [->|Hk].
    + intros H. inversion H; subst. rewrite String.eqb_refl. f_equal.
      symmetry. rewrite <- (map_id d) at 2. apply map_ext_in.
      intros [k1 n1] Hin. simpl.
      destruct (String.eqb_spec k k1) as [->|_].
      * exfalso. apply Hnotin. change k1 with (fst (k1, n1)).
        apply in_map. exact Hin.
      * rewrite Z.add_0_r. reflexivity.
    + destruct (dict_incr d k) as [r|]; [|discriminate].
      intros H. inversion H; subst.
      destruct (String.eqb_spec k k0) as [->|_]; [congruence|].
      rewrite Z.add_0_r. rewrite (IH r Hnd' eq_refl). reflexivity.
Qed.

Lemma count_position_cons pos p l :
  count_position pos (p :: l)
  = ((if String.eqb (position p) pos then 1 else 0)
     + count_position pos l)%Z.
Proof.
  unfold count_position, len. simpl.
  destruct (String.eqb (position p) pos); simpl List.length; lia.
Qed.

Lemma count_positions_counts l :
  forall d d',
    NoDup (map fst d) ->
    count_positions d l = Ok d' ->
    d' = map (fun kn => (fst kn, (snd kn + count_position (fst kn) l)%Z)) d.
Proof.
  induction l as [|p l IH]; intros d d' Hnd; simpl.
  - intros H. inversion H; subst. rewrite <- (map_id d') at 1.
    apply map_ext. intros [k n]. simpl. unfold count_position, len. simpl.
    rewrite Z.add_0_r. reflexivity.
  - destruct (dict_incr d (position p)) as [d1|] eqn:Hd1; [|discriminate].
    intros H. pose proof (dict_incr_counts d _ d1 Hnd Hd1) as Hd1'.
    assert (Hnd1 : NoDup (map fst d1)).
    { rewrite Hd1', map_map. simpl. exact Hnd. }
    rewrite (IH d1 d' Hnd1 H), Hd1', map_map.
    apply map_ext. intros [k n]. simpl.
    rewrite count_position_cons. f_equal. lia.
Qed.

Lemma standard_counts_sum l :
  (forall p, In p l -> standard_position (position p)) ->
  (count_position "DEF" l + count_position "MID" l + count_position "ATT" l
   = len l)%Z.
Proof.
  induction l as [|p l IH]; intros Hstd.
  - reflexivity.
  - rewrite !count_position_cons, <- Z.add_assoc.
    specialize (IH (fun q Hq => Hstd q (or_intror Hq))).
    assert (Hlen : len (p :: l) = (1 + len l)%Z).
    { unfold len. simpl List.length. lia. }
    rewrite Hlen. pose proof (Hstd p (or_introl eq_refl)) as Hp.
    destruct (String.eqb_spec (position p) "DEF") as [e1|n1];
      destruct (String.eqb_spec (position p) "MID") as [e2|n2];
      destruct (String.eqb_spec (position p) "ATT") as [e3|n3];
      try lia; exfalso; try congruence.
    destruct Hp as [H|[H|[H|[]]]]; simpl in H; congruence.
Qed.

Lemma team_output_describes item t :
  team_output item = Ok t -> describes item t.
Proof.
  intros Ht. destruct (team_output_ok_inv _ _ Ht) as [Hne Hstd].
  unfold team_output in Ht.
  destruct (py_truediv (sum_overall (snd item)) (len (snd item)))
    as [avg|] eqn:Havg; [|discriminate].
  destruct (count_positions pos_dist_init (snd item)) as [d|] eqn:Hd;
    [|discriminate].
  inversion Ht; subst. clear Ht. unfold describes. simpl.
  split; [reflexivity|]. split; [reflexivity|]. split; [reflexivity|].
  split; [exact Havg|]. split.
  - apply count_positions_counts in Hd.
    + rewrite Hd. reflexivity.
    + simpl. repeat constructor; simpl; intuition discriminate.
  - apply standard_counts_sum. exact Hstd.
Qed.

Lemma team_outputs_describe items outs :
  team_outputs items = Ok outs -> Forall2 describes items outs.
Proof.
  revert outs. induction items as [|item items IH]; intros outs; simpl.
  - intros H. inversion H; subst. constructor.
  - destruct (team_output item) as [t|] eqn:Ht; [|discriminate].
    destruct (team_outputs items) as [ts|]; [|discriminate].
    intros H. inversion H; subst. constructor.
    + apply team_output_describes. exact Ht.
    + apply IH. reflexivity.
Qed.

(** X11: a response of the API lists the teams by increasing team number
    (key plus one), one entry per team.  Each entry carries the team's
    players with their fields, the sum of their ratings in the order of
    the team's list, that sum divided by the team size as the average,
    and the numbers of DEF, MID and ATT players, which add up to the team
    size.  The overall mean is the sum of the ratings of all players,
    taken team after team by increasing team number, divided by the
    number of players, and the maximum rating difference is not
    negative. *)
Theorem response_describes_teams (teams : Teams) (resp : BalanceResponse) :
  statistics teams = Ok resp ->
  Forall2 describes (sorted_items teams) (teams_out resp)
  /\ StronglySorted key_le (sorted_items teams)
  /\ Permutation (sorted_items teams) teams
  /\ py_truediv (sum_overall (List.concat (values (sorted_items teams))))
                (len (List.concat (values teams)))
     = Some (overall_mean resp)
  /\ (0 <= max_rating_difference resp)%Q.
Proof.
  unfold statistics. intros H.
  destruct (team_outputs (sorted_items teams)) as [outs|] eqn:Houts;
    [|discriminate].
  destruct (py_truediv _ _) as [mean|] eqn:Hmean; [|discriminate].
  destruct (spread (map average_rating outs)) as [d|] eqn:Hd; [|discriminate].
  inversion H; subst. clear H. simpl.
  split; [apply team_outputs_describe; exact Houts|].
  split; [apply sorted_items_sorted|].
  split; [apply sorted_items_perm|].
  split; [|apply (spread_nonneg _ _ Hd)].
  assert (Hsame : len (List.concat (values teams))
                  = len (List.concat (values (sorted_items teams)))).
  { unfold len. f_equal. apply Permutation_length.
    unfold values. rewrite <- !flat_map_concat_map.
    rewrite (sorted_items_perm teams). reflexivity. }
  rewrite Hsame. exact Hmean.
Qed.

Lemma response_describes_teams_witness :
  let teams := Demo.got [] (fst (balance_teams 2 30 5
                                   (Demo.start Demo.roster))) in
  let resp := Demo.got (mkBalanceResponse [] 0 0) (statistics teams) in
  Forall2 describes (sorted_items teams) (teams_out resp)
  /\ StronglySorted key_le (sorted_items teams)
  /\ Permutation (sorted_items teams) teams
  /\ py_truediv (sum_overall (List.concat (values (sorted_items teams))))
                (len (List.concat (values teams)))
     = Some (overall_mean resp)
  /\ (0 <= max_rating_difference resp)%Q.
Proof.
  apply response_describes_teams. vm_compute. reflexivity.
Defined.

(** ** The difference reported by the API and the one the loop selects on *)

Lemma team_outputs_averages items outs :
  team_outputs items = Ok outs ->
  team_averages (values items) = Some (map average_rating outs).
Proof.
  revert outs. induction items as [|item items IH]; intros outs; simpl.
  - intros H. inversion H; subst. reflexivity.
  - destruct (team_output item) as [t|] eqn:Ht; [|discriminate].
    destruct (team_outputs items) as [ts|]; [|discriminate].
    intros H. inversion H; subst.
    rewrite (team_output_average _ _ Ht), (IH ts eq_refl). reflexivity.
Qed.

Lemma team_averages_perm vs vs' :
  Permutation vs vs' ->
  forall a, team_averages vs = Some a ->
            exists a', team_averages vs' = Some a' /\ Permutation a a'.
Proof.
  induction 1 as [|v l l' Hp IH|v w l|l1 l2 l3 H12 IH12 H23 IH23];
    intros a Ha; simpl in *.
  - exists a. split; [exact Ha|]. inversion Ha. constructor.
  - destruct (team_average v) as [x|]; [|discriminate].
    destruct (team_averages l) as [r|]; [|discriminate].
    inversion Ha; subst. destruct (IH r eq_refl) as (r' & -> & Hr).
    exists (x :: r'). split; [reflexivity | constructor; exact Hr].
  - destruct (team_average w) as [y|]; [|discriminate].
    destruct (team_average v) as [x|]; [|discriminate].
    destruct (team_averages l) as [r|]; [|discriminate].
    inversion Ha; subst. exists (x :: y :: r).
    split; [reflexivity | apply perm_swap].
  - destruct (IH12 a Ha) as (a2 & Ha2 & Hp2).
    destruct (IH23 a2 Ha2) as (a3 & Ha3 & Hp3).
    exists a3. split; [exact Ha3 | apply (Permutation_trans Hp2 Hp3)].
Qed.

(** X12: the maximum rating difference of a response is, as a number, the
    difference [_try_balance_teams] computes for the same teams (the one
    the loop of [balance_teams] compares): the API sorts the teams first,
    which does not change the largest and the smallest average. *)
Theorem response_difference_is_attempt_difference
        (teams : Teams) (resp : BalanceResponse) :
  statistics teams = Ok resp ->
  exists q, max_rating_diff_of teams = Ok (Finite q)
            /\ (q == max_rating_difference resp)%Q.
Proof.
  intros Hstat.
  assert (Hne : teams <> []).
  { intros ->. vm_compute in Hstat. discriminate. }
  unfold statistics in Hstat.
  destruct (team_outputs (sorted_items teams)) as [outs|] eqn:Houts;
    [|discriminate].
  destruct (py_truediv _ _); [|discriminate].
  destruct (spread (map average_rating outs)) as [d|] eqn:Hd; [|discriminate].
  inversion Hstat; subst. clear Hstat. simpl.
  apply team_outputs_averages in Houts.
  destruct (team_averages_perm (values (sorted_items teams)) (values teams))
    with (a := map average_rating outs) as (avgs & Havgs & Hp).
  { unfold values. apply Permutation_map. apply sorted_items_perm. }
  { exact Houts. }
  unfold max_rating_diff_of.
  destruct teams as [|kv teams']; [congruence|].
  unfold truthy. rewrite Havgs.
  destruct avgs as [|x xs].
  { apply Permutation_sym, Permutation_nil in Hp.
    rewrite Hp in Hd. discriminate. }
  eexists. split; [reflexivity|].
  apply (spread_perm (x :: xs) (map average_rating outs));
    [apply Permutation_sym; exact Hp | reflexivity | exact Hd].
Qed.

Lemma response_difference_is_attempt_difference_witness :
  let teams := Demo.got [] (fst (balance_teams 2 30 5
                                   (Demo.start Demo.roster))) in
  let resp := Demo.got (mkBalanceResponse [] 0 0) (statistics teams) in
  exists q, max_rating_diff_of teams = Ok (Finite q)
            /\ (q == max_rating_difference resp)%Q.
Proof.
  apply response_difference_is_attempt_difference.
  vm_compute. reflexivity.
Defined.

(** ** A successful request, end to end *)



Lemma balance_teams_partitions_quotas {E : Externals}
      num_teams t k s teams s' :
  ShuffleContract E ->
  SolverContract E ->
  balance_teams num_teams t k s = (Ok teams, s') ->
  teams <> [] ->
  partitions num_teams (players s) teams /\ meets_quotas teams.
Proof.
  intros Hshuffle Hsolver Hrun Hne.
  apply balance_teams_ok in Hrun. destruct Hrun as (d & Hrun).
  destruct (balance_teams_best_invariant
              (@Permutation Player)
              (fun ps b => fst b = []
                           \/ (partitions num_teams ps (fst b)
                               /\ meets_quotas (fst b)))
              num_teams
              (@Permutation_refl _) (@Permutation_sym _)
              (@Permutation_trans _)
              (fun w l => Permutation_sym (Hshuffle w l)))
    with (t := t) (k := k) (s := s) (best := (teams, d)) (s' := s')
    as [Hnil|Hgood].
  - intros ps ps' b Hp [Hb|[Hb Hq]]; [left; exact Hb|].
    right. split; [eapply partitions_perm; eauto | exact Hq].
  - intros per s0 r s0' Htry Hr. right.
    apply (try_balance_partitions _ _ _ _ _ _ Hsolver Htry Hr).
  - left. reflexivity.
  - exact Hrun.
  - simpl in Hnil. contradiction.
  - exact Hgood.
Qed.







(** ** [print_teams] *)

Lemma dd_list_append d k p k' :
  dd_list (dd_append d k p) k'
  = if String.eqb k k' then dd_list d k ++ [p] else dd_list d k'.
Proof.
  induction d as [|[k0 v] d IH]; simpl.
  - destruct (String.eqb k k'); reflexivity.
  - destruct (String.eqb_spec k0 k) as [->|Hk0]; simpl.
    + destruct (String.eqb_spec k k'); reflexivity.
    + destruct (String.eqb_spec k0 k') as [->|Hk0']; simpl.
      * destruct (String.eqb_spec k k'); [congruence | reflexivity].
      * exact IH.
Qed.

Lemma dd_list_group players pos :
  forall d,
    dd_list (fold_left (fun d p => dd_append d (position p) p) players d) pos
    = dd_list d pos
        ++ filter (fun p => String.eqb (position p) pos) players.
Proof.
  induction players as [|p players IH]; intros d; simpl.
  - rewrite app_nil_r. reflexivity.
  - rewrite IH, dd_list_append.
    destruct (String.eqb_spec (position p) pos) as [->|_]; simpl.
    + rewrite <- app_assoc. reflexivity.
    + reflexivity.
Qed.

Lemma dd_int_incr d k k' :
  dd_int (dd_incr d k) k'
  = (dd_int d k' + if String.eqb k k' then 1 else 0)%Z.
Proof.
  induction d as [|[k0 n] d IH]; simpl.
  - destruct (String.eqb k k'); reflexivity.
  - destruct (String.eqb_spec k0 k) as [->|Hk0]; simpl.
    + destruct (String.eqb_spec k k'); lia.
    + destruct (String.eqb_spec k0 k') as [->|Hk0']; simpl.
      * destruct (String.eqb_spec k k'); [congruence | lia].
      * exact IH.
Qed.

Lemma dd_int_count players pos :
  forall d,
    dd_int (fold_left (fun d p => dd_incr d (position p)) players d) pos
    = (dd_int d pos + count_position pos players)%Z.
Proof.
  induction players as [|p players IH]; intros d; simpl.
  - unfold count_position, len. simpl. lia.
  - rewrite IH, dd_int_incr, count_position_cons. lia.
Qed.

Lemma insert_by_rating_perm x l : Permutation (insert_by_rating x l) (x :: l).
Proof.
  induction l as [|y l IH]; simpl; [reflexivity|].
  destruct (Qlt_le_dec (- overall y) (- overall x)); [|reflexivity].
  rewrite IH. apply perm_swap.
Qed.

Lemma sorted_by_rating_perm l : Permutation (sorted_by_rating l) l.
Proof.
  induction l as [|x l IH]; simpl; [constructor|].
  rewrite insert_by_rating_perm. constructor. exact IH.
Qed.

Lemma insert_by_rating_sorted x l :
  StronglySorted rating_ge l -> StronglySorted rating_ge (insert_by_rating x l).
Proof.
  induction 1 as [|y l Hs IH Hall]; simpl.
  - constructor; constructor.
  - destruct (Qlt_le_dec (- overall y) (- overall x)) as [Hlt|Hle].
    + constructor; [exact IH|].
      apply (Permutation_Forall (Permutation_sym (insert_by_rating_perm x l))).
      constructor; [unfold rating_ge; lra | exact Hall].
    + constructor; [constructor; assumption|].
      constructor; [unfold rating_ge; lra|].
      eapply Forall_impl; [|exact Hall].
      intros z Hz. unfold rating_ge in *. lra.
Qed.

Lemma sorted_by_rating_sorted l : StronglySorted rating_ge (sorted_by_rating l).
Proof.
  induction l as [|x l IH]; simpl; [constructor|].
  apply insert_by_rating_sorted. exact IH.
Qed.

Lemma team_report_reports item r :
  team_report item = Ok r -> reports item r.
Proof.
  unfold team_report.
  destruct (py_truediv (sum_overall (snd item)) (len (snd item)))
    as [avg|] eqn:Havg; [|discriminate].
  intros H. inversion H; subst. clear H. unfold reports. simpl.
  split; [reflexivity|]. split; [exact Havg|].
  split; [reflexivity|]. split; [reflexivity|]. split.
  - intros pos lines Hin.
    assert (Hl : lines
                 = map (fun p => (name p, overall p))
                       (sorted_by_rating
                          (filter (fun p => String.eqb (position p) pos)
                                  (snd item)))).
    { destruct Hin as [Heq|[Heq|[Heq|[]]]]; inversion Heq; subst;
        rewrite dd_list_group; reflexivity. }
    eexists. split; [exact Hl|].
    split; [apply sorted_by_rating_perm | apply sorted_by_rating_sorted].
  - unfold listed_positions. simpl. rewrite !dd_int_count. reflexivity.
Qed.

Lemma team_report_ok item :
  snd item <> [] -> exists r, team_report item = Ok r.
Proof.
  intros Hne. unfold team_report, py_truediv.
  destruct (Z.eqb_spec (len (snd item)) 0) as [H0|_].
  { exfalso. destruct (snd item); [congruence|].
    unfold len in H0. simpl List.length in H0. lia. }
  eexists. reflexivity.
Qed.

Lemma team_reports_ok items :
  (forall k l, In (k, l) items -> l <> []) ->
  exists rs, team_reports items = Ok rs
             /\ List.length rs = List.length items.
Proof.
  induction items as [|[k l] items IH]; intros H; simpl.
  - exists []. auto.
  - destruct (team_report_ok (k, l) (H k l (or_introl eq_refl))) as (r & ->).
    destruct IH as (rs & -> & Hlen).
    { intros k' l' Hin. apply (H k' l'). right. exact Hin. }
    exists (r :: rs). split; [reflexivity|]. simpl. rewrite Hlen.
    reflexivity.
Qed.

Lemma team_reports_describe items rs :
  team_reports items = Ok rs -> Forall2 reports items rs.
Proof.
  revert rs. induction items as [|item items IH]; intros rs; simpl.
  - intros H. inversion H; subst. constructor.
  - destruct (team_report item) as [r|] eqn:Hr; [|discriminate].
    destruct (team_reports items) as [rs'|]; [|discriminate].
    intros H. inversion H; subst. constructor.
    + apply team_report_reports. exact Hr.
    + apply IH. reflexivity.
Qed.

Lemma print_teams_ok teams :
  teams <> [] ->
  (forall k l, In (k, l) teams -> l <> []) ->
  exists rep, print_teams teams = Ok (Some rep)
              /\ List.length (report_teams rep) = List.length teams.
Proof.
  intros Hne Hfull. unfold print_teams.
  destruct teams as [|kv teams'] eqn:Ht; [congruence|].
  rewrite <- Ht in *. assert (Htr : truthy teams = true) by (rewrite Ht; auto).
  rewrite Htr. simpl negb. cbv iota.
  pose proof (sorted_items_perm teams) as Hp.
  destruct (team_reports_ok (sorted_items teams)) as (rs & -> & Hlen).
  { intros k l Hin. apply (Hfull k l). apply (Permutation_in _ Hp). exact Hin. }
  rewrite (Permutation_length Hp) in Hlen.
  unfold py_truediv.
  destruct (Z.eqb_spec (len (List.concat (values (sorted_items teams)))) 0)
    as [H0|_].
  { exfalso.
    assert (Hin : In kv (sorted_items teams)).
    { apply (Permutation_in _ (Permutation_sym Hp)). rewrite Ht. left.
      reflexivity. }
    destruct kv as [k l]. pose proof (Hfull k l) as Hl.
    assert (Hsub : incl l (List.concat (values (sorted_items teams)))).
    { intros p Hpl. apply in_concat. exists l. split; [|exact Hpl].
      unfold values. change l with (snd (k, l)). apply in_map. exact Hin. }
    destruct l as [|p l]; [apply Hl; [rewrite Ht; left|]; reflexivity|].
    specialize (Hsub p (or_introl eq_refl)).
    destruct (List.concat (values (sorted_items teams))); [destruct Hsub|].
    unfold len in H0. simpl List.length in H0. lia. }
  destruct (map report_average rs) as [|a avgs] eqn:Hav.
  { exfalso. apply (f_equal (@List.length _)) in Hav.
    rewrite length_map, Hlen, Ht in Hav. discriminate. }
  simpl. eexists. split; [reflexivity|]. simpl. exact Hlen.
Qed.

(** X14: [print_teams] accepts every dictionary [balance_teams] returns,
    whatever the positions of the players (a position other than DEF, MID
    and ATT makes the API fail, not the report): the empty dictionary
    prints nothing, any other prints one entry per team. *)
Theorem print_teams_accepts_every_result {E : Externals}
        (num_teams time_limit num_attempts : Z) (s s' : State)
        (teams : Teams) :
  balance_teams num_teams time_limit num_attempts s = (Ok teams, s') ->
  (teams = [] /\ print_teams teams = Ok None)
  \/ (teams <> []
      /\ exists rep,
           print_teams teams = Ok (Some rep)
           /\ List.length (report_teams rep) = List.length teams).
Proof.
  intros Hrun. pose proof (balance_teams_well_formed _ _ _ _ _ _ Hrun) as Hwf.
  destruct teams as [|kv teams'] eqn:Ht.
  - left. split; reflexivity.
  - right. split; [discriminate|]. rewrite <- Ht in *.
    apply print_teams_ok; [rewrite Ht; discriminate | apply Hwf].
Qed.

Lemma print_teams_accepts_every_result_witness :
  let teams := Demo.got [] (fst Demo.balanced_gk) in
  (teams = [] /\ print_teams teams = Ok None)
  \/ (teams <> []
      /\ exists rep,
           print_teams teams = Ok (Some rep)
           /\ List.length (report_teams rep) = List.length teams).
Proof.
  apply (@print_teams_accepts_every_result Demo.externals 2 30 5
           (snd (@TeamBalancer_init Demo.externals
                   (map Demo.row_of_input Demo.request_gk) (Demo.start [])))
           (snd Demo.balanced_gk)).
  vm_compute. reflexivity.
Defined.

(** X15: what [print_teams] prints for each team, in the order of the
    team numbers: the number (key plus one), the total of the ratings in
    the order of the team's list, that total divided by the team size as
    the average, under each of DEF, MID and ATT
    exactly the team's players at that position by decreasing rating, and
    the number of players at each of the three positions.  Players at any
    other position count in the average and the total and are listed
    nowhere. *)
Theorem print_teams_lists_by_position (teams : Teams) (rep : Report) :
  print_teams teams = Ok (Some rep) ->
  Forall2 reports (sorted_items teams) (report_teams rep)
  /\ report_team_means rep
     = numbered (map report_average (report_teams rep)).
Proof.
  unfold print_teams. destruct (negb (truthy teams)); [discriminate|].
  destruct (team_reports (sorted_items teams)) as [rs|] eqn:Hrs;
    [|discriminate].
  destruct (py_truediv _ _); [|discriminate].
  destruct (spread (map report_average rs)); [|discriminate].
  intros H. inversion H; subst. simpl.
  split; [apply team_reports_describe; exact Hrs | reflexivity].
Qed.

Lemma print_teams_lists_by_position_witness :
  let teams := Demo.got [] (fst Demo.balanced_gk) in
  let rep := Demo.got (mkReport [] 0 [] 0)
                      (match print_teams teams with
                       | Ok (Some r) => Ok r
                       | Ok None => Raise ValueError
                       | Raise e => Raise e
                       end) in
  Forall2 reports (sorted_items teams) (report_teams rep)
  /\ report_team_means rep
     = numbered (map report_average (report_teams rep)).
Proof.
  apply print_teams_lists_by_position. vm_compute. reflexivity.
Defined.

Lemma team_output_report item t :
  team_output item = Ok t ->
  exists r, team_report item = Ok r
            /\ report_number r = team_number t
            /\ report_average r = average_rating t
            /\ report_total r = total_rating t
            /\ report_distribution r = position_distribution t.
Proof.
  intros Ht. pose proof (team_output_describes _ _ Ht) as Hd.
  destruct Hd as (_ & _ & _ & _ & Hdist & _).
  unfold team_output in Ht. unfold team_report.
  destruct (py_truediv (sum_overall (snd item)) (len (snd item))) as [a|];
    [|discriminate].
  destruct (count_positions pos_dist_init (snd item)); [|discriminate].
  inversion Ht; subst. simpl in Hdist. eexists. split; [reflexivity|].
  simpl. split; [reflexivity|]. split; [reflexivity|].
  split; [reflexivity|].
  rewrite Hdist. unfold listed_positions. simpl.
  rewrite !dd_int_count. reflexivity.
Qed.

Lemma team_outputs_reports items outs :
  team_outputs items = Ok outs ->
  exists rs, team_reports items = Ok rs
             /\ map report_number rs = map team_number outs
             /\ map report_average rs = map average_rating outs
             /\ map report_total rs = map total_rating outs
             /\ map report_distribution rs = map position_distribution outs.
Proof.
  revert outs. induction items as [|item items IH]; intros outs; simpl.
  - intros H. inversion H; subst. exists []. simpl. auto.
  - destruct (team_output item) as [t|] eqn:Ht; [|discriminate].
    destruct (team_outputs items) as [ts|]; [|discriminate].
    intros H. inversion H; subst.
    destruct (team_output_report _ _ Ht) as (r & -> & H1 & H2 & H3 & H4).
    destruct (IH ts eq_refl) as (rs & -> & G1 & G2 & G3 & G4).
    exists (r :: rs). simpl.
    rewrite H1, H2, H3, H4, G1, G2, G3, G4. auto.
Qed.

(** X16: the text report and the API agree.  Whenever the statistics of
    the API succeed on a dictionary, [print_teams] prints, for the same
    teams in the same order, the same team numbers, averages, totals and
    position counts, the same overall mean and the same maximum
    difference. *)
Theorem report_agrees_with_response (teams : Teams) (resp : BalanceResponse) :
  statistics teams = Ok resp ->
  exists rep,
    print_teams teams = Ok (Some rep)
    /\ map report_number (report_teams rep)
       = map team_number (teams_out resp)
    /\ map report_average (report_teams rep)
       = map average_rating (teams_out resp)
    /\ map report_total (report_teams rep)
       = map total_rating (teams_out resp)
    /\ map report_distribution (report_teams rep)
       = map position_distribution (teams_out resp)
    /\ report_overall_mean rep = overall_mean resp
    /\ report_max_difference rep = max_rating_difference resp.
Proof.
  intros Hstat.
  assert (Htr : truthy teams = true).
  { destruct teams; [vm_compute in Hstat; discriminate | reflexivity]. }
  unfold statistics in Hstat. unfold print_teams. rewrite Htr. simpl negb.
  cbv iota.
  destruct (team_outputs (sorted_items teams)) as [outs|] eqn:Houts;
    [|discriminate].
  destruct (team_outputs_reports _ _ Houts) as (rs & -> & H1 & H2 & H3 & H4).
  destruct (py_truediv _ _) as [mean|]; [|discriminate].
  rewrite H2.
  destruct (spread (map average_rating outs)) as [d|]; [|discriminate].
  inversion Hstat; subst. simpl. eexists. split; [reflexivity|]. simpl.
  auto 10.
Qed.

Lemma report_agrees_with_response_witness :
  let teams := Demo.got [] (fst (balance_teams 2 30 5
                                   (Demo.start Demo.roster))) in
  let resp := Demo.got (mkBalanceResponse [] 0 0) (statistics teams) in
  exists rep,
    print_teams teams = Ok (Some rep)
    /\ map report_number (report_teams rep)
       = map team_number (teams_out resp)
    /\ map report_average (report_teams rep)
       = map average_rating (teams_out resp)
    /\ map report_total (report_teams rep)
       = map total_rating (teams_out resp)
    /\ map report_distribution (report_teams rep)
       = map position_distribution (teams_out resp)
    /\ report_overall_mean rep = overall_mean resp
    /\ report_max_difference rep = max_rating_difference resp.
Proof.
  apply report_agrees_with_response. vm_compute. reflexivity.
Defined.

(** ** What a roster needs for teams to exist *)

Lemma count_position_app pos l1 l2 :
  count_position pos (l1 ++ l2)
  = (count_position pos l1 + count_position pos l2)%Z.
Proof.
  unfold count_position, len. rewrite filter_app, length_app. lia.
Qed.

Lemma count_position_perm pos l l' :
  Permutation l l' -> count_position pos l = count_position pos l'.
Proof.
  induction 1 as [|x l l' _ IH|x y l|l1 l2 l3 _ IH1 _ IH2].
  - reflexivity.
  - rewrite !count_position_cons, IH. reflexivity.
  - rewrite !count_position_cons. lia.
  - congruence.
Qed.

Lemma count_position_nonneg pos l : (0 <= count_position pos l)%Z.
Proof. unfold count_position, len. lia. Qed.

Lemma count_position_concat_ge pos (m : Z) (teams : Teams) :
  (forall k l, In (k, l) teams -> (m <= count_position pos l)%Z) ->
  (m * len teams <= count_position pos (List.concat (values teams)))%Z.
Proof.
  induction teams as [|[k l] teams IH]; intros H.
  - change (len (@nil (nat * list Player))) with 0%Z.
    rewrite Z.mul_0_r. apply count_position_nonneg.
  - simpl. rewrite count_position_app.
    specialize (IH (fun k' l' Hin => H k' l' (or_intror Hin))).
    pose proof (H k l (or_introl eq_refl)).
    unfold len in *. simpl List.length.
    rewrite Nat2Z.inj_succ, Z.mul_succ_r. lia.
Qed.

Lemma listed_counts_le l :
  (count_position "DEF" l + count_position "MID" l + count_position "ATT" l
   <= len l)%Z.
Proof.
  induction l as [|p l IH].
  - unfold count_position, len. simpl. lia.
  - rewrite !count_position_cons.
    assert (Hlen : len (p :: l) = (1 + len l)%Z).
    { unfold len. simpl List.length. lia. }
    rewrite Hlen.
    destruct (String.eqb_spec (position p) "DEF") as [e1|n1];
      destruct (String.eqb_spec (position p) "MID") as [e2|n2];
      destruct (String.eqb_spec (position p) "ATT") as [e3|n3];
      try lia; exfalso; congruence.
Qed.

(** X17: teams exist only for rosters that can meet the quotas.  Under
    the contracts of the shuffle and of the solver, when [balance_teams]
    returns teams, [num_teams] is positive, the roster has at least
    [2 * num_teams] players at each of DEF, MID and ATT, and at least
    [6 * num_teams] players in all.  A roster short of any of these makes
    every run return the empty dictionary. *)
Theorem teams_need_enough_players {E : Externals}
        (num_teams time_limit num_attempts : Z) (s s' : State)
        (teams : Teams) :
  ShuffleContract E ->
  SolverContract E ->
  balance_teams num_teams time_limit num_attempts s = (Ok teams, s') ->
  teams <> [] ->
  (0 < num_teams)%Z
  /\ (forall pos min_count,
         In (pos, min_count) position_requirements ->
         (min_count * num_teams <= count_position pos (players s))%Z)
  /\ (6 * num_teams <= len (players s))%Z.
Proof.
  intros Hshuffle Hsolver Hrun Hne.
  destruct (balance_teams_partitions_quotas _ _ _ _ _ _ Hshuffle Hsolver
              Hrun Hne) as [(_ & Hlen & _ & Hall) Hquota].
  assert (Hpos : (0 < num_teams)%Z).
  { rewrite <- Hlen. destruct teams; [congruence|].
    unfold len. simpl List.length. lia. }
  assert (Hreq : forall pos min_count,
             In (pos, min_count) position_requirements ->
             (min_count * num_teams <= count_position pos (players s))%Z).
  { intros pos min_count Hin.
    rewrite <- (count_position_perm pos _ _ Hall), <- Hlen.
    apply count_position_concat_ge.
    intros k l Hkl. apply (Hquota k l pos min_count Hkl Hin). }
  split; [exact Hpos|]. split; [exact Hreq|].
  assert (H1 : (2 * num_teams <= count_position "DEF" (players s))%Z)
    by (apply Hreq; simpl; auto).
  assert (H2 : (2 * num_teams <= count_position "MID" (players s))%Z)
    by (apply Hreq; simpl; auto).
  assert (H3 : (2 * num_teams <= count_position "ATT" (players s))%Z)
    by (apply Hreq; simpl; auto).
  pose proof (listed_counts_le (players s)) as Hle.
  lia.
Qed.

Lemma teams_need_enough_players_witness :
  let s := Demo.start Demo.roster in
  (0 < 2)%Z
  /\ (forall pos min_count,
         In (pos, min_count) position_requirements ->
         (min_count * 2 <= count_position pos (players s))%Z)
  /\ (6 * 2 <= len (players s))%Z.
Proof.
  apply (@teams_need_enough_players Demo.externals 2 30 5
           (Demo.start Demo.roster)
           (snd (balance_teams 2 30 5 (Demo.start Demo.roster)))
           (Demo.got [] (fst (balance_teams 2 30 5
                                (Demo.start Demo.roster))))).
  - exact demo_shuffle_contract.
  - exact demo_solver_contract.
  - vm_compute. reflexivity.
  - vm_compute. discriminate.
Defined.

(** ** The overall mean *)

Lemma fold_overall_shift l a :
  (fold_left (fun acc p => acc + overall p) l a
   == a + fold_left (fun acc p => acc + overall p) l 0)%Q.
Proof.
  revert a. induction l as [|p l IH]; intros a; simpl.
  - ring.
  - rewrite (IH (a + overall p)%Q), (IH (0 + overall p)%Q). ring.
Qed.

Lemma sum_overall_cons p l :
  (sum_overall (p :: l) == overall p + sum_overall l)%Q.
Proof.
  unfold sum_overall. simpl. rewrite fold_overall_shift. ring.
Qed.



(** ** The jitter and the feasibility of the model *)

Lemma rating_loop_shape {E : Externals} ps target threshold js :
  forall s dev s',
    rating_loop ps target threshold js s = (Ok dev, s') ->
    Forall deviation_shaped dev.
Proof.
  assert (Hterms : forall j,
             Forall (fun t : Q * LpVar => exists i j0, snd t = player_var i j0)
                    (team_rating_expr ps j)).
  { intros j. unfold team_rating_expr. apply Forall_forall.
    intros t Ht. apply in_map_iff in Ht. destruct Ht as (ip & <- & _).
    simpl. eauto. }
  induction js as [|j js IH]; intros s dev s' H; simpl in H.
  - inversion H; subst. constructor.
  - apply bind_ok in H. destruct H as (u1 & s1 & _ & H).
    apply bind_ok in H. destruct H as (u2 & s2 & _ & H).
    apply bind_ok in H. destruct H as (rest & s3 & Hrest & H).
    inversion H; subst. simpl.
    constructor; [|constructor; [|apply (IH _ _ _ Hrest)]].
    + split; [reflexivity|]. split; [reflexivity|]. apply Hterms.
    + split; [reflexivity|]. split; [reflexivity|]. simpl.
      unfold neg_terms. apply Forall_forall. intros t Ht.
      apply in_map_iff in Ht. destruct Ht as (t0 & <- & Ht0). simpl.
      pose proof (Hterms j) as Hj. rewrite Forall_forall in Hj.
      apply (Hj t0 Ht0).
Qed.

Lemma eval_player_terms x ts :
  Forall (fun t : Q * LpVar => exists i j, snd t = player_var i j) ts ->
  exists b, forall m, eval_terms (sol_of x m) ts = Some b.
Proof.
  induction 1 as [|[c v] ts (i & j & Hv) _ (b & IH)]; simpl.
  - exists 0%Q. reflexivity.
  - simpl in Hv. subst v.
    exists (c * (if x i j then 1 else 0) + b)%Q.
    intros m. simpl. rewrite (IH m). reflexivity.
Qed.

Lemma deviation_satisfiable x dev :
  Forall deviation_shaped dev ->
  exists m, (0 <= m)%Q
            /\ forall m', (m <= m')%Q ->
                          forallb (holdsb (sol_of x m')) dev = true.
Proof.
  induction 1 as [|c dev (Hl & Hs & Ht) _ (m0 & Hm0 & IH)].
  - exists 0%Q. split; [apply Qle_refl | reflexivity].
  - destruct (eval_player_terms x _ Ht) as (b & Hb).
    set (bound := (b + constant (rhs c))%Q).
    exists (if Qlt_le_dec m0 bound then bound else m0).
    split.
    + destruct (Qlt_le_dec m0 bound) as [Hlt|_]; [|exact Hm0].
      apply Qlt_le_weak. eapply Qle_lt_trans; [exact Hm0 | exact Hlt].
    + intros m' Hm'. simpl. apply andb_true_iff. split.
      * unfold holdsb, eval_expr. rewrite Hl, Hs, (Hb m'). simpl.
        apply Qle_bool_iff. fold bound.
        destruct (Qlt_le_dec m0 bound); lra.
      * apply IH. destruct (Qlt_le_dec m0 bound); lra.
Qed.

Lemma sol_of_binary x m ij : binary (sol_of x m) ij.
Proof.
  unfold binary, pvar, sol_of. eexists. split; [reflexivity|].
  destruct (x (fst ij) (snd ij)); [right | left]; reflexivity.
Qed.

Lemma holdsb_lpSum_eq_intro sol ijs (c : Z) :
  (forall ij, In ij ijs -> binary sol ij) ->
  Z.of_nat (ones sol ijs) = c ->
  holdsb sol (mkConstraint (lpSum (map pvar ijs)) LpConstraintEQ
                           (lpConst (inject_Z c))) = true.
Proof.
  intros Hbin Hc. destruct (eval_lpSum_ones sol ijs Hbin) as (r & Hr & Heq).
  unfold holdsb, eval_expr. simpl lhs. simpl rhs. rewrite Hr. simpl.
  apply Qeq_bool_iff. rewrite Heq, Hc. ring.
Qed.

Lemma holdsb_lpSum_ge_intro sol ijs (c : Z) :
  (forall ij, In ij ijs -> binary sol ij) ->
  (c <= Z.of_nat (ones sol ijs))%Z ->
  holdsb sol (mkConstraint (lpSum (map pvar ijs)) LpConstraintGE
                           (lpConst (inject_Z c))) = true.
Proof.
  intros Hbin Hc. destruct (eval_lpSum_ones sol ijs Hbin) as (r & Hr & Heq).
  unfold holdsb, eval_expr. simpl lhs. simpl rhs. rewrite Hr. simpl.
  apply Qle_bool_iff. rewrite Zle_Qle in Hc. rewrite Heq. lra.
Qed.

Lemma assignment_ok_any_max_diff x m m' num_teams ps :
  assignment_ok (sol_of x m) num_teams ps ->
  assignment_ok (sol_of x m') num_teams ps.
Proof. intros H. exact H. Qed.

(** X19: the jitter never makes the model infeasible.  Whatever values
    [random.uniform] draws, the problem [_try_balance_teams] builds is
    satisfied by every assignment that puts each player in exactly one
    team, gives every team [N // T] players and meets the position
    requirements, together with a large enough value of [max_diff]. *)
Theorem jitter_keeps_model_feasible {E : Externals}
        (ps : list Player) (num_teams : Z) (rating_threshold : Q)
        (s s' : State) (prob : LpProblem)
        (x : nat -> nat -> bool) (m0 : Q) :
  build_problem ps num_teams rating_threshold s = (Ok prob, s') ->
  assignment_ok (sol_of x m0) num_teams ps ->
  exists m, (0 <= m)%Q /\ feasibleb prob (sol_of x m) = true.
Proof.
  intros Hbuild (Hone & Hsize & Hquota).
  unfold build_problem in Hbuild.
  apply bind_ok in Hbuild. destruct Hbuild as (target & s1 & _ & Hbuild).
  apply bind_ok in Hbuild. destruct Hbuild as (dev & s2 & Hdev & Hbuild).
  inversion Hbuild; subst. clear Hbuild.
  apply rating_loop_shape in Hdev.
  destruct (deviation_satisfiable x dev Hdev) as (m & Hm & Hdevs).
  exists m. split; [exact Hm|].
  unfold feasibleb. simpl. apply andb_true_iff. split.
  - rewrite forallb_app. apply andb_true_iff. split.
    + apply forallb_forall. intros v Hv. unfold player_vars in Hv.
      apply in_flat_map in Hv. destruct Hv as (i & _ & Hv).
      apply in_map_iff in Hv. destruct Hv as (j & <- & _).
      unfold var_okb. simpl. destruct (x i j); reflexivity.
    + simpl. rewrite andb_true_r. unfold var_okb. simpl.
      rewrite andb_true_r. apply Qle_bool_iff. exact Hm.
  - rewrite !forallb_app. apply andb_true_iff. split; [|apply andb_true_iff; split].
    + apply forallb_forall. intros c Hc. unfold one_team_constraints in Hc.
      apply in_map_iff in Hc. destruct Hc as (i & <- & Hi).
      apply in_seq in Hi.
      pose proof (holdsb_lpSum_eq_intro (sol_of x m)
                    (map (pair i) (range num_teams)) 1
                    (fun ij _ => sol_of_binary x m ij)) as H.
      rewrite map_map in H. apply H.
      assert (Hi' : i < List.length ps) by lia.
      exact (f_equal Z.of_nat (Hone i Hi')).
    + apply Hdevs. apply Qle_refl.
    + apply forallb_forall. intros c Hc. apply in_flat_map in Hc.
      destruct Hc as (j & Hj & Hc). unfold team_constraints in Hc.
      apply in_app_or in Hc. destruct Hc as [Hc|[<-|[]]].
      * apply in_map_iff in Hc. destruct Hc as ([pos min_count] & <- & Hreq).
        pose proof (holdsb_lpSum_ge_intro (sol_of x m)
                      (map (fun ip : nat * Player => (fst ip, j))
                           (filter (fun ip => String.eqb (position (snd ip)) pos)
                                   (enumerate ps)))
                      min_count
                      (fun ij _ => sol_of_binary x m ij)) as H.
        rewrite map_map in H. apply H.
        rewrite <- members_count_position.
        exact (Hquota j pos min_count Hj Hreq).
      * pose proof (holdsb_lpSum_eq_intro (sol_of x m)
                      (map (fun ip : nat * Player => (fst ip, j))
                           (enumerate ps))
                      (len ps / num_teams)
                      (fun ij _ => sol_of_binary x m ij)) as H.
        rewrite map_map in H. apply H.
        rewrite <- members_length. exact (Hsize j Hj).
Qed.

Lemma jitter_keeps_model_feasible_witness :
  let s := Demo.start Demo.roster in
  let prob := Demo.got (mkProblem [] (lpConst 0) [])
                       (fst (build_problem Demo.roster 2 (1 # 10)%Q s)) in
  let x := fun i j => Nat.eqb (i mod 2) j in
  exists m, (0 <= m)%Q /\ feasibleb prob (sol_of x m) = true.
Proof.
  apply (@jitter_keeps_model_feasible Demo.externals Demo.roster 2
           (1 # 10)%Q (Demo.start Demo.roster)
           (snd (build_problem Demo.roster 2 (1 # 10)%Q
                   (Demo.start Demo.roster)))
           _ _ 1000%Q).
  - vm_compute. reflexivity.
  - assert (Hbuild :
      build_problem Demo.roster 2 (1 # 10)%Q (Demo.start Demo.roster)
      = (Ok (Demo.got (mkProblem [] (lpConst 0) [])
               (fst (build_problem Demo.roster 2 (1 # 10)%Q
                       (Demo.start Demo.roster)))),
         snd (build_problem Demo.roster 2 (1 # 10)%Q
                (Demo.start Demo.roster)))).
    { vm_compute. reflexivity. }
    destruct (build_problem_ok _ _ _ _ _ _ Hbuild) as [Hvars Hcs].
    apply (feasible_assignment_ok Demo.roster 2 _ _ Hvars Hcs).
    vm_compute. reflexivity.
Defined.
